(** * Notebook Navigator: the memory mirror and the tag index

    A shallow embedding of [src/storage/MemoryFileCache.ts] and
    [src/utils/tagTree.ts], and of the loop of the pane header that
    collects the tag paths to expand, followed by the properties of these.

    Conventions of the embedding.
    - A JavaScript string is a [string]: a sequence of code units below 256
      (the Latin-1 part of UTF-16).  Case mapping, white space and line
      terminators are those of ECMAScript on that range.
    - A JavaScript [Map<string, V>] is an association list in insertion
      order with one entry per key ([JsMap]); a [Set<string>] is a list in
      insertion order without repetition ([JsSet]).
    - Code that may throw or write to the console runs in [Eff]. *)

From Stdlib Require Import String Ascii List Bool Arith ZArith Lia Permutation.
Import ListNotations.

Set Implicit Arguments.

Local Open Scope string_scope.
Local Open Scope list_scope.
Local Open Scope nat_scope.

(* ===================================================================== *)
(** * Part I: definitions *)
(* ===================================================================== *)

(** ** ECMAScript strings *)

Module JsString.

(** [String.prototype.toLowerCase] on one code unit below 256: the letters
    A-Z and the Latin-1 capitals U+00C0-U+00DE (without the multiplication
    sign U+00D7) move up by 32. *)
Definition toLowerChar (c : ascii) : ascii :=
  let n := nat_of_ascii c in
  if ((65 <=? n) && (n <=? 90))
     || ((192 <=? n) && (n <=? 222) && negb (n =? 215))
  then ascii_of_nat (n + 32) else c.

Fixpoint toLowerCase (s : string) : string :=
  match s with
  | EmptyString => EmptyString
  | String c r => String (toLowerChar c) (toLowerCase r)
  end.

(** [s.startsWith(p)] and [s.endsWith(p)]. *)
Definition startsWith (p s : string) : bool := String.prefix p s.

Definition endsWith (p s : string) : bool :=
  let n := String.length s in
  let m := String.length p in
  (m <=? n) && String.eqb (String.substring (n - m) m s) p.

(** [s.substring(n)]: the string without its first [n] code units. *)
Definition substringFrom (n : nat) (s : string) : string :=
  String.substring n (String.length s - n) s.

(** [s.slice(from, to)], negative indices counting from the end. *)
Definition slice (from to : Z) (s : string) : string :=
  let len := Z.of_nat (String.length s) in
  let clamp (i : Z) := if (i <? 0)%Z then Z.max (len + i) 0 else Z.min i len in
  let a := clamp from in
  let b := clamp to in
  String.substring (Z.to_nat a) (Z.to_nat (Z.max (b - a) 0)) s.

(** [s.split(sep)] for a separator of one code unit.  The result is never
    empty: [split sep ""] is [[""]]. *)
Fixpoint split (sep : ascii) (s : string) : list string :=
  match s with
  | EmptyString => [EmptyString]
  | String c r =>
      if Ascii.eqb c sep then EmptyString :: split sep r
      else match split sep r with
           | p :: ps => String c p :: ps
           | [] => [String c EmptyString]
           end
  end.

(** [parts.join(sep)]. *)
Definition join (sep : string) (parts : list string) : string :=
  String.concat sep parts.

(** White space and line terminators removed by [trim], below 256:
    TAB, LF, VT, FF, CR, SP and NBSP. *)
Definition isWhiteSpace (c : ascii) : bool :=
  let n := nat_of_ascii c in
  ((9 <=? n) && (n <=? 13)) || (n =? 32) || (n =? 160).

Fixpoint trimStart (s : string) : string :=
  match s with
  | EmptyString => EmptyString
  | String c r => if isWhiteSpace c then trimStart r else s
  end.

Fixpoint trimEnd (s : string) : string :=
  match s with
  | EmptyString => EmptyString
  | String c r =>
      match trimEnd r with
      | EmptyString => if isWhiteSpace c then EmptyString else String c EmptyString
      | r' => String c r'
      end
  end.

Definition trim (s : string) : string := trimEnd (trimStart s).

(** [s.replace(/re/g, f)] where the expression matches single code units:
    every code unit satisfying [hit] is replaced by [f] of it. *)
Fixpoint replaceEach (hit : ascii -> bool) (f : ascii -> string) (s : string) : string :=
  match s with
  | EmptyString => EmptyString
  | String c r =>
      if hit c then (f c ++ replaceEach hit f r)%string
      else String c (replaceEach hit f r)
  end.

(** Number of occurrences of a code unit. *)
Fixpoint count (c : ascii) (s : string) : nat :=
  match s with
  | EmptyString => 0
  | String d r => (if Ascii.eqb d c then 1 else 0) + count c r
  end.

(** Canonicalize of the flag [i], below 256: the letters a-z and the
    Latin-1 small letters U+00E0-U+00FE (without the division sign U+00F7)
    move down by 32; the upper-case forms of the remaining code units are
    not single code units below 256. *)
Definition canonicalize (c : ascii) : ascii :=
  let n := nat_of_ascii c in
  if ((97 <=? n) && (n <=? 122))
     || ((224 <=? n) && (n <=? 254) && negb (n =? 247))
  then ascii_of_nat (n - 32) else c.

(** LF and CR, the line terminators below 256: the dot of a regular
    expression does not match them. *)
Definition isLineTerminator (c : ascii) : bool :=
  let n := nat_of_ascii c in (n =? 10) || (n =? 13).

End JsString.

(** ** [Map<string, V>] and [Set<string>] *)

Module JsMap.

Section Ops.
Variable V : Type.

Definition t : Type := list (string * V).

Definition empty : t := [].

Fixpoint get (k : string) (m : t) : option V :=
  match m with
  | [] => None
  | (k', v) :: r => if String.eqb k k' then Some v else get k r
  end.

Definition has (k : string) (m : t) : bool :=
  match get k m with Some _ => true | None => false end.

(** [m.set(k, v)]: an existing key keeps its position, a new key goes
    last. *)
Fixpoint set (k : string) (v : V) (m : t) : t :=
  match m with
  | [] => [(k, v)]
  | (k', v') :: r =>
      if String.eqb k k' then (k', v) :: r else (k', v') :: set k v r
  end.

Fixpoint delete (k : string) (m : t) : t :=
  match m with
  | [] => []
  | (k', v') :: r =>
      if String.eqb k k' then r else (k', v') :: delete k r
  end.

Definition keys (m : t) : list string := map fst m.
Definition values (m : t) : list V := map snd m.
Definition entries (m : t) : list (string * V) := m.
Definition size (m : t) : nat := length m.

(** The representation invariant: one entry per key. *)
Definition wf (m : t) : Prop := NoDup (keys m).

End Ops.

Arguments empty {V}.

End JsMap.

Module JsSet.

Definition t : Type := list string.

Definition empty : t := [].

Definition has (x : string) (s : t) : bool :=
  existsb (String.eqb x) s.

Definition add (x : string) (s : t) : t :=
  if has x s then s else s ++ [x].

(** [new Set(iterable)] and repeated [add]. *)
Definition addAll (xs : list string) (s : t) : t :=
  fold_left (fun acc x => add x acc) xs s.

Definition from (xs : list string) : t := addAll xs empty.

Definition size (s : t) : nat := length s.

End JsSet.

(** ** Exceptions and the console *)

Inductive JsError : Type :=
| SyntaxError (message : string).

Inductive ConsoleEntry : Type :=
| ConsoleError (message : string) (detail : string) (e : JsError).

Inductive Completion (A : Type) : Type :=
| Normal (a : A)
| Throw (e : JsError).

Arguments Normal {A} a.
Arguments Throw {A} e.

(** A computation yields a completion and the lines it wrote to the
    console. *)
Definition Eff (A : Type) : Type := (Completion A * list ConsoleEntry)%type.

Definition ret {A : Type} (a : A) : Eff A := (Normal a, []).

Definition throw {A : Type} (e : JsError) : Eff A := (Throw e, []).

Definition bind {A B : Type} (m : Eff A) (f : A -> Eff B) : Eff B :=
  match m with
  | (Normal a, out) => let '(r, out') := f a in (r, out ++ out')
  | (Throw e, out) => (Throw e, out)
  end.

Definition consoleError (message detail : string) (e : JsError) : Eff unit :=
  (Normal tt, [ConsoleError message detail e]).

(** [try { body } catch (e) { handler(e) }]. *)
Definition tryCatch {A : Type} (body : Eff A) (handler : JsError -> Eff A) : Eff A :=
  match body with
  | (Normal a, out) => (Normal a, out)
  | (Throw e, out) => let '(r, out') := handler e in (r, out ++ out')
  end.

Notation "x <- m ;; k" := (bind m (fun x => k))
  (at level 61, m at next level, right associativity).
Notation "m ;;; k" := (bind m (fun _ => k))
  (at level 61, right associativity).

(** [xs.some(p)] for a predicate that may throw: stops at the first hit. *)
Fixpoint someM {A : Type} (p : A -> Eff bool) (xs : list A) : Eff bool :=
  match xs with
  | [] => ret false
  | x :: r => b <- p x ;; if b then ret true else someM p r
  end.

(** [for (const x of xs) { body }] threading the loop state. *)
Fixpoint forEachM {A S : Type} (body : A -> S -> Eff S) (xs : list A) (s : S) : Eff S :=
  match xs with
  | [] => ret s
  | x :: r => s' <- body x s ;; forEachM body r s'
  end.


(** ** [storage/MemoryFileCache.ts] *)

(** Modelled from the spec: the declaration of [FileData] lives in
    [storage/IndexedDBStorage.ts], which is not among the sources.  The
    record has the four content fields of the data model; [null] is [None],
    and the metadata blob is opaque. *)
Module FileData.
Record t (Metadata : Type) : Type := make {
  tags : option (list string);
  preview : option string;
  featureImage : option string;
  metadata : option Metadata
}.
End FileData.

Module MemoryFileCache.

(** The [updates] argument of [updateFileContent]: an absent ([undefined])
    field is [None]; a present field carries the new value, [null]
    included. *)
Module Updates.
Record t (Metadata : Type) : Type := make {
  preview : option (option string);
  featureImage : option (option string);
  metadata : option (option Metadata)
}.
End Updates.

(** The [type] argument of [clearAllFileContent]. *)
Module Kind.
Inductive t : Type := preview | featureImage | metadata | all.
End Kind.

(** The two private fields of the class.  The map holds the records
    themselves: the methods that assign to a field of a stored object
    ([updateFileContent], [clearAllFileContent]) are written as replacing
    the record under its key.  One object stored under two paths would be
    shared in the program and is two records here; the statements below do
    not depend on the difference: [clearAllFileContent] treats every object
    alike, and the others involve no assignment to a field. *)
Record t (Metadata : Type) : Type := make {
  memoryMap : JsMap.t (FileData.t Metadata);
  isInitialized : bool
}.

Section Methods.
Variable Metadata : Type.
Local Abbreviation FileData := (FileData.t Metadata).
Local Abbreviation Cache := (t Metadata).

(** [new MemoryFileCache()]. *)
Definition create : Cache :=
  {| memoryMap := JsMap.empty; isInitialized := false |}.

Definition initialize (filesWithPaths : list (string * FileData)) (c : Cache) : Cache :=
  let cleared : JsMap.t FileData := JsMap.empty in
  {| memoryMap :=
       fold_left (fun m '(path, data) => JsMap.set path data m) filesWithPaths cleared;
     isInitialized := true |}.

Definition getFile (path : string) (c : Cache) : option FileData :=
  JsMap.get path (memoryMap c).

Definition getFiles (paths : list string) (c : Cache) : JsMap.t FileData :=
  fold_left
    (fun result path =>
       match JsMap.get path (memoryMap c) with
       | Some file => JsMap.set path file result
       | None => result
       end)
    paths JsMap.empty.

(** [!!file?.preview]: the empty string is falsy. *)
Definition hasPreview (path : string) (c : Cache) : bool :=
  match JsMap.get path (memoryMap c) with
  | Some file =>
      match FileData.preview file with
      | Some text => negb (String.eqb text "")
      | None => false
      end
  | None => false
  end.

Definition hasFile (path : string) (c : Cache) : bool :=
  JsMap.has path (memoryMap c).

Definition getAllFiles (c : Cache) : list FileData :=
  JsMap.values (memoryMap c).

Definition getAllFilesWithPaths (c : Cache) : list (string * FileData) :=
  JsMap.entries (memoryMap c).

Definition updateFile (path : string) (data : FileData) (c : Cache) : Cache :=
  {| memoryMap := JsMap.set path data (memoryMap c);
     isInitialized := isInitialized c |}.

(** The three conditional assignments of [updateFileContent]. *)
Definition applyUpdates (updates : Updates.t Metadata) (existing : FileData) : FileData :=
  {| FileData.tags := FileData.tags existing;
     FileData.preview :=
       match Updates.preview updates with
       | Some v => v
       | None => FileData.preview existing
       end;
     FileData.featureImage :=
       match Updates.featureImage updates with
       | Some v => v
       | None => FileData.featureImage existing
       end;
     FileData.metadata :=
       match Updates.metadata updates with
       | Some v => v
       | None => FileData.metadata existing
       end |}.

Definition updateFileContent (path : string) (updates : Updates.t Metadata) (c : Cache) : Cache :=
  match JsMap.get path (memoryMap c) with
  | Some existing =>
      {| memoryMap := JsMap.set path (applyUpdates updates existing) (memoryMap c);
         isInitialized := isInitialized c |}
  | None => c
  end.

Definition deleteFile (path : string) (c : Cache) : Cache :=
  {| memoryMap := JsMap.delete path (memoryMap c);
     isInitialized := isInitialized c |}.

Definition batchUpdate (updates : list (string * FileData)) (c : Cache) : Cache :=
  {| memoryMap :=
       fold_left (fun m '(path, data) => JsMap.set path data m) updates (memoryMap c);
     isInitialized := isInitialized c |}.

Definition batchUpdateFileContent
    (updates : list (string * Updates.t Metadata)) (c : Cache) : Cache :=
  fold_left (fun c' '(path, update) => updateFileContent path update c') updates c.

(** The body of the loop of [clearAllFileContent]. *)
Definition clearContent (type : Kind.t) (file : FileData) : FileData :=
  {| FileData.tags := FileData.tags file;
     FileData.preview :=
       match type with
       | Kind.all | Kind.preview => None
       | _ => FileData.preview file
       end;
     FileData.featureImage :=
       match type with
       | Kind.all | Kind.featureImage => None
       | _ => FileData.featureImage file
       end;
     FileData.metadata :=
       match type with
       | Kind.all | Kind.metadata => None
       | _ => FileData.metadata file
       end |}.

Definition clearAllFileContent (type : Kind.t) (c : Cache) : Cache :=
  {| memoryMap := map (fun '(path, file) => (path, clearContent type file)) (memoryMap c);
     isInitialized := isInitialized c |}.

Definition getStats (c : Cache) : nat * nat :=
  let fileCount := JsMap.size (memoryMap c) in
  let memoryUsageEstimate := fileCount * 300 in
  (fileCount, memoryUsageEstimate).

Definition isReady (c : Cache) : bool := isInitialized c.

Definition clear (c : Cache) : Cache :=
  {| memoryMap := JsMap.empty; isInitialized := false |}.

(** The mutating methods as data, to speak of histories of calls. *)
Inductive Call : Type :=
| CallInitialize (filesWithPaths : list (string * FileData))
| CallUpdateFile (path : string) (data : FileData)
| CallUpdateFileContent (path : string) (updates : Updates.t Metadata)
| CallDeleteFile (path : string)
| CallBatchUpdate (updates : list (string * FileData))
| CallBatchUpdateFileContent (updates : list (string * Updates.t Metadata))
| CallClearAllFileContent (type : Kind.t)
| CallClear.

Definition perform (call : Call) (c : Cache) : Cache :=
  match call with
  | CallInitialize fs => initialize fs c
  | CallUpdateFile p d => updateFile p d c
  | CallUpdateFileContent p u => updateFileContent p u c
  | CallDeleteFile p => deleteFile p c
  | CallBatchUpdate us => batchUpdate us c
  | CallBatchUpdateFileContent us => batchUpdateFileContent us c
  | CallClearAllFileContent k => clearAllFileContent k c
  | CallClear => clear c
  end.

Definition performAll (calls : list Call) (c : Cache) : Cache :=
  fold_left (fun c' call => perform call c') calls c.

Definition isInitializeCall (call : Call) : bool :=
  match call with CallInitialize _ => true | _ => false end.

End Methods.

End MemoryFileCache.


(** ** [utils/tagTree.ts] *)

(** [TagTreeNode] as the callers of the module see it, with the fields of
    the object literal in [buildTagTreeFromDatabase] (the declaration in
    [types/storage.ts] is not among the sources).  The object graph below a
    node is a tree, read here as a value. *)
#[local] Unset Elimination Schemes.
Inductive TagTreeNode : Type := mkTagTreeNode {
  name : string;
  path : string;
  children : list (string * TagTreeNode);
  notesWithTag : list string
}.
#[local] Set Elimination Schemes.

(** The wildcard form of a pattern: the text [matchesTagPattern] builds
    from it, and what that text means as a regular expression. *)
Module Wildcard.

(** The class [[.+?^${}()|[\]\\]] of the first [replace]. *)
Definition isSpecial (c : ascii) : bool :=
  existsb (Ascii.eqb c)
    ["."; "+"; "?"; "^"; "$"; "{"; "}"; "("; ")"; "|"; "["; "]"; "\"]%char.

(** [.replace(/[.+?^${}()|[\]\\]/g, '\\$&')]. *)
Definition escapeSpecial (s : string) : string :=
  JsString.replaceEach isSpecial (fun c => String "\" (String c EmptyString)) s.

(** [.replace(/\*/g, '.*')]. *)
Definition expandStar (s : string) : string :=
  JsString.replaceEach (Ascii.eqb "*") (fun _ => ".*") s.

Definition wildcardSource (cleanPattern : string) : string :=
  let escapedPattern := expandStar (escapeSpecial cleanPattern) in
  ("^" ++ escapedPattern ++ "$")%string.

(** What that text accepts under the flag [i]: the whole subject, code
    unit by code unit up to case, a star of the pattern standing for any
    run of code units other than line terminators. *)
Fixpoint matches (cleanPattern subject : string) : bool :=
  match cleanPattern with
  | EmptyString =>
      match subject with EmptyString => true | String _ _ => false end
  | String c rest =>
      if Ascii.eqb c "*" then
        (fix star (s : string) : bool :=
           matches rest s
           || match s with
              | String d s' => negb (JsString.isLineTerminator d) && star s'
              | EmptyString => false
              end) subject
      else
        match subject with
        | String d s' =>
            Ascii.eqb (JsString.canonicalize c) (JsString.canonicalize d)
            && matches rest s'
        | EmptyString => false
        end
  end.

End Wildcard.

(** The built-in [RegExp], as far as the module uses it: the constructor
    [new RegExp(source, flags)] either throws a [SyntaxError] or yields an
    expression, and [test], on an expression without the flags g and y, is
    a function of the subject.  The text built from a wildcard pattern
    compiles whatever the pattern is, since every syntax character in it is
    either escaped or part of a [.*]; [RegExp_wildcard] records that and
    what the expression accepts. *)
Class RegExpEngine : Type := {
  RegExp : Type;
  RegExp_new : string -> string -> JsError + RegExp;
  RegExp_test : RegExp -> string -> bool;
  RegExp_wildcard :
    forall cleanPattern : string,
      exists regex,
        RegExp_new (Wildcard.wildcardSource cleanPattern) "i" = inr regex
        /\ forall subject, RegExp_test regex subject = Wildcard.matches cleanPattern subject
}.

(** [utils/fileFilters.ts] is not among the sources: its one function used
    here is a parameter of the build. *)
Class FileFilters : Type := {
  isPathInExcludedFolder : string -> list string -> bool
}.

Module TagTree.

Import JsString.

(** References to the node objects of one build.  An object is allocated
    only where it is stored into [allNodes], under a key that is never
    rebound, so the key stands for the object. *)
Definition Ref : Type := string.

(** A node object while the build mutates it: [children] holds
    references. *)
Module Obj.
Record t : Type := make {
  name : string;
  path : string;
  children : JsMap.t Ref;
  notesWithTag : JsSet.t
}.
End Obj.

(** The local variables of [buildTagTreeFromDatabase]; [allNodes] is at the
    same time the store of the node objects. *)
Module Build.
Record t : Type := make {
  allNodes : JsMap.t Obj.t;
  tree : JsMap.t Ref;
  untaggedCount : nat;
  caseMap : JsMap.t string
}.
End Build.

(** The returned object [{ tree, untagged }]. *)
Record BuildResult : Type := mkBuildResult {
  tree : JsMap.t TagTreeNode;
  untagged : nat
}.

(** [noteCountCache]: [null], or a [WeakMap] from node objects to counts.
    Nodes are not mutated once a build has returned, and the build drops
    the cache, so a node object is looked up by its value. *)
Definition NoteCountCache : Type := option (list (TagTreeNode * nat)).

Definition list_eqb {A : Type} (eqb : A -> A -> bool) : list A -> list A -> bool :=
  fix go (l1 l2 : list A) : bool :=
    match l1, l2 with
    | [], [] => true
    | x :: r1, y :: r2 => eqb x y && go r1 r2
    | _, _ => false
    end.

Fixpoint node_eqb (a b : TagTreeNode) : bool :=
  String.eqb (name a) (name b)
  && String.eqb (path a) (path b)
  && (fix go (l1 l2 : list (string * TagTreeNode)) : bool :=
        match l1, l2 with
        | [], [] => true
        | (k1, x) :: r1, (k2, y) :: r2 => String.eqb k1 k2 && node_eqb x y && go r1 r2
        | _, _ => false
        end) (children a) (children b)
  && list_eqb String.eqb (notesWithTag a) (notesWithTag b).

Fixpoint weakMapGet (node : TagTreeNode) (m : list (TagTreeNode * nat)) : option nat :=
  match m with
  | [] => None
  | (n, count) :: r => if node_eqb node n then Some count else weakMapGet node r
  end.

Fixpoint weakMapSet (node : TagTreeNode) (count : nat) (m : list (TagTreeNode * nat))
  : list (TagTreeNode * nat) :=
  match m with
  | [] => [(node, count)]
  | (n, c) :: r =>
      if node_eqb node n then (n, count) :: r else (n, c) :: weakMapSet node count r
  end.

Definition clearNoteCountCache (cache : NoteCountCache) : NoteCountCache := None.

(** Returns the map and the module variable after the call. *)
Definition getNoteCountCache (cache : NoteCountCache)
  : list (TagTreeNode * nat) * NoteCountCache :=
  match cache with
  | Some m => (m, Some m)
  | None => ([], Some [])
  end.

(** [s.startsWith('#') ? s.substring(1) : s], written out four times in the
    module. *)
Definition stripHash (s : string) : string :=
  if startsWith "#" s then substringFrom 1 s else s.

Section Build.
Context {filters : FileFilters}.
Variable Metadata : Type.

(** [node.notesWithTag.add(path)] on the object behind a reference. *)
Definition addNote (ref : Ref) (file : string) (nodes : JsMap.t Obj.t) : JsMap.t Obj.t :=
  match JsMap.get ref nodes with
  | Some node =>
      JsMap.set ref
        {| Obj.name := Obj.name node;
           Obj.path := Obj.path node;
           Obj.children := Obj.children node;
           Obj.notesWithTag := JsSet.add file (Obj.notesWithTag node) |}
        nodes
  | None => nodes
  end.

(** [parent.children.set(key, node)] on the object behind a reference. *)
Definition addChild (parentRef : Ref) (key : string) (node : Ref) (nodes : JsMap.t Obj.t)
  : JsMap.t Obj.t :=
  match JsMap.get parentRef nodes with
  | Some parent =>
      JsMap.set parentRef
        {| Obj.name := Obj.name parent;
           Obj.path := Obj.path parent;
           Obj.children := JsMap.set key node (Obj.children parent);
           Obj.notesWithTag := Obj.notesWithTag parent |}
        nodes
  | None => nodes
  end.

(** "Get or create the node": the locals after the step; the node is then
    the object behind [lowerCurrentPath]. *)
Definition getOrCreateNode (part currentPath lowerCurrentPath : string) (i : nat)
    (st : Build.t) : Build.t :=
  match JsMap.get lowerCurrentPath (Build.allNodes st) with
  | Some _ => st
  | None =>
      let node :=
        {| Obj.name := part; Obj.path := currentPath;
           Obj.children := JsMap.empty; Obj.notesWithTag := JsSet.empty |} in
      {| Build.allNodes := JsMap.set lowerCurrentPath node (Build.allNodes st);
         Build.tree :=
           if i =? 0
           then JsMap.set lowerCurrentPath lowerCurrentPath (Build.tree st)
           else Build.tree st;
         Build.untaggedCount := Build.untaggedCount st;
         Build.caseMap := Build.caseMap st |}
  end.

(** "Only add the file to the leaf tag". *)
Definition addToLeaf (file : string) (parts : list string) (i : nat) (node : Ref)
    (st : Build.t) : Build.t :=
  if i =? length parts - 1
  then {| Build.allNodes := addNote node file (Build.allNodes st);
          Build.tree := Build.tree st;
          Build.untaggedCount := Build.untaggedCount st;
          Build.caseMap := Build.caseMap st |}
  else st.

(** "Link to parent". *)
Definition linkToParent (parts : list string) (i : nat) (lowerCurrentPath : string)
    (node : Ref) (st : Build.t) : Build.t :=
  if 0 <? i then
    let parentPath := toLowerCase (join "/" (firstn i parts)) in
    match JsMap.get parentPath (Build.allNodes st) with
    | Some parent =>
        if negb (JsMap.has lowerCurrentPath (Obj.children parent))
        then {| Build.allNodes :=
                  addChild parentPath lowerCurrentPath node (Build.allNodes st);
                Build.tree := Build.tree st;
                Build.untaggedCount := Build.untaggedCount st;
                Build.caseMap := Build.caseMap st |}
        else st
    | None => st
    end
  else st.

(** One turn of the loop over [parts]; the loop state is [currentPath] and
    the locals. *)
Definition visitPart (file : string) (parts : list string) (i : nat)
    (state : string * Build.t) : string * Build.t :=
  let '(previousPath, st) := state in
  let part := nth i parts "" in
  let currentPath := if i =? 0 then part else (previousPath ++ "/" ++ part)%string in
  let lowerCurrentPath := toLowerCase currentPath in
  let st1 := getOrCreateNode part currentPath lowerCurrentPath i st in
  let node : Ref := lowerCurrentPath in
  let st2 := addToLeaf file parts i node st1 in
  let st3 := linkToParent parts i lowerCurrentPath node st2 in
  (currentPath, st3).

(** The body of [for (const tag of tags)]. *)
Definition processTag (file : string) (st : Build.t) (tag : string) : Build.t :=
  let tagPath := stripHash tag in
  let lowerPath := toLowerCase tagPath in
  (* [!canonicalPath] holds for [undefined] and for the empty string *)
  let known :=
    match JsMap.get lowerPath (Build.caseMap st) with
    | Some canonicalPath => if String.eqb canonicalPath "" then None else Some canonicalPath
    | None => None
    end in
  let '(canonicalPath, st1) :=
    match known with
    | Some canonicalPath => (canonicalPath, st)
    | None =>
        (tagPath,
         {| Build.allNodes := Build.allNodes st;
            Build.tree := Build.tree st;
            Build.untaggedCount := Build.untaggedCount st;
            Build.caseMap := JsMap.set lowerPath tagPath (Build.caseMap st) |})
    end in
  let parts := split "/" canonicalPath in
  snd (fold_left (fun state i => visitPart file parts i state)
                 (seq 0 (length parts)) ("", st1)).

(** The body of [for (const { path, data: fileData } of allFiles)]. *)
Definition processFile (excludedFolderPatterns : option (list string))
    (st : Build.t) (entry : string * FileData.t Metadata) : Build.t :=
  let '(file, fileData) := entry in
  let excluded :=
    match excludedFolderPatterns with
    | Some patterns => isPathInExcludedFolder file patterns
    | None => false
    end in
  if excluded then st
  else
    match FileData.tags fileData with
    | None => st
    | Some [] =>
        {| Build.allNodes := Build.allNodes st;
           Build.tree := Build.tree st;
           Build.untaggedCount := S (Build.untaggedCount st);
           Build.caseMap := Build.caseMap st |}
    | Some tags => fold_left (processTag file) tags st
    end.

Definition initialLocals : Build.t :=
  {| Build.allNodes := JsMap.empty; Build.tree := JsMap.empty;
     Build.untaggedCount := 0; Build.caseMap := JsMap.empty |}.

(** The locals when the loop over the files is over. *)
Definition scan (allFiles : list (string * FileData.t Metadata))
    (excludedFolderPatterns : option (list string)) : Build.t :=
  fold_left (processFile excludedFolderPatterns) allFiles initialLocals.

End Build.

(** Reading the object graph behind a reference as a value.  The store is
    finite and a child key has one more separator than its parent's, so the
    number of separators of the deepest key bounds the depth; [None] means
    that the bound was too small or that a reference dangles. *)
Fixpoint traverse {A B : Type} (f : A -> option B) (l : list A) : option (list B) :=
  match l with
  | [] => Some []
  | x :: r =>
      match f x, traverse f r with
      | Some y, Some ys => Some (y :: ys)
      | _, _ => None
      end
  end.

Fixpoint readNode (fuel : nat) (nodes : JsMap.t Obj.t) (ref : Ref) : option TagTreeNode :=
  match fuel with
  | 0 => None
  | S fuel' =>
      match JsMap.get ref nodes with
      | None => None
      | Some node =>
          match traverse
                  (fun '(key, child) =>
                     match readNode fuel' nodes child with
                     | Some t => Some (key, t)
                     | None => None
                     end)
                  (Obj.children node) with
          | Some cs =>
              Some {| name := Obj.name node; path := Obj.path node;
                      children := cs; notesWithTag := Obj.notesWithTag node |}
          | None => None
          end
      end
  end.

Definition depthOfKey (key : string) : nat := count "/" key.

Definition depthBound (nodes : JsMap.t Obj.t) : nat :=
  S (list_max (map depthOfKey (JsMap.keys nodes))).

Definition readTree (st : Build.t) : option (JsMap.t TagTreeNode) :=
  traverse
    (fun '(key, root) =>
       match readNode (depthBound (Build.allNodes st)) (Build.allNodes st) root with
       | Some t => Some (key, t)
       | None => None
       end)
    (Build.tree st).

(** Modelled from the spec: [IndexedDBStorage] is not among the sources;
    its [getAllFiles()] hands out the records of the memory mirror with
    their paths, in the order of the mirror. *)
Definition getAllFiles {Metadata : Type} (db : MemoryFileCache.t Metadata)
  : list (string * FileData.t Metadata) :=
  MemoryFileCache.getAllFilesWithPaths db.

(** The function returns the result and leaves [noteCountCache] cleared.
    [None] stands for a graph that [readTree] could not read, which Part II
    shows not to happen ([TagIndex.build_returns]). *)
Definition buildTagTreeFromDatabase {filters : FileFilters} {Metadata : Type}
    (db : MemoryFileCache.t Metadata) (excludedFolderPatterns : option (list string))
    (cache : NoteCountCache) : option BuildResult * NoteCountCache :=
  let st := scan (getAllFiles db) excludedFolderPatterns in
  (match readTree st with
   | Some t => Some {| tree := t; untagged := Build.untaggedCount st |}
   | None => None
   end,
   clearNoteCountCache cache).

(** [collectFromChildren], the helper inside [getTotalNoteCount]; the set
    [allFiles] it fills is passed along. *)
Fixpoint collectFromChildren (n : TagTreeNode) (allFiles : JsSet.t) : JsSet.t :=
  (fix loop (cs : list (string * TagTreeNode)) (acc : JsSet.t) : JsSet.t :=
     match cs with
     | [] => acc
     | (_, child) :: r =>
         loop r (collectFromChildren child (JsSet.addAll (notesWithTag child) acc))
     end) (children n) allFiles.

Definition getTotalNoteCount (node : TagTreeNode) (cache0 : NoteCountCache)
  : nat * NoteCountCache :=
  let '(cache, _) := getNoteCountCache cache0 in
  match weakMapGet node cache with
  | Some cachedCount => (cachedCount, Some cache)
  | None =>
      let allFiles := JsSet.from (notesWithTag node) in
      let count := JsSet.size (collectFromChildren node allFiles) in
      (count, Some (weakMapSet node count cache))
  end.

Fixpoint collectAllTagPaths (node : TagTreeNode) (paths : JsSet.t) : JsSet.t :=
  (fix loop (cs : list (string * TagTreeNode)) (acc : JsSet.t) : JsSet.t :=
     match cs with
     | [] => acc
     | (_, child) :: r => loop r (collectAllTagPaths child acc)
     end) (children node) (JsSet.add (path node) paths).

(** [searchNode], the helper inside [findTagNode]: [searchBelow] is the
    call on the children of a node. *)
Fixpoint searchBelow (lowerPath : string) (n : TagTreeNode) : option TagTreeNode :=
  (fix loop (nodes : list (string * TagTreeNode)) : option TagTreeNode :=
     match nodes with
     | [] => None
     | (key, node) :: r =>
         if String.eqb key lowerPath then Some node
         else match searchBelow lowerPath node with
              | Some found => Some found
              | None => loop r
              end
     end) (children n).

Fixpoint searchNode (lowerPath : string) (nodes : list (string * TagTreeNode))
  : option TagTreeNode :=
  match nodes with
  | [] => None
  | (key, node) :: r =>
      if String.eqb key lowerPath then Some node
      else match searchBelow lowerPath node with
           | Some found => Some found
           | None => searchNode lowerPath r
           end
  end.

Definition findTagNode (tree : JsMap.t TagTreeNode) (tagPath : string) : option TagTreeNode :=
  let cleanPath := stripHash tagPath in
  let lowerPath := toLowerCase cleanPath in
  searchNode lowerPath tree.

Definition parseTagPatterns (patterns : string) : list string :=
  filter (fun p => 0 <? String.length p) (map trim (split "," patterns)).

Section Patterns.
Context {engine : RegExpEngine}.

(** [new RegExp(source, flags)]. *)
Definition newRegExp (source flags : string) : Eff RegExp :=
  match RegExp_new source flags with
  | inl e => throw e
  | inr regex => ret regex
  end.

Definition matchesTagPattern (tagPath pattern : string) : Eff bool :=
  let cleanTag := stripHash tagPath in
  let cleanPattern := stripHash pattern in
  if startsWith "/" cleanPattern && endsWith "/" cleanPattern then
    tryCatch
      (regex <- newRegExp (slice 1 (-1) cleanPattern) "i" ;;
       ret (RegExp_test regex cleanTag))
      (fun e =>
         consoleError "Invalid regex pattern:" cleanPattern e ;;;
         ret false)
  else
    let escapedPattern := Wildcard.expandStar (Wildcard.escapeSpecial cleanPattern) in
    regex <- newRegExp ("^" ++ escapedPattern ++ "$")%string "i" ;;
    ret (RegExp_test regex cleanTag).

(** [for (let i = pathParts.length; i > 0; i--)] of [filterTagTree], from
    [i] downwards; the result is [shouldInclude]. *)
Fixpoint ancestorLoop (patterns pathParts : list string) (i : nat) : Eff bool :=
  match i with
  | 0 => ret false
  | S j =>
      let partialPath := join "/" (firstn i pathParts) in
      hit <- someM (fun pattern => matchesTagPattern partialPath pattern) patterns ;;
      if hit then ret true else ancestorLoop patterns pathParts j
  end.

Definition filterTagTree (tree : JsMap.t TagTreeNode) (includePatterns : list string)
  : Eff (JsMap.t TagTreeNode) :=
  if length includePatterns =? 0 then ret tree
  else
    let patterns := parseTagPatterns (join "," includePatterns) in
    forEachM
      (fun '(key, node) (filtered : JsMap.t TagTreeNode) =>
         let pathParts := split "/" (path node) in
         shouldInclude <- ancestorLoop patterns pathParts (length pathParts) ;;
         if shouldInclude then ret (JsMap.set key node filtered) else ret filtered)
      tree JsMap.empty.

Definition excludeFromTagTree (tree : JsMap.t TagTreeNode) (excludePatterns : list string)
  : Eff (JsMap.t TagTreeNode) :=
  if length excludePatterns =? 0 then ret tree
  else
    let patterns := parseTagPatterns (join "," excludePatterns) in
    forEachM
      (fun '(key, node) (filtered : JsMap.t TagTreeNode) =>
         shouldExclude <-
           someM (fun pattern => matchesTagPattern (path node) pattern) patterns ;;
         if negb shouldExclude then ret (JsMap.set key node filtered) else ret filtered)
      tree JsMap.empty.

End Patterns.

End TagTree.

(** ** Vocabulary of the statements about patterns *)

Module PatternSpec.

Import JsString TagTree.

(** The value of a completed test; [false] stands for a thrown error, which
    does not occur. *)
Definition valueOf (m : Eff bool) : bool :=
  match fst m with
  | Normal b => b
  | Throw _ => false
  end.

Section Engine.
Context {engine : RegExpEngine}.

(** A pattern in the delimited form, after the marker is removed. *)
Definition isDelimited (cleanPattern : string) : bool :=
  startsWith "/" cleanPattern && endsWith "/" cleanPattern.

Definition matchesValue (tagPath pattern : string) : bool :=
  valueOf (matchesTagPattern tagPath pattern).

(** The value of the loop of [filterTagTree] over the prefixes, longest
    first. *)
Fixpoint anyPrefixMatches (patterns pathParts : list string) (i : nat) : bool :=
  match i with
  | 0 => false
  | S j =>
      existsb (matchesValue (join "/" (firstn i pathParts))) patterns
      || anyPrefixMatches patterns pathParts j
  end.

(** The patterns the two filters work with: the list joined by commas and
    parsed again. *)
Definition parsed (patterns : list string) : list string :=
  parseTagPatterns (join "," patterns).

End Engine.

End PatternSpec.

(** ** A reference [RegExp] for the examples

    The expressions made of literal code units, escaped syntax characters,
    the dot, a star after one of these, and the assertions [^] and [$],
    under the flags [""] and ["i"].  Every text built from a wildcard
    pattern is of this form.  Texts outside this form, and other flags, are
    not modelled: the constructor below rejects them, and no statement
    relies on that. *)
Module RegExpFragment.

Inductive Atom : Type :=
| Lit (c : ascii)
| Any.

Inductive Item : Type :=
| One (a : Atom)
| Star (a : Atom)
| Bol
| Eol.

(** SyntaxCharacter of the grammar. *)
Definition isSyntaxChar (c : ascii) : bool :=
  existsb (Ascii.eqb c)
    ["^"; "$"; "\"; "."; "*"; "+"; "?"; "("; ")"; "["; "]"; "{"; "}"; "|"]%char.

Fixpoint parse (s : string) : option (list Item) :=
  match s with
  | EmptyString => Some []
  | String c r =>
      let quantified (a : Atom) (rest : string) : option (list Item) :=
        match rest with
        | String q rest' =>
            if Ascii.eqb q "*"
            then option_map (cons (Star a)) (parse rest')
            else option_map (cons (One a)) (parse rest)
        | EmptyString => option_map (cons (One a)) (parse rest)
        end in
      if Ascii.eqb c "^" then option_map (cons Bol) (parse r)
      else if Ascii.eqb c "$" then option_map (cons Eol) (parse r)
      else if Ascii.eqb c "\" then
        match r with
        | String d r' =>
            if isSyntaxChar d || Ascii.eqb d "/" then quantified (Lit d) r' else None
        | EmptyString => None
        end
      else if Ascii.eqb c "." then quantified Any r
      else if isSyntaxChar c then None
      else quantified (Lit c) r
  end.

Definition atomMatches (ignoreCase : bool) (a : Atom) (d : ascii) : bool :=
  match a with
  | Lit c =>
      if ignoreCase then Ascii.eqb (JsString.canonicalize c) (JsString.canonicalize d) else Ascii.eqb c d
  | Any => negb (JsString.isLineTerminator d)
  end.

(** Does a prefix of [s] match [items]?  [atStart] tells whether [s] starts
    at index 0 of the subject. *)
Fixpoint matchHere (ignoreCase : bool) (items : list Item) (atStart : bool) (s : string)
  {struct items} : bool :=
  match items with
  | [] => true
  | Bol :: r => atStart && matchHere ignoreCase r atStart s
  | Eol :: r =>
      match s with
      | EmptyString => matchHere ignoreCase r atStart s
      | String _ _ => false
      end
  | One a :: r =>
      match s with
      | String d s' => atomMatches ignoreCase a d && matchHere ignoreCase r false s'
      | EmptyString => false
      end
  | Star a :: r =>
      (fix star (s : string) (atStart : bool) {struct s} : bool :=
         matchHere ignoreCase r atStart s
         || match s with
            | String d s' => atomMatches ignoreCase a d && star s' false
            | EmptyString => false
            end) s atStart
  end.

(** [test]: a match starting at some index of the subject. *)
Fixpoint search (ignoreCase : bool) (items : list Item) (atStart : bool) (s : string)
  : bool :=
  matchHere ignoreCase items atStart s
  || match s with
     | String _ s' => search ignoreCase items false s'
     | EmptyString => false
     end.

Record Compiled : Type := mkCompiled {
  items : list Item;
  ignoreCase : bool
}.

Definition compile (source flags : string) : JsError + Compiled :=
  match parse source with
  | Some its =>
      if String.eqb flags "i" then inr {| items := its; ignoreCase := true |}
      else if String.eqb flags "" then inr {| items := its; ignoreCase := false |}
      else inl (SyntaxError "Invalid flags")
  | None => inl (SyntaxError "Invalid regular expression")
  end.

Definition test (regex : Compiled) (subject : string) : bool :=
  search (ignoreCase regex) (items regex) true subject.

(** The items of the text built from a wildcard pattern. *)
Fixpoint wildcardItems (cleanPattern : string) : list Item :=
  match cleanPattern with
  | EmptyString => []
  | String c rest =>
      (if Ascii.eqb c "*" then Star Any else One (Lit c)) :: wildcardItems rest
  end.

Definition body (cleanPattern : string) : string :=
  (Wildcard.expandStar (Wildcard.escapeSpecial cleanPattern) ++ "$")%string.

End RegExpFragment.

(** ** Vocabulary of the statements about the tag index *)

Module TagTreeSpec.

Import JsString TagTree.

(** The immediate ancestor prefix of a tag path: the path without its last
    segment. *)
Definition parentOf (p : string) : string :=
  join "/" (removelast (split "/" p)).

(** The prefix of [i + 1] segments, and its key in the index. *)
Definition prefixPath (parts : list string) (i : nat) : string :=
  join "/" (firstn (S i) parts).

Definition prefixKey (parts : list string) (i : nat) : string :=
  toLowerCase (prefixPath parts i).

(** Every prefix of a tag path, shortest first, under its key. *)
Definition prefixesOf (tagPath : string) : list (string * string) :=
  let parts := split "/" tagPath in
  map (fun i => (prefixKey parts i, prefixPath parts i)) (seq 0 (length parts)).

(** The tag occurrences the scan works on, in its order, without the
    marker. *)
Definition scannedTags {filters : FileFilters} {Metadata : Type}
    (allFiles : list (string * FileData.t Metadata))
    (excludedFolderPatterns : option (list string)) : list string :=
  flat_map
    (fun '(file, fileData) =>
       let excluded :=
         match excludedFolderPatterns with
         | Some patterns => isPathInExcludedFolder file patterns
         | None => false
         end in
       if excluded then []
       else match FileData.tags fileData with
            | Some tags => map stripHash tags
            | None => []
            end)
    allFiles.

(** The path shown for a key of the index. *)
Definition pathOf (nodes : JsMap.t Obj.t) (key : string) : option string :=
  option_map Obj.path (JsMap.get key nodes).

Section Store.
Variable nodes : JsMap.t Obj.t.
Variable roots : JsMap.t Ref.

(** What holds of the store and of the root map between two turns of the
    loops. *)
Record Core : Prop := mkCore {
  core_wf : JsMap.wf nodes;
  core_key :
    forall k o, JsMap.get k nodes = Some o -> toLowerCase (Obj.path o) = k;
  core_name :
    forall k o, JsMap.get k nodes = Some o ->
                Obj.name o = last (split "/" (Obj.path o)) "";
  core_children_wf :
    forall k o, JsMap.get k nodes = Some o -> JsMap.wf (Obj.children o);
  core_children :
    forall k o c r,
      JsMap.get k nodes = Some o -> In (c, r) (Obj.children o) ->
      r = c /\ JsMap.get c nodes <> None /\ parentOf c = k
      /\ depthOfKey c = S (depthOfKey k);
  core_tree_wf : JsMap.wf roots;
  core_tree :
    forall k r, In (k, r) roots ->
                r = k /\ JsMap.get k nodes <> None /\ depthOfKey k = 0;
  core_roots :
    forall k o, JsMap.get k nodes = Some o -> depthOfKey k = 0 ->
                JsMap.get k roots = Some k
}.

(** A node below the top level hangs in the children of the node one
    level up, under its own key. *)
Definition Linked (k : string) : Prop :=
  0 < depthOfKey k ->
  exists parent,
    JsMap.get (parentOf k) nodes = Some parent
    /\ JsMap.get k (Obj.children parent) = Some k.

(** References met when walking from the root map along the children. *)
Inductive ReachableRef : Ref -> Prop :=
| reachable_root (k : string) (r : Ref) :
    In (k, r) roots -> ReachableRef r
| reachable_child (p : Ref) (parent : Obj.t) (k : string) (r : Ref) :
    ReachableRef p -> JsMap.get p nodes = Some parent ->
    In (k, r) (Obj.children parent) -> ReachableRef r.

End Store.

(** The same walk in a returned tree: the key and the node arrived at. *)
Inductive Reachable (tree : JsMap.t TagTreeNode) : string -> TagTreeNode -> Prop :=
| reachable_top (key : string) (node : TagTreeNode) :
    In (key, node) tree -> Reachable tree key node
| reachable_below (pkey : string) (parent : TagTreeNode) (key : string) (node : TagTreeNode) :
    Reachable tree pkey parent -> In (key, node) (children parent) ->
    Reachable tree key node.

(** A node and all its descendants. *)
Fixpoint subtreeNodes (n : TagTreeNode) : list TagTreeNode :=
  n :: (fix below (cs : list (string * TagTreeNode)) : list TagTreeNode :=
          match cs with
          | [] => []
          | (_, c) :: r => subtreeNodes c ++ below r
          end) (children n).

(** The files tagged anywhere in the subtree, with repetitions. *)
Definition taggedFiles (n : TagTreeNode) : list string :=
  flat_map notesWithTag (subtreeNodes n).

(** A cache is sound when each of its entries is the number of distinct
    files of the subtree of its node. *)
Definition cacheSound (cache : NoteCountCache) : Prop :=
  match cache with
  | None => True
  | Some m =>
      forall n count, In (n, count) m ->
                      count = length (nodup string_dec (taggedFiles n))
  end.

(** The store [h'] has every object of [h], with its name and path and at
    least its children. *)
Definition Grows (h h' : JsMap.t Obj.t) : Prop :=
  forall k o,
    JsMap.get k h = Some o ->
    exists o',
      JsMap.get k h' = Some o'
      /\ Obj.path o' = Obj.path o
      /\ Obj.name o' = Obj.name o
      /\ forall c r, JsMap.get c (Obj.children o) = Some r ->
                     JsMap.get c (Obj.children o') = Some r.

(** Stores that are good to start a turn of a loop. *)
Definition Good (st : Build.t) : Prop :=
  Core (Build.allNodes st) (Build.tree st)
  /\ forall k, JsMap.get k (Build.allNodes st) <> None -> Linked (Build.allNodes st) k.

(** The prefixes of a list of segments under their keys; for the segments
    of a tag path this is [prefixesOf]. *)
Definition prefixList (parts : list string) : list (string * string) :=
  map (fun i => (prefixKey parts i, prefixPath parts i)) (seq 0 (length parts)).

(** The paths of a store, extended by a list of bindings that yield to the
    older ones. *)
Definition extend (f : string -> option string) (l : list (string * string))
    (k : string) : option string :=
  match f k with
  | Some p => Some p
  | None => JsMap.get k l
  end.

(** What holds between two tag occurrences: [ts] are the occurrences
    worked on so far. *)
Definition ScanInv (ts : list string) (st : Build.t) : Prop :=
  Good st
  /\ (forall k, pathOf (Build.allNodes st) k = JsMap.get k (flat_map prefixesOf ts))
  /\ (forall kl c,
        JsMap.get kl (Build.caseMap st) = Some c -> c <> EmptyString ->
        toLowerCase c = kl
        /\ forall j, j < length (split "/" c) ->
                     JsMap.get (prefixKey (split "/" c) j) (Build.allNodes st) <> None).

(** The test that opens the loop over the files. *)
Definition isExcluded {filters : FileFilters} {Metadata : Type}
    (excludedFolderPatterns : option (list string))
    (entry : string * FileData.t Metadata) : bool :=
  match excludedFolderPatterns with
  | Some patterns => isPathInExcludedFolder (fst entry) patterns
  | None => false
  end.

(** The records counted as untagged: scanned, with an empty tag list. *)
Definition countsAsUntagged {filters : FileFilters} {Metadata : Type}
    (excludedFolderPatterns : option (list string))
    (entry : string * FileData.t Metadata) : bool :=
  negb (isExcluded excludedFolderPatterns entry)
  && match FileData.tags (snd entry) with
     | Some [] => true
     | _ => false
     end.

(** A record with an empty, non-null tag list. *)
Definition hasEmptyTagList {Metadata : Type} (entry : string * FileData.t Metadata)
  : bool :=
  match FileData.tags (snd entry) with
  | Some [] => true
  | _ => false
  end.

(** The step of [readNode] on its entries. *)
Definition readEntry (fuel : nat) (nodes : JsMap.t Obj.t) (entry : string * Ref)
  : option (string * TagTreeNode) :=
  let '(key, child) := entry in
  match readNode fuel nodes child with
  | Some t => Some (key, t)
  | None => None
  end.

(** The files tagged strictly below a node. *)
Definition filesBelow (n : TagTreeNode) : list string :=
  flat_map (fun entry => taggedFiles (snd entry)) (children n).

End TagTreeSpec.

(** ** Data of the examples *)

(** The examples pass no folder patterns to the build, which then never
    consults the filter. *)
#[export] Instance unusedFilters : FileFilters := {|
  isPathInExcludedFolder := fun _ _ => false
|}.

Module ExampleData.

Import TagTree MemoryFileCache.

(** A record with the given tags and no other content. *)
Definition tagged (tags : list string) : FileData.t unit :=
  {| FileData.tags := Some tags; FileData.preview := None;
     FileData.featureImage := None; FileData.metadata := None |}.

Definition mirrorOf (records : list (string * FileData.t unit)) : MemoryFileCache.t unit :=
  initialize records (create unit).

(** One note tagged at two nested depths, a second one at the deeper. *)
Definition nestedRecords : list (string * FileData.t unit) :=
  [("notes/a.md", tagged ["#project"; "#project/sub"]);
   ("notes/b.md", tagged ["#project/sub"])].

Definition subNode : TagTreeNode :=
  {| name := "sub"; path := "project/sub"; children := [];
     notesWithTag := ["notes/a.md"; "notes/b.md"] |}.

Definition projectNode : TagTreeNode :=
  {| name := "project"; path := "project";
     children := [("project/sub", subNode)];
     notesWithTag := ["notes/a.md"] |}.

End ExampleData.

(** [utils/fileFilters.ts] is not among the sources.  Where an example
    needs a file in an excluded folder, this filter stands for
    [isPathInExcludedFolder]: a file is in an excluded folder when its path
    begins with one of the patterns followed by a separator.  The examples
    use of it only that it answers [true] for some file and [false] for
    another. *)
Module FolderFilterExample.

Definition foldersByPrefix : FileFilters := {|
  isPathInExcludedFolder :=
    fun path patterns =>
      existsb (fun pattern => JsString.startsWith (pattern ++ "/") path) patterns
|}.

End FolderFilterExample.

(** ** A caller of [collectAllTagPaths], and histories of writes *)

Module Callers.

Import TagTree.

(** The branch of the expand-all handler of the pane header that works on
    the tags:
    [const allTagPaths = new Set();
     for (const tagNode of fileData.tree.values())
       collectAllTagPaths(tagNode, allTagPaths);]
    The value is the set handed to [SET_EXPANDED_TAGS]. *)
Definition expandAllTagPaths (tree : JsMap.t TagTreeNode) : JsSet.t :=
  fold_left (fun allTagPaths tagNode => collectAllTagPaths tagNode allTagPaths)
            (JsMap.values tree) JsSet.empty.

End Callers.

Module MirrorSpec.

Import MemoryFileCache.

Section Writes.
Variable Metadata : Type.

(** The calls that write one whole record or remove one. *)
Definition isPlainWrite (call : Call Metadata) : bool :=
  match call with
  | CallUpdateFile _ _ | CallDeleteFile _ _ => true
  | _ => false
  end.

(** What a call leaves under [path]: a record, nothing ([Some None]), or
    what was there ([None]). *)
Definition writeTo (path : string) (call : Call Metadata)
  : option (option (FileData.t Metadata)) :=
  match call with
  | CallUpdateFile p data => if String.eqb p path then Some (Some data) else None
  | CallDeleteFile _ p => if String.eqb p path then Some None else None
  | _ => None
  end.

(** The last write to [path] in a history, oldest call first. *)
Fixpoint lastWrite (path : string) (calls : list (Call Metadata))
  : option (option (FileData.t Metadata)) :=
  match calls with
  | [] => None
  | call :: later =>
      match lastWrite path later with
      | Some w => Some w
      | None => writeTo path call
      end
  end.

(** The last record a batch holds for [path], oldest entry first. *)
Fixpoint lastRecord (path : string) (records : list (string * FileData.t Metadata))
  : option (FileData.t Metadata) :=
  match records with
  | [] => None
  | (p, data) :: later =>
      match lastRecord path later with
      | Some d => Some d
      | None => if String.eqb p path then Some data else None
      end
  end.

(** The [updates] object with no field. *)
Definition noUpdates : Updates.t Metadata :=
  {| Updates.preview := None; Updates.featureImage := None; Updates.metadata := None |}.

(** Two [updates] objects as one: a field of the later one wins. *)
Definition mergeUpdates (earlier later : Updates.t Metadata) : Updates.t Metadata :=
  {| Updates.preview :=
       match Updates.preview later with
       | Some v => Some v
       | None => Updates.preview earlier
       end;
     Updates.featureImage :=
       match Updates.featureImage later with
       | Some v => Some v
       | None => Updates.featureImage earlier
       end;
     Updates.metadata :=
       match Updates.metadata later with
       | Some v => Some v
       | None => Updates.metadata earlier
       end |}.

End Writes.

End MirrorSpec.

(** ** The memory mirror with its records as shared objects *)

(** [MemoryFileCache] keeps references: [updateFile] stores the object it
    is given, and [updateFileContent] and [clearAllFileContent] assign to
    the fields of stored objects.  Here the objects live in a store and the
    map holds references to them, so that one object under two paths, or
    one the caller still holds, is one object. *)
Module SharedMirror.

Definition Ref : Type := nat.

Record t (Metadata : Type) : Type := make {
  objects : Ref -> FileData.t Metadata;
  memoryMap : JsMap.t Ref;
  isInitialized : bool
}.

Section Methods.
Variable Metadata : Type.
Local Abbreviation FileData := (FileData.t Metadata).
Local Abbreviation Mirror := (t Metadata).

(** An assignment to the fields of the object [r]. *)
Definition assign (r : Ref) (data : FileData) (store : Ref -> FileData) : Ref -> FileData :=
  fun r' => if Nat.eqb r' r then data else store r'.

Definition initialize (filesWithPaths : list (string * Ref)) (s : Mirror) : Mirror :=
  let cleared : JsMap.t Ref := JsMap.empty in
  {| objects := objects s;
     memoryMap :=
       fold_left (fun m '(path, data) => JsMap.set path data m) filesWithPaths cleared;
     isInitialized := true |}.

Definition getFile (path : string) (s : Mirror) : option Ref :=
  JsMap.get path (memoryMap s).

(** The fields of the object [getFile] answers with. *)
Definition readFile (path : string) (s : Mirror) : option FileData :=
  option_map (objects s) (getFile path s).

Definition updateFile (path : string) (data : Ref) (s : Mirror) : Mirror :=
  {| objects := objects s;
     memoryMap := JsMap.set path data (memoryMap s);
     isInitialized := isInitialized s |}.

Definition updateFileContent
    (path : string) (updates : MemoryFileCache.Updates.t Metadata) (s : Mirror) : Mirror :=
  match JsMap.get path (memoryMap s) with
  | Some existing =>
      {| objects :=
           assign existing
             (MemoryFileCache.applyUpdates updates (objects s existing)) (objects s);
         memoryMap := memoryMap s;
         isInitialized := isInitialized s |}
  | None => s
  end.

Definition deleteFile (path : string) (s : Mirror) : Mirror :=
  {| objects := objects s;
     memoryMap := JsMap.delete path (memoryMap s);
     isInitialized := isInitialized s |}.

Definition clearAllFileContent (type : MemoryFileCache.Kind.t) (s : Mirror) : Mirror :=
  {| objects :=
       fold_left
         (fun store file => assign file (MemoryFileCache.clearContent type (store file)) store)
         (JsMap.values (memoryMap s)) (objects s);
     memoryMap := memoryMap s;
     isInitialized := isInitialized s |}.

(** The mirror as records under paths: every reference read. *)
Definition snapshot (s : Mirror) : MemoryFileCache.t Metadata :=
  {| MemoryFileCache.memoryMap :=
       map (fun '(path, file) => (path, objects s file)) (memoryMap s);
     MemoryFileCache.isInitialized := isInitialized s |}.

End Methods.

End SharedMirror.

(** ** Vocabulary of the statements about the notes of a node *)

Module NotesSpec.

Import JsString TagTree TagTreeSpec.

(** The notes of the object behind a key of the index. *)
Definition notesOf (nodes : JsMap.t Obj.t) (key : string) : option JsSet.t :=
  option_map Obj.notesWithTag (JsMap.get key nodes).

(** The pairs of a file and one of its tags the scan works on, in its
    order: the tags of the records that are not in an excluded folder. *)
Definition taggings {filters : FileFilters} {Metadata : Type}
    (allFiles : list (string * FileData.t Metadata))
    (excludedFolderPatterns : option (list string)) : list (string * string) :=
  flat_map
    (fun entry =>
       if isExcluded excludedFolderPatterns entry then []
       else match FileData.tags (snd entry) with
            | Some tags => map (fun tag => (fst entry, tag)) tags
            | None => []
            end)
    allFiles.

(** The key of the node a tag belongs to. *)
Definition keyOfTag (tag : string) : string := toLowerCase (stripHash tag).

(** The files of the pairs whose tag belongs to the node of [key], in
    order and with repetitions. *)
Definition filesAt (key : string) (pairs : list (string * string)) : list string :=
  map fst (filter (fun pair => String.eqb (keyOfTag (snd pair)) key) pairs).

(** The notes of the object behind a key, none when there is no object. *)
Definition notesOrEmpty (nodes : JsMap.t Obj.t) (key : string) : JsSet.t :=
  match JsMap.get key nodes with
  | Some node => Obj.notesWithTag node
  | None => JsSet.empty
  end.

(** The tag occurrences of a list of pairs, without the marker. *)
Definition tagsOf (pairs : list (string * string)) : list string :=
  map (fun pair => stripHash (snd pair)) pairs.

(** What holds of the notes between two tag occurrences: [seen] are the
    pairs worked on so far. *)
Definition NotesInv (seen : list (string * string)) (st : Build.t) : Prop :=
  ScanInv (tagsOf seen) st
  /\ forall k o,
       JsMap.get k (Build.allNodes st) = Some o ->
       Obj.notesWithTag o = JsSet.from (filesAt k seen).

(** The records the scan works on: outside the excluded folders, with a
    tag list that is not [null]. *)
Definition isScanned {filters : FileFilters} {Metadata : Type}
    (excludedFolderPatterns : option (list string))
    (entry : string * FileData.t Metadata) : bool :=
  negb (isExcluded excludedFolderPatterns entry)
  && match FileData.tags (snd entry) with
     | Some _ => true
     | None => false
     end.

(** A key that is [key] itself or lies below it: [key], then a separator,
    then more. *)
Definition isUnder (key k : string) : bool :=
  String.eqb k key || startsWith (key ++ "/") k.

(** The files of the pairs whose tag belongs to the node of [key] or to a
    node below it. *)
Definition filesUnder (key : string) (pairs : list (string * string)) : list string :=
  map fst (filter (fun pair => isUnder key (keyOfTag (snd pair))) pairs).

End NotesSpec.

(** ** Vocabulary of the statements about wildcard patterns *)

Module WildcardSpec.

Import JsString.

(** No code unit of the string is a line terminator. *)
Fixpoint oneLine (s : string) : bool :=
  match s with
  | EmptyString => true
  | String c r => negb (isLineTerminator c) && oneLine r
  end.

(** [s] begins with [p], up to case, and goes on without a line
    terminator. *)
Fixpoint beginsWith (p s : string) : bool :=
  match p with
  | EmptyString => oneLine s
  | String c rest =>
      match s with
      | String d s' => Ascii.eqb (toLowerChar c) (toLowerChar d) && beginsWith rest s'
      | EmptyString => false
      end
  end.

(** A code unit below 128, the list of these, and a string made of them.
    On these code units the folding of the flag [i], the lower case of
    [toLowerCase] and the line terminators are the same in the embedding
    and on the strings of the program. *)
Definition isAsciiUnit (c : ascii) : bool := nat_of_ascii c <? 128.

Definition asciiUnits : list ascii := map ascii_of_nat (seq 0 128).

Fixpoint isAscii (s : string) : bool :=
  match s with
  | EmptyString => true
  | String c r => isAsciiUnit c && isAscii r
  end.

(** An entry of a pattern list made of commas and of the white space
    TAB, LF, VT, FF, CR, SP and NBSP only; the empty entry is one. *)
Fixpoint isBlankEntry (s : string) : bool :=
  match s with
  | EmptyString => true
  | String c r => (Ascii.eqb c "," || isWhiteSpace c) && isBlankEntry r
  end.

End WildcardSpec.

(* ===================================================================== *)
(** * Part II: properties *)
(* ===================================================================== *)

(** ** Facts about strings *)

Module JsStringFacts.

Import JsString.

Lemma append_assoc (a b c : string) : ((a ++ b) ++ c = a ++ (b ++ c))%string.
Proof. induction a as [|x a IH]; simpl; [reflexivity|now rewrite IH]. Qed.

Lemma append_nil_r (a : string) : (a ++ "")%string = a.
Proof. induction a as [|x a IH]; simpl; [reflexivity|now rewrite IH]. Qed.

Lemma toLowerChar_slash (c : ascii) :
  Ascii.eqb (toLowerChar c) "/" = Ascii.eqb c "/".
Proof.
  destruct c as [[] [] [] [] [] [] [] []]; reflexivity.
Qed.

Lemma toLowerChar_idem (c : ascii) : toLowerChar (toLowerChar c) = toLowerChar c.
Proof.
  destruct c as [[] [] [] [] [] [] [] []]; reflexivity.
Qed.

Lemma toLowerCase_idem (s : string) : toLowerCase (toLowerCase s) = toLowerCase s.
Proof.
  induction s as [|c s IH]; simpl; [reflexivity|].
  now rewrite toLowerChar_idem, IH.
Qed.

Lemma toLowerCase_app (a b : string) :
  toLowerCase (a ++ b) = (toLowerCase a ++ toLowerCase b)%string.
Proof. induction a as [|x a IH]; simpl; [reflexivity|now rewrite IH]. Qed.

Lemma toLowerCase_empty (s : string) : toLowerCase s = "" -> s = "".
Proof. destruct s; simpl; [reflexivity|discriminate]. Qed.

Lemma count_app (c : ascii) (a b : string) :
  count c (a ++ b) = count c a + count c b.
Proof.
  induction a as [|x a IH]; simpl; [reflexivity|]. rewrite IH. lia.
Qed.

Lemma count_toLowerCase (s : string) : count "/" (toLowerCase s) = count "/" s.
Proof.
  induction s as [|c s IH]; simpl; [reflexivity|].
  now rewrite toLowerChar_slash, IH.
Qed.

Lemma split_cons (sep : ascii) (s : string) :
  exists p ps, split sep s = p :: ps.
Proof.
  induction s as [|c s [p [ps IH]]]; simpl.
  - eauto.
  - destruct (Ascii.eqb c sep); [eauto|]. rewrite IH. eauto.
Qed.

Lemma split_nonempty (sep : ascii) (s : string) : split sep s <> [].
Proof. destruct (split_cons sep s) as [p [ps ->]]. discriminate. Qed.

Lemma split_length (sep : ascii) (s : string) : 0 < length (split sep s).
Proof. destruct (split_cons sep s) as [p [ps ->]]. simpl. lia. Qed.

Lemma split_parts (sep : ascii) (s : string) :
  Forall (fun p => count sep p = 0) (split sep s).
Proof.
  induction s as [|c s IH]; simpl.
  - repeat constructor.
  - destruct (Ascii.eqb c sep) eqn:E.
    + constructor; [reflexivity|exact IH].
    + destruct (split sep s) as [|p ps]; [repeat constructor; simpl; now rewrite E|].
      inversion IH; subst. constructor; [simpl; rewrite E; assumption|assumption].
Qed.

Lemma split_toLowerCase (s : string) :
  split "/" (toLowerCase s) = map toLowerCase (split "/" s).
Proof.
  induction s as [|c s IH]; simpl; [reflexivity|].
  rewrite toLowerChar_slash, IH.
  destruct (Ascii.eqb c "/"); [reflexivity|].
  destruct (split "/" s); reflexivity.
Qed.

Lemma split_single (sep : ascii) (p : string) :
  count sep p = 0 -> split sep p = [p].
Proof.
  induction p as [|c p IH]; simpl; [reflexivity|].
  destruct (Ascii.eqb c sep); [discriminate|].
  intros H. now rewrite IH.
Qed.

Lemma split_app_sep (sep : ascii) (p rest : string) :
  count sep p = 0 ->
  split sep (p ++ String sep rest) = p :: split sep rest.
Proof.
  induction p as [|c p IH]; simpl.
  - now rewrite Ascii.eqb_refl.
  - destruct (Ascii.eqb c sep); [discriminate|].
    intros H. now rewrite IH.
Qed.

Lemma join_cons2 (sep x y : string) (l : list string) :
  join sep (x :: y :: l) = (x ++ sep ++ join sep (y :: l))%string.
Proof. reflexivity. Qed.

Lemma join_snoc (sep x : string) (l : list string) :
  l <> [] -> join sep (l ++ [x]) = (join sep l ++ sep ++ x)%string.
Proof.
  induction l as [|a l IH]; [congruence|]. intros _.
  destruct l as [|b l].
  - reflexivity.
  - change ((a :: b :: l) ++ [x]) with (a :: (b :: l) ++ [x]).
    change ((b :: l) ++ [x]) with (b :: (l ++ [x])) at 1.
    rewrite join_cons2.
    change (b :: (l ++ [x])) with ((b :: l) ++ [x]).
    rewrite IH by discriminate.
    rewrite join_cons2. now rewrite !append_assoc.
Qed.

Lemma toLowerCase_join (l : list string) :
  toLowerCase (join "/" l) = join "/" (map toLowerCase l).
Proof.
  induction l as [|a l IH]; [reflexivity|].
  destruct l as [|b l]; [reflexivity|].
  change (map toLowerCase (a :: b :: l))
    with (toLowerCase a :: toLowerCase b :: map toLowerCase l).
  rewrite !join_cons2, !toLowerCase_app.
  change (toLowerCase b :: map toLowerCase l) with (map toLowerCase (b :: l)).
  now rewrite <- IH.
Qed.

Lemma split_join (l : list string) :
  l <> [] -> Forall (fun p => count "/" p = 0) l -> split "/" (join "/" l) = l.
Proof.
  induction l as [|a l IH]; [congruence|]. intros _ Hall.
  inversion Hall as [|? ? Ha Hl]; subst.
  destruct l as [|b l].
  - simpl. now apply split_single.
  - rewrite join_cons2.
    change ("/" ++ join "/" (b :: l))%string with (String "/" (join "/" (b :: l))).
    rewrite split_app_sep by exact Ha.
    rewrite IH; [reflexivity|discriminate|exact Hl].
Qed.

Lemma count_join (l : list string) :
  Forall (fun p => count "/" p = 0) l -> count "/" (join "/" l) = length l - 1.
Proof.
  induction l as [|a l IH]; [reflexivity|]. intros Hall.
  inversion Hall as [|? ? Ha Hl]; subst.
  destruct l as [|b l].
  - simpl. exact Ha.
  - rewrite join_cons2, count_app, Ha.
    change ("/" ++ join "/" (b :: l))%string with (String "/" (join "/" (b :: l))).
    assert (E : forall x, count "/" (String "/" x) = S (count "/" x)) by reflexivity.
    rewrite E, IH by exact Hl. simpl. lia.
Qed.

Lemma Forall_firstn {A : Type} (P : A -> Prop) (n : nat) (l : list A) :
  Forall P l -> Forall P (firstn n l).
Proof.
  intros H. apply Forall_forall. intros x Hx.
  rewrite Forall_forall in H. apply H.
  rewrite <- (firstn_skipn n l). apply in_or_app. now left.
Qed.

Lemma firstn_snoc {A : Type} (d : A) (i : nat) (l : list A) :
  i < length l -> firstn (S i) l = firstn i l ++ [nth i l d].
Proof.
  revert i. induction l as [|a l IH]; intros i Hi; simpl in Hi; [lia|].
  destruct i as [|i]; [reflexivity|].
  change (firstn (S (S i)) (a :: l)) with (a :: firstn (S i) l).
  rewrite IH by lia. reflexivity.
Qed.

Lemma parts_lower_noslash (l : list string) :
  Forall (fun p => count "/" p = 0) l ->
  Forall (fun p => count "/" p = 0) (map toLowerCase l).
Proof.
  intros H. apply Forall_forall. intros x Hx.
  apply in_map_iff in Hx as [y [<- Hy]].
  rewrite count_toLowerCase. rewrite Forall_forall in H. now apply H.
Qed.

End JsStringFacts.

(** ** Facts about [JsMap] *)

Module JsMapFacts.

Section Facts.
Variable V : Type.
Implicit Types (m : JsMap.t V) (k : string) (v : V).

Lemma get_In m k v : JsMap.get k m = Some v -> In (k, v) m.
Proof.
  induction m as [|[k' v'] r IH]; simpl; [discriminate|].
  destruct (String.eqb_spec k k') as [->|Hne].
  - intros [= ->]. now left.
  - intros H. right. auto.
Qed.

Lemma get_None m k : JsMap.get k m = None <-> ~ In k (JsMap.keys m).
Proof.
  induction m as [|[k' v'] r IH]; simpl.
  - tauto.
  - destruct (String.eqb_spec k k') as [->|Hne].
    + split; [discriminate|]. intros H. exfalso. apply H. now left.
    + rewrite IH. split.
      * intros H [E|E]; [congruence|tauto].
      * tauto.
Qed.

Lemma get_Some_key m k v : JsMap.get k m = Some v -> In k (JsMap.keys m).
Proof.
  intros H. apply get_In in H. apply (in_map fst) in H. exact H.
Qed.

Lemma In_key_get m k : In k (JsMap.keys m) -> exists v, JsMap.get k m = Some v.
Proof.
  intros H. destruct (JsMap.get k m) as [v|] eqn:E.
  - now exists v.
  - apply get_None in E. contradiction.
Qed.

Lemma In_get m k v : JsMap.wf m -> In (k, v) m -> JsMap.get k m = Some v.
Proof.
  unfold JsMap.wf, JsMap.keys.
  induction m as [|[k' v'] r IH]; simpl; [tauto|].
  intros Hnd [E|Hin].
  - inversion E; subst. now rewrite String.eqb_refl.
  - inversion Hnd as [|? ? Hnotin Hnd']; subst.
    destruct (String.eqb_spec k k') as [->|Hne].
    + exfalso. apply Hnotin. apply (in_map fst) in Hin. exact Hin.
    + auto.
Qed.

Lemma has_true m k : JsMap.has k m = true <-> In k (JsMap.keys m).
Proof.
  unfold JsMap.has. destruct (JsMap.get k m) as [v|] eqn:E.
  - split; [intros _; eapply get_Some_key; eauto | reflexivity].
  - split; [discriminate|]. intros H. apply get_None in E. contradiction.
Qed.

Lemma set_fresh m k v : JsMap.get k m = None -> JsMap.set k v m = m ++ [(k, v)].
Proof.
  induction m as [|[k' v'] r IH]; simpl; [reflexivity|].
  destruct (String.eqb k k'); [discriminate|].
  intros H. now rewrite IH.
Qed.

Lemma keys_set_present m k v :
  JsMap.get k m <> None -> JsMap.keys (JsMap.set k v m) = JsMap.keys m.
Proof.
  unfold JsMap.keys.
  induction m as [|[k' v'] r IH]; simpl; [congruence|].
  destruct (String.eqb k k'); simpl; [reflexivity|].
  intros H. now rewrite IH.
Qed.

Lemma keys_set m k v :
  JsMap.keys (JsMap.set k v m)
  = if JsMap.has k m then JsMap.keys m else JsMap.keys m ++ [k].
Proof.
  unfold JsMap.has. destruct (JsMap.get k m) as [x|] eqn:E.
  - apply keys_set_present. congruence.
  - rewrite set_fresh by exact E. unfold JsMap.keys. now rewrite map_app.
Qed.

Lemma get_set_same m k v : JsMap.get k (JsMap.set k v m) = Some v.
Proof.
  induction m as [|[k' v'] r IH]; simpl.
  - now rewrite String.eqb_refl.
  - destruct (String.eqb k k') eqn:E; simpl; rewrite E; [reflexivity|exact IH].
Qed.

Lemma get_set_other m k k' v :
  k' <> k -> JsMap.get k' (JsMap.set k v m) = JsMap.get k' m.
Proof.
  intros Hne.
  induction m as [|[k0 v0] r IH]; simpl.
  - destruct (String.eqb_spec k' k); [contradiction|reflexivity].
  - destruct (String.eqb_spec k k0) as [->|Hk]; simpl.
    + destruct (String.eqb_spec k' k0); [contradiction|reflexivity].
    + destruct (String.eqb k' k0); [reflexivity|exact IH].
Qed.

Lemma get_set m k k' v :
  JsMap.get k' (JsMap.set k v m)
  = if String.eqb k' k then Some v else JsMap.get k' m.
Proof.
  destruct (String.eqb_spec k' k) as [->|Hne].
  - apply get_set_same.
  - now apply get_set_other.
Qed.

Lemma wf_set m k v : JsMap.wf m -> JsMap.wf (JsMap.set k v m).
Proof.
  unfold JsMap.wf. intros H. rewrite keys_set.
  destruct (JsMap.has k m) eqn:E; [exact H|].
  apply NoDup_app; [exact H | repeat constructor; simpl; tauto |].
  intros x Hx [<-|[]].
  apply has_true in Hx. congruence.
Qed.

Lemma wf_nil : JsMap.wf (@nil (string * V)).
Proof. constructor. Qed.

Lemma In_set m k v k' v' :
  In (k', v') (JsMap.set k v m) -> (k' = k /\ v' = v) \/ In (k', v') m.
Proof.
  induction m as [|[k0 v0] r IH]; simpl.
  - intros [[= <- <-]|[]]. now left.
  - destruct (String.eqb_spec k k0) as [->|Hk]; simpl.
    + intros [[= <- <-]|H]; [now left|right; now right].
    + intros [H|H]; [right; now left|].
      destruct (IH H) as [?|?]; [now left|right; now right].
Qed.

Lemma get_app m1 m2 k :
  JsMap.get k (m1 ++ m2)
  = match JsMap.get k m1 with Some v => Some v | None => JsMap.get k m2 end.
Proof.
  induction m1 as [|[k0 v0] r IH]; simpl; [reflexivity|].
  destruct (String.eqb k k0); [reflexivity|exact IH].
Qed.

Lemma get_not_None_set m k v k' :
  JsMap.get k' m <> None -> JsMap.get k' (JsMap.set k v m) <> None.
Proof.
  intros H. rewrite get_set. destruct (String.eqb k' k); [discriminate|exact H].
Qed.

(** Storing a list of entries with distinct, fresh keys appends it. *)
Lemma fold_set_fresh (l : list (string * V)) m :
  NoDup (JsMap.keys m ++ map fst l) ->
  fold_left (fun acc '(k, v) => JsMap.set k v acc) l m = m ++ l.
Proof.
  revert m. induction l as [|[k v] r IH]; intros m Hnd; simpl.
  - now rewrite app_nil_r.
  - assert (Hfresh : JsMap.get k m = None).
    { apply get_None. intros Hin.
      apply NoDup_app_remove_r in Hnd as Hm.
      simpl in Hnd. apply NoDup_remove_2 in Hnd.
      apply Hnd. apply in_or_app. now left. }
    rewrite set_fresh by exact Hfresh.
    rewrite IH.
    + now rewrite <- app_assoc.
    + unfold JsMap.keys in *. rewrite map_app. simpl.
      rewrite <- app_assoc. exact Hnd.
Qed.

End Facts.

End JsMapFacts.

(** ** The memory mirror *)

Module MemoryFileCacheFacts.

Import MemoryFileCache.

Section Facts.
Variable Metadata : Type.
Local Abbreviation FileData := (FileData.t Metadata).
Local Abbreviation Cache := (MemoryFileCache.t Metadata).
Local Abbreviation Updates := (MemoryFileCache.Updates.t Metadata).

Lemma initialize_entries (records : list (string * FileData)) (c : Cache) :
  NoDup (map fst records) ->
  getAllFilesWithPaths (initialize records c) = records.
Proof.
  intros Hnd. unfold getAllFilesWithPaths, initialize, JsMap.entries. simpl.
  rewrite JsMapFacts.fold_set_fresh; [reflexivity|exact Hnd].
Qed.

Lemma perform_keeps_unready (call : Call Metadata) (c : Cache) :
  isInitializeCall call = false ->
  isReady c = false -> isReady (perform call c) = false.
Proof.
  unfold isReady.
  destruct call as [fs|p d|p u|p|us|us|k|]; simpl; try discriminate;
    intros _ H; try exact H.
  - unfold updateFileContent. destruct (JsMap.get p (memoryMap c)); simpl; exact H.
  - unfold batchUpdateFileContent. revert c H.
    induction us as [|[p u] r IH]; intros c H; simpl; [exact H|].
    apply IH. unfold updateFileContent.
    destruct (JsMap.get p (memoryMap c)); simpl; exact H.
  - reflexivity.
Qed.

Lemma performAll_keeps_unready (calls : list (Call Metadata)) (c : Cache) :
  forallb (fun call => negb (isInitializeCall call)) calls = true ->
  isReady c = false -> isReady (performAll calls c) = false.
Proof.
  unfold performAll. revert c.
  induction calls as [|call r IH]; intros c Hall H; simpl; [exact H|].
  simpl in Hall. apply andb_prop in Hall as [Hc Hr].
  apply IH; [exact Hr|].
  apply perform_keeps_unready; [|exact H].
  now destruct (isInitializeCall call).
Qed.

Lemma updateFileContent_keys (path : string) (u : Updates) (c : Cache) :
  JsMap.keys (memoryMap (updateFileContent path u c)) = JsMap.keys (memoryMap c).
Proof.
  unfold updateFileContent.
  destruct (JsMap.get path (memoryMap c)) eqn:E; simpl; [|reflexivity].
  apply JsMapFacts.keys_set_present. congruence.
Qed.

Lemma hasFile_updateFileContent (p path : string) (u : Updates) (c : Cache) :
  hasFile p (updateFileContent path u c) = hasFile p c.
Proof.
  unfold hasFile.
  destruct (JsMap.has p (memoryMap c)) eqn:E.
  - apply JsMapFacts.has_true. rewrite updateFileContent_keys.
    now apply JsMapFacts.has_true.
  - destruct (JsMap.has p (memoryMap (updateFileContent path u c))) eqn:E'; [|reflexivity].
    apply JsMapFacts.has_true in E'. rewrite updateFileContent_keys in E'.
    apply JsMapFacts.has_true in E'. congruence.
Qed.

Lemma updateFileContent_absent (path : string) (u : Updates) (c : Cache) :
  hasFile path c = false -> updateFileContent path u c = c.
Proof.
  unfold hasFile, JsMap.has, updateFileContent.
  destruct (JsMap.get path (memoryMap c)); [discriminate|reflexivity].
Qed.

(** Entries of a batch whose path has no record can be left out. *)
Lemma batchUpdateFileContent_filter (updates : list (string * Updates)) (c : Cache) :
  batchUpdateFileContent updates c
  = batchUpdateFileContent (filter (fun e => hasFile (fst e) c) updates) c.
Proof.
  unfold batchUpdateFileContent.
  assert (G : forall c0 : Cache,
             (forall p, hasFile p c0 = hasFile p c) ->
             fold_left (fun c' '(path, update) => updateFileContent path update c') updates c0
             = fold_left (fun c' '(path, update) => updateFileContent path update c')
                 (filter (fun e => hasFile (fst e) c) updates) c0).
  { induction updates as [|[p u] r IH]; intros c0 Hsame; simpl; [reflexivity|].
    destruct (hasFile p c) eqn:E; simpl.
    - apply IH. intros q. rewrite hasFile_updateFileContent. apply Hsame.
    - rewrite updateFileContent_absent by (rewrite Hsame; exact E).
      apply IH. exact Hsame. }
  apply G. reflexivity.
Qed.

Lemma get_map_values (f : FileData -> FileData) (m : JsMap.t FileData) (p : string) :
  JsMap.get p (map (fun '(path, file) => (path, f file)) m)
  = option_map f (JsMap.get p m).
Proof.
  induction m as [|[k v] r IH]; simpl; [reflexivity|].
  destruct (String.eqb p k); [reflexivity|exact IH].
Qed.

(** C5.  After [initialize(records)] on any mirror, for records with
    pairwise distinct paths, [getAllFilesWithPaths()] is the input: the
    same number of entries, and a path is bound to a record exactly when
    the input binds it so, whatever the mirror held before; two orders of
    the same input give the same entries up to order.  [isReady()] is true
    afterwards, and it is false on a new mirror and after any calls that do
    not include [initialize]. *)
Theorem initialize_replaces_mirror
    (records : list (string * FileData)) (c : Cache) :
  NoDup (map fst records) ->
  getAllFilesWithPaths (initialize records c) = records
  /\ length (getAllFilesWithPaths (initialize records c)) = length records
  /\ (forall p d, getFile p (initialize records c) = Some d <-> In (p, d) records)
  /\ (forall records' c',
        Permutation records records' ->
        Permutation (getAllFilesWithPaths (initialize records' c'))
                    (getAllFilesWithPaths (initialize records c)))
  /\ isReady (initialize records c) = true
  /\ isReady (create Metadata) = false
  /\ (forall calls,
        forallb (fun call => negb (isInitializeCall call)) calls = true ->
        isReady (performAll calls (create Metadata)) = false).
Proof.
  intros Hnd.
  pose proof (@initialize_entries records c Hnd) as Hall.
  split; [exact Hall|].
  split; [now rewrite Hall|].
  split.
  { intros p d. unfold getFile.
    change (memoryMap (initialize records c))
      with (getAllFilesWithPaths (initialize records c)).
    rewrite Hall. split.
    - apply JsMapFacts.get_In.
    - apply JsMapFacts.In_get. exact Hnd. }
  split.
  { intros records' c' Hperm.
    rewrite Hall, initialize_entries.
    - now apply Permutation_sym.
    - eapply Permutation_NoDup; [|exact Hnd]. now apply Permutation_map. }
  split; [reflexivity|].
  split; [reflexivity|].
  intros calls Hcalls. now apply performAll_keeps_unready.
Qed.

(** C7.  [clearAllFileContent("preview")] keeps the paths of the mirror,
    in their order, and the initialization flag; under every path the
    record afterwards has a null [preview] and the [featureImage], [tags]
    and [metadata] it had before. *)
Theorem clearAllFileContent_preview_frame (c : Cache) :
  let c' := clearAllFileContent Kind.preview c in
  JsMap.keys (memoryMap c') = JsMap.keys (memoryMap c)
  /\ isReady c' = isReady c
  /\ (forall p, hasFile p c' = hasFile p c)
  /\ (forall p, getFile p c = None -> getFile p c' = None)
  /\ (forall p d,
        getFile p c = Some d ->
        exists d',
          getFile p c' = Some d'
          /\ FileData.preview d' = None
          /\ FileData.featureImage d' = FileData.featureImage d
          /\ FileData.tags d' = FileData.tags d
          /\ FileData.metadata d' = FileData.metadata d).
Proof.
  cbv zeta. unfold clearAllFileContent, getFile, hasFile, isReady, JsMap.has. simpl.
  split.
  { unfold JsMap.keys. rewrite map_map. apply map_ext. now intros [p d]. }
  split; [reflexivity|].
  split.
  { intros p. rewrite get_map_values. now destruct (JsMap.get p (memoryMap c)). }
  split.
  { intros p H. rewrite get_map_values, H. reflexivity. }
  intros p d H. rewrite get_map_values, H. simpl.
  eexists. split; [reflexivity|]. simpl. auto.
Qed.

(** C9.  When the mirror has no record under [path]:
    [updateFileContent(path, updates)] leaves the mirror as it is, and so
    does [batchUpdateFileContent] on a batch of such paths; in any batch
    the entries without a record can be left out, and no path gains or
    loses a record.  [updateFile] and [batchUpdate] on the same path do
    create the record. *)
Theorem updateFileContent_absent_noop (path : string) (c : Cache) :
  getFile path c = None ->
  (forall updates, updateFileContent path updates c = c)
  /\ (forall updates, batchUpdateFileContent [(path, updates)] c = c)
  /\ (forall batch,
        Forall (fun e => getFile (fst e) c = None) batch ->
        batchUpdateFileContent batch c = c)
  /\ (forall batch,
        batchUpdateFileContent batch c
        = batchUpdateFileContent (filter (fun e => hasFile (fst e) c) batch) c)
  /\ (forall batch p, hasFile p (batchUpdateFileContent batch c) = hasFile p c)
  /\ (forall data,
        getFile path (updateFile path data c) = Some data
        /\ getFile path (batchUpdate [(path, data)] c) = Some data).
Proof.
  intros Habsent.
  assert (Hno : hasFile path c = false).
  { unfold hasFile, JsMap.has. unfold getFile in Habsent. now rewrite Habsent. }
  split; [intros u; now apply updateFileContent_absent|].
  split; [intros u; simpl; now apply updateFileContent_absent|].
  split.
  { intros batch Hall. rewrite batchUpdateFileContent_filter.
    replace (filter (fun e => hasFile (fst e) c) batch) with (@nil (string * Updates));
      [reflexivity|].
    induction Hall as [|[p u] r Hp Hr IH]; simpl; [reflexivity|].
    unfold hasFile, JsMap.has at 1. unfold getFile in Hp. simpl in Hp.
    rewrite Hp. exact IH. }
  split; [intros batch; apply batchUpdateFileContent_filter|].
  split.
  { intros batch p. unfold batchUpdateFileContent. revert c Habsent Hno.
    induction batch as [|[q u] r IH]; intros c _ _; simpl; [reflexivity|].
    assert (G : forall c0 : Cache,
               hasFile p (fold_left
                 (fun c' '(path0, update) => updateFileContent path0 update c') r c0)
               = hasFile p c0).
    { clear IH. induction r as [|[q' u'] r' IH']; intros c0; simpl; [reflexivity|].
      rewrite IH'. apply hasFile_updateFileContent. }
    rewrite G. apply hasFile_updateFileContent. }
  intros data. unfold getFile, updateFile, batchUpdate. simpl.
  split; apply JsMapFacts.get_set_same.
Qed.

End Facts.

End MemoryFileCacheFacts.

(** ** The tag index: prefixes of a tag path *)

Module PrefixFacts.

Import JsString JsStringFacts TagTree TagTreeSpec.

Lemma map_removelast {A B : Type} (f : A -> B) (l : list A) :
  removelast (map f l) = map f (removelast l).
Proof.
  assert (E : forall (C : Type) (x y : C) (r : list C),
             removelast (x :: y :: r) = x :: removelast (y :: r)) by reflexivity.
  induction l as [|a l IH]; [reflexivity|].
  destruct l as [|b l]; [reflexivity|].
  rewrite E.
  change (map f (a :: b :: l)) with (f a :: f b :: map f l).
  rewrite E.
  change (f b :: map f l) with (map f (b :: l)).
  rewrite IH. reflexivity.
Qed.

Lemma parentOf_toLowerCase (p : string) :
  parentOf (toLowerCase p) = toLowerCase (parentOf p).
Proof.
  unfold parentOf.
  now rewrite split_toLowerCase, map_removelast, toLowerCase_join.
Qed.

Section Parts.
Variable parts : list string.
Hypothesis parts_noslash : Forall (fun p => count "/" p = 0) parts.

Lemma firstn_S_nonempty (i : nat) : i < length parts -> firstn (S i) parts <> [].
Proof. destruct parts; simpl; [lia|discriminate]. Qed.

Lemma depthOfKey_prefixKey (i : nat) :
  i < length parts -> depthOfKey (prefixKey parts i) = i.
Proof.
  intros Hi. unfold depthOfKey, prefixKey, prefixPath.
  rewrite count_toLowerCase, count_join by now apply Forall_firstn.
  rewrite length_firstn. lia.
Qed.

Lemma split_prefixPath (i : nat) :
  i < length parts -> split "/" (prefixPath parts i) = firstn (S i) parts.
Proof.
  intros Hi. unfold prefixPath. apply split_join.
  - now apply firstn_S_nonempty.
  - now apply Forall_firstn.
Qed.

Lemma parentOf_prefixPath (i : nat) :
  S i < length parts -> parentOf (prefixPath parts (S i)) = prefixPath parts i.
Proof.
  intros Hi. unfold parentOf. rewrite split_prefixPath by exact Hi.
  rewrite removelast_firstn by exact Hi. reflexivity.
Qed.

Lemma parentOf_prefixKey (i : nat) :
  S i < length parts -> parentOf (prefixKey parts (S i)) = prefixKey parts i.
Proof.
  intros Hi. unfold prefixKey.
  now rewrite parentOf_toLowerCase, parentOf_prefixPath.
Qed.

Lemma last_prefixPath (i : nat) :
  i < length parts -> last (split "/" (prefixPath parts i)) "" = nth i parts "".
Proof.
  intros Hi. rewrite split_prefixPath by exact Hi.
  rewrite (@firstn_snoc _ "" i parts Hi). apply last_last.
Qed.

Lemma prefixPath_S (i : nat) :
  S i < length parts ->
  (prefixPath parts i ++ "/" ++ nth (S i) parts "")%string = prefixPath parts (S i).
Proof.
  intros Hi. unfold prefixPath.
  rewrite (@firstn_snoc _ "" (S i) parts Hi).
  rewrite join_snoc; [reflexivity|].
  apply firstn_S_nonempty. lia.
Qed.

Lemma prefixPath_0 : 0 < length parts -> prefixPath parts 0 = nth 0 parts "".
Proof. unfold prefixPath. destruct parts; simpl; [lia|reflexivity]. Qed.

Lemma prefixKey_inj (i j : nat) :
  i < length parts -> j < length parts ->
  prefixKey parts i = prefixKey parts j -> i = j.
Proof.
  intros Hi Hj E.
  rewrite <- (depthOfKey_prefixKey Hi), <- (depthOfKey_prefixKey Hj).
  now rewrite E.
Qed.

End Parts.

Lemma join_split (s : string) : join "/" (split "/" s) = s.
Proof.
  induction s as [|c s IH]; [reflexivity|].
  simpl split.
  destruct (split_cons "/" s) as [p [ps E]]. rewrite E in *.
  destruct (Ascii.eqb_spec c "/") as [->|Hne].
  - rewrite join_cons2, IH. reflexivity.
  - destruct ps as [|q ps].
    + simpl in *. now rewrite IH.
    + rewrite join_cons2. rewrite join_cons2 in IH.
      rewrite <- IH. reflexivity.
Qed.

(** The last prefix of a tag path is the path itself. *)
Lemma prefixPath_last (tagPath : string) :
  prefixPath (split "/" tagPath) (length (split "/" tagPath) - 1) = tagPath.
Proof.
  unfold prefixPath.
  pose proof (split_length "/" tagPath) as Hlen.
  replace (S (length (split "/" tagPath) - 1)) with (length (split "/" tagPath)) by lia.
  rewrite firstn_all. apply join_split.
Qed.

End PrefixFacts.

(** ** The tag index: what the loops maintain *)

Module BuildFacts.

Import JsString JsStringFacts TagTree TagTreeSpec PrefixFacts.

Lemma Grows_refl h : Grows h h.
Proof. intros k o H. exists o. auto. Qed.

Lemma Grows_trans h1 h2 h3 : Grows h1 h2 -> Grows h2 h3 -> Grows h1 h3.
Proof.
  intros H12 H23 k o H.
  destruct (H12 k o H) as [o2 [G2 [P2 [N2 C2]]]].
  destruct (H23 k o2 G2) as [o3 [G3 [P3 [N3 C3]]]].
  exists o3. repeat split; [exact G3|congruence|congruence|auto].
Qed.

Lemma Grows_not_None h h' k :
  Grows h h' -> JsMap.get k h <> None -> JsMap.get k h' <> None.
Proof.
  intros G H. destruct (JsMap.get k h) as [o|] eqn:E; [|congruence].
  destruct (G k o E) as [o' [E' _]]. congruence.
Qed.

Lemma Grows_set_fresh h k o : JsMap.get k h = None -> Grows h (JsMap.set k o h).
Proof.
  intros Hfresh k' o' H. exists o'.
  rewrite JsMapFacts.get_set_other by congruence. auto.
Qed.

Lemma Grows_set_update h k o o' :
  JsMap.get k h = Some o ->
  Obj.path o' = Obj.path o -> Obj.name o' = Obj.name o ->
  (forall c r, JsMap.get c (Obj.children o) = Some r ->
               JsMap.get c (Obj.children o') = Some r) ->
  Grows h (JsMap.set k o' h).
Proof.
  intros Hk Hp Hn Hc k' o0 H.
  rewrite JsMapFacts.get_set.
  destruct (String.eqb_spec k' k) as [->|Hne].
  - exists o'. rewrite Hk in H. injection H as <-. auto.
  - exists o0. auto.
Qed.

Lemma Linked_Grows h h' k : Grows h h' -> Linked h k -> Linked h' k.
Proof.
  intros G L Hd. destruct (L Hd) as [parent [Hp Hc]].
  destruct (G _ _ Hp) as [parent' [Hp' [_ [_ Hc']]]].
  exists parent'. auto.
Qed.

Lemma pathOf_Grows h h' k p : Grows h h' -> pathOf h k = Some p -> pathOf h' k = Some p.
Proof.
  unfold pathOf. intros G H.
  destruct (JsMap.get k h) as [o|] eqn:E; [|discriminate].
  destruct (G k o E) as [o' [E' [P' _]]]. rewrite E'. simpl in *. congruence.
Qed.

(** A new object without children under a fresh key. *)
Lemma Core_create h roots k part cp i :
  Core h roots ->
  JsMap.get k h = None ->
  toLowerCase cp = k ->
  part = last (split "/" cp) "" ->
  depthOfKey k = i ->
  Core (JsMap.set k
          {| Obj.name := part; Obj.path := cp;
             Obj.children := JsMap.empty; Obj.notesWithTag := JsSet.empty |} h)
       (if i =? 0 then JsMap.set k k roots else roots).
Proof.
  intros C Hfresh Hkey Hname Hdepth.
  constructor.
  - apply JsMapFacts.wf_set, C.
  - intros k' o. rewrite JsMapFacts.get_set.
    destruct (String.eqb_spec k' k) as [->|Hne].
    + intros [= <-]. exact Hkey.
    + apply C.
  - intros k' o. rewrite JsMapFacts.get_set.
    destruct (String.eqb_spec k' k) as [->|Hne].
    + intros [= <-]. exact Hname.
    + apply C.
  - intros k' o. rewrite JsMapFacts.get_set.
    destruct (String.eqb_spec k' k) as [->|Hne].
    + intros [= <-]. constructor.
    + apply C.
  - intros k' o c r. rewrite JsMapFacts.get_set.
    destruct (String.eqb_spec k' k) as [->|Hne].
    + intros [= <-] [].
    + intros Ho Hin. destruct (core_children C _ _ _ Ho Hin) as [E [Hc [Hp Hd]]].
      repeat split; auto. now apply JsMapFacts.get_not_None_set.
  - destruct (i =? 0); [apply JsMapFacts.wf_set|]; apply C.
  - intros k' r Hin.
    assert (Hold : In (k', r) roots ->
                   r = k' /\ JsMap.get k' (JsMap.set k
                     {| Obj.name := part; Obj.path := cp;
                        Obj.children := JsMap.empty; Obj.notesWithTag := JsSet.empty |} h)
                     <> None /\ depthOfKey k' = 0).
    { intros H. destruct (core_tree C _ _ H) as [E [Hc Hd]].
      repeat split; auto. now apply JsMapFacts.get_not_None_set. }
    destruct (Nat.eqb_spec i 0) as [Hi|Hi]; [|now apply Hold].
    apply JsMapFacts.In_set in Hin as [[-> ->]|Hin]; [|now apply Hold].
    repeat split; [|lia].
    rewrite JsMapFacts.get_set_same. discriminate.
  - intros k' o Hget Hd.
    rewrite JsMapFacts.get_set in Hget.
    destruct (String.eqb_spec k' k) as [->|Hne].
    + destruct (Nat.eqb_spec i 0) as [Hi|Hi]; [|lia].
      apply JsMapFacts.get_set_same.
    + pose proof (core_roots C _ Hget Hd) as Hr.
      destruct (i =? 0); [|exact Hr].
      now rewrite JsMapFacts.get_set_other.
Qed.

(** An object of the store replaced by one with the same name and path. *)
Lemma Core_update h roots k o o' :
  Core h roots ->
  JsMap.get k h = Some o ->
  Obj.path o' = Obj.path o -> Obj.name o' = Obj.name o ->
  JsMap.wf (Obj.children o') ->
  (forall c r, In (c, r) (Obj.children o') ->
               r = c /\ JsMap.get c h <> None /\ parentOf c = k
               /\ depthOfKey c = S (depthOfKey k)) ->
  Core (JsMap.set k o' h) roots.
Proof.
  intros C Hk Hp Hn Hwf Hch.
  constructor.
  - apply JsMapFacts.wf_set, C.
  - intros k' o0. rewrite JsMapFacts.get_set.
    destruct (String.eqb_spec k' k) as [->|Hne].
    + intros [= <-]. rewrite Hp. now apply (core_key C).
    + apply C.
  - intros k' o0. rewrite JsMapFacts.get_set.
    destruct (String.eqb_spec k' k) as [->|Hne].
    + intros [= <-]. rewrite Hn, Hp. now apply (core_name C k).
    + apply C.
  - intros k' o0. rewrite JsMapFacts.get_set.
    destruct (String.eqb_spec k' k) as [->|Hne].
    + intros [= <-]. exact Hwf.
    + apply C.
  - intros k' o0 c r. rewrite JsMapFacts.get_set.
    destruct (String.eqb_spec k' k) as [->|Hne].
    + intros [= <-] Hin. destruct (Hch _ _ Hin) as [E [Hc [Hpa Hd]]].
      repeat split; auto. now apply JsMapFacts.get_not_None_set.
    + intros Ho Hin. destruct (core_children C _ _ _ Ho Hin) as [E [Hc [Hpa Hd]]].
      repeat split; auto. now apply JsMapFacts.get_not_None_set.
  - apply C.
  - intros k' r Hin. destruct (core_tree C _ _ Hin) as [E [Hc Hd]].
    repeat split; auto. now apply JsMapFacts.get_not_None_set.
  - intros k' o0 Hget Hd.
    rewrite JsMapFacts.get_set in Hget.
    destruct (String.eqb_spec k' k) as [->|Hne].
    + now apply (core_roots C _ Hk).
    + now apply (core_roots C _ Hget).
Qed.

Lemma pathOf_update h k o o' k' :
  JsMap.get k h = Some o -> Obj.path o' = Obj.path o ->
  pathOf (JsMap.set k o' h) k' = pathOf h k'.
Proof.
  intros Hk Hp. unfold pathOf. rewrite JsMapFacts.get_set.
  destruct (String.eqb_spec k' k) as [->|Hne]; [|reflexivity].
  rewrite Hk. simpl. now rewrite Hp.
Qed.

Lemma get_None_update h k (o o' : Obj.t) k' :
  JsMap.get k h = Some o ->
  JsMap.get k' (JsMap.set k o' h) = None -> JsMap.get k' h = None.
Proof.
  intros Hk. rewrite JsMapFacts.get_set.
  destruct (String.eqb k' k); [discriminate|auto].
Qed.

Lemma pathOf_None h k : pathOf h k = None <-> JsMap.get k h = None.
Proof.
  unfold pathOf. destruct (JsMap.get k h); simpl; split; congruence.
Qed.

Lemma pathOf_not_None h k : pathOf h k <> None <-> JsMap.get k h <> None.
Proof. now rewrite pathOf_None. Qed.

Lemma getOrCreateNode_spec part cp k i st :
  Core (Build.allNodes st) (Build.tree st) ->
  toLowerCase cp = k ->
  part = last (split "/" cp) "" ->
  depthOfKey k = i ->
  let st1 := getOrCreateNode part cp k i st in
  Core (Build.allNodes st1) (Build.tree st1)
  /\ Grows (Build.allNodes st) (Build.allNodes st1)
  /\ JsMap.get k (Build.allNodes st1) <> None
  /\ (forall k', pathOf (Build.allNodes st1) k'
                 = match pathOf (Build.allNodes st) k' with
                   | Some p => Some p
                   | None => if String.eqb k' k then Some cp else None
                   end)
  /\ Build.caseMap st1 = Build.caseMap st
  /\ Build.untaggedCount st1 = Build.untaggedCount st.
Proof.
  intros C Hkey Hname Hdepth. cbv zeta. unfold getOrCreateNode.
  destruct (JsMap.get k (Build.allNodes st)) as [o|] eqn:E.
  - split; [|split; [|split; [|split; [|split]]]]; auto using Grows_refl; [congruence|].
    intros k'. destruct (pathOf (Build.allNodes st) k') eqn:P; [reflexivity|].
    destruct (String.eqb_spec k' k) as [->|Hne]; [|reflexivity].
    apply pathOf_None in P. congruence.
  - simpl. split; [|split; [|split; [|split; [|split]]]]; auto.
    + now apply Core_create.
    + now apply Grows_set_fresh.
    + rewrite JsMapFacts.get_set_same. discriminate.
    + intros k'. unfold pathOf. rewrite JsMapFacts.get_set.
      destruct (String.eqb_spec k' k) as [->|Hne].
      * rewrite E. reflexivity.
      * destruct (JsMap.get k' (Build.allNodes st)); reflexivity.
Qed.

Lemma addNote_spec ref file h roots :
  Core h roots ->
  Core (addNote ref file h) roots
  /\ Grows h (addNote ref file h)
  /\ forall k', pathOf (addNote ref file h) k' = pathOf h k'.
Proof.
  intros C. unfold addNote.
  destruct (JsMap.get ref h) as [o|] eqn:E; [|auto using Grows_refl].
  split; [|split].
  - eapply Core_update; eauto; simpl.
    + eapply (core_children_wf C); eauto.
    + intros c r Hin. eapply (core_children C); eauto.
  - eapply Grows_set_update; eauto.
  - intros k'. eapply pathOf_update; eauto.
Qed.

Lemma addToLeaf_spec file parts i k st :
  Core (Build.allNodes st) (Build.tree st) ->
  let st2 := addToLeaf file parts i k st in
  Core (Build.allNodes st2) (Build.tree st2)
  /\ Grows (Build.allNodes st) (Build.allNodes st2)
  /\ (forall k', pathOf (Build.allNodes st2) k' = pathOf (Build.allNodes st) k')
  /\ Build.caseMap st2 = Build.caseMap st
  /\ Build.untaggedCount st2 = Build.untaggedCount st.
Proof.
  intros C. cbv zeta. unfold addToLeaf.
  destruct (i =? length parts - 1); simpl.
  - destruct (addNote_spec k file C) as [C' [G P]]. auto.
  - auto using Grows_refl.
Qed.

Lemma linkToParent_spec parts i st :
  Forall (fun p => count "/" p = 0) parts ->
  i < length parts ->
  Core (Build.allNodes st) (Build.tree st) ->
  JsMap.get (prefixKey parts i) (Build.allNodes st) <> None ->
  (0 < i -> JsMap.get (prefixKey parts (i - 1)) (Build.allNodes st) <> None) ->
  let k := prefixKey parts i in
  let st3 := linkToParent parts i k k st in
  Core (Build.allNodes st3) (Build.tree st3)
  /\ Grows (Build.allNodes st) (Build.allNodes st3)
  /\ (forall k', pathOf (Build.allNodes st3) k' = pathOf (Build.allNodes st) k')
  /\ Linked (Build.allNodes st3) k
  /\ Build.caseMap st3 = Build.caseMap st
  /\ Build.untaggedCount st3 = Build.untaggedCount st.
Proof.
  intros Hparts Hi C Hk Hparent. cbv zeta. unfold linkToParent.
  destruct i as [|j].
  - simpl. split; [|split; [|split; [|split; [|split]]]]; auto using Grows_refl.
    intros Hd. rewrite (depthOfKey_prefixKey Hparts Hi) in Hd. lia.
  - change (0 <? S j) with true. cbv iota.
    change (toLowerCase (join "/" (firstn (S j) parts))) with (prefixKey parts j).
    assert (Hpk : parentOf (prefixKey parts (S j)) = prefixKey parts j)
      by now apply parentOf_prefixKey.
    assert (Hdk : depthOfKey (prefixKey parts (S j)) = S (depthOfKey (prefixKey parts j))).
    { rewrite !depthOfKey_prefixKey; auto. lia. }
    specialize (Hparent (Nat.lt_0_succ j)).
    replace (S j - 1) with j in Hparent by lia.
    destruct (JsMap.get (prefixKey parts j) (Build.allNodes st)) as [parent|] eqn:E;
      [clear Hparent|congruence].
    destruct (JsMap.has (prefixKey parts (S j)) (Obj.children parent)) eqn:Hhas; simpl.
    + split; [|split; [|split; [|split; [|split]]]]; auto using Grows_refl.
      intros _. exists parent. rewrite Hpk. split; [exact E|].
      unfold JsMap.has in Hhas.
      destruct (JsMap.get (prefixKey parts (S j)) (Obj.children parent)) as [r|] eqn:Er;
        [|discriminate].
      apply JsMapFacts.get_In in Er as Hin.
      destruct (core_children C _ _ _ E Hin) as [-> _]. reflexivity.
    + unfold addChild. rewrite E.
      split; [|split; [|split; [|split; [|split]]]]; auto.
      * eapply Core_update; eauto; simpl.
        -- apply JsMapFacts.wf_set. eapply (core_children_wf C); eauto.
        -- intros c r Hin.
           apply JsMapFacts.In_set in Hin as [[-> ->]|Hin].
           ++ repeat split; auto.
           ++ eapply (core_children C); eauto.
      * eapply Grows_set_update; eauto. simpl.
        intros c r Hc. rewrite JsMapFacts.get_set.
        destruct (String.eqb_spec c (prefixKey parts (S j))) as [->|Hne]; [|exact Hc].
        unfold JsMap.has in Hhas. rewrite Hc in Hhas. discriminate.
      * intros k'. eapply pathOf_update; eauto.
      * intros _. rewrite Hpk. eexists. split.
        -- apply JsMapFacts.get_set_same.
        -- simpl. apply JsMapFacts.get_set_same.
Qed.

Lemma visitPart_good file parts i prev st :
  Forall (fun p => count "/" p = 0) parts ->
  i < length parts ->
  (0 < i -> prev = prefixPath parts (i - 1)
            /\ JsMap.get (prefixKey parts (i - 1)) (Build.allNodes st) <> None) ->
  Good st ->
  exists st',
    visitPart file parts i (prev, st) = (prefixPath parts i, st')
    /\ Good st'
    /\ JsMap.get (prefixKey parts i) (Build.allNodes st') <> None
    /\ Grows (Build.allNodes st) (Build.allNodes st')
    /\ (forall k, pathOf (Build.allNodes st') k
                  = match pathOf (Build.allNodes st) k with
                    | Some p => Some p
                    | None => if String.eqb k (prefixKey parts i)
                              then Some (prefixPath parts i) else None
                    end)
    /\ Build.caseMap st' = Build.caseMap st
    /\ Build.untaggedCount st' = Build.untaggedCount st.
Proof.
  intros Hparts Hi Hprev [C L]. unfold visitPart.
  set (cp := if i =? 0 then nth i parts ""
             else (prev ++ "/" ++ nth i parts "")%string).
  assert (Hcp : cp = prefixPath parts i).
  { unfold cp. destruct i as [|j].
    - simpl. symmetry. now apply prefixPath_0.
    - destruct (Hprev (Nat.lt_0_succ j)) as [-> _].
      replace (S j - 1) with j by lia. simpl. now apply prefixPath_S. }
  clearbody cp. subst cp.
  fold (prefixKey parts i).
  set (k := prefixKey parts i).
  destruct (@getOrCreateNode_spec (nth i parts "") (prefixPath parts i) k i st C)
    as [C1 [G1 [K1 [P1 [M1 U1]]]]];
    [reflexivity | symmetry; now apply last_prefixPath
     | now apply depthOfKey_prefixKey |].
  set (st1 := getOrCreateNode (nth i parts "") (prefixPath parts i) k i st) in *.
  destruct (@addToLeaf_spec file parts i k st1 C1) as [C2 [G2 [P2 [M2 U2]]]].
  set (st2 := addToLeaf file parts i k st1) in *.
  assert (G12 : Grows (Build.allNodes st) (Build.allNodes st2))
    by (eapply Grows_trans; eauto).
  destruct (@linkToParent_spec parts i st2 Hparts Hi C2) as [C3 [G3 [P3 [L3 [M3 U3]]]]].
  { eapply Grows_not_None; [exact G2|exact K1]. }
  { intros H0. destruct (Hprev H0) as [_ H].
    eapply Grows_not_None; [exact G12|exact H]. }
  fold k in C3, G3, P3, L3, M3, U3.
  set (st3 := linkToParent parts i k k st2) in *.
  assert (G13 : Grows (Build.allNodes st) (Build.allNodes st3))
    by (eapply Grows_trans; eauto).
  assert (P13 : forall k', pathOf (Build.allNodes st3) k'
                           = match pathOf (Build.allNodes st) k' with
                             | Some p => Some p
                             | None => if String.eqb k' k
                                       then Some (prefixPath parts i) else None
                             end).
  { intros k'. now rewrite P3, P2, P1. }
  exists st3. split; [reflexivity|].
  split; [|split; [|split; [|split; [|split]]]]; auto; try congruence.
  - split; [exact C3|].
    intros k' Hk'. apply pathOf_not_None in Hk'. rewrite P13 in Hk'.
    destruct (pathOf (Build.allNodes st) k') eqn:E.
    + apply (Linked_Grows G13). apply L. apply pathOf_not_None. congruence.
    + destruct (String.eqb_spec k' k) as [->|Hne]; [exact L3|congruence].
  - eapply Grows_not_None; [exact G3|]. eapply Grows_not_None; [exact G2|exact K1].
Qed.

Lemma fold_seq_invariant {S : Type} (P : nat -> S -> Prop) (f : S -> nat -> S)
    (n : nat) (s0 : S) :
  P 0 s0 ->
  (forall i s, i < n -> P i s -> P (Datatypes.S i) (f s i)) ->
  P n (fold_left f (seq 0 n) s0).
Proof.
  intros H0 Hstep.
  assert (G : forall m a s, a + m = n -> P a s -> P n (fold_left f (seq a m) s)).
  { induction m as [|m IH]; intros a s Ha Hs; simpl.
    - replace n with a by lia. exact Hs.
    - apply IH; [lia|]. apply Hstep; [lia|exact Hs]. }
  apply G; [lia|exact H0].
Qed.

Lemma firstn_seq (i a n : nat) : firstn i (seq a n) = seq a (min i n).
Proof.
  revert a n. induction i as [|i IH]; intros a [|n]; simpl; try reflexivity.
  now rewrite IH.
Qed.

Lemma firstn_prefixList_S parts i :
  i < length parts ->
  firstn (S i) (prefixList parts)
  = firstn i (prefixList parts) ++ [(prefixKey parts i, prefixPath parts i)].
Proof.
  intros Hi. unfold prefixList.
  rewrite !firstn_map, !firstn_seq.
  rewrite (Nat.min_l (S i)), (Nat.min_l i) by lia.
  rewrite seq_S, map_app. reflexivity.
Qed.

Lemma prefixList_keys parts k :
  In k (JsMap.keys (prefixList parts)) <->
  exists j, j < length parts /\ k = prefixKey parts j.
Proof.
  unfold JsMap.keys, prefixList. rewrite map_map. simpl.
  rewrite in_map_iff. split.
  - intros [j [<- Hj]]. apply in_seq in Hj. exists j. split; [lia|reflexivity].
  - intros [j [Hj ->]]. exists j. split; [reflexivity|]. apply in_seq. lia.
Qed.

(** The loop over the segments of one tag occurrence. *)
Lemma partsLoop_good file parts st :
  Forall (fun p => count "/" p = 0) parts ->
  Good st ->
  let st' := snd (fold_left (fun state i => visitPart file parts i state)
                            (seq 0 (length parts)) (EmptyString, st)) in
  Good st'
  /\ Grows (Build.allNodes st) (Build.allNodes st')
  /\ (forall j, j < length parts ->
                JsMap.get (prefixKey parts j) (Build.allNodes st') <> None)
  /\ (forall k, pathOf (Build.allNodes st') k
                = extend (pathOf (Build.allNodes st)) (prefixList parts) k)
  /\ Build.caseMap st' = Build.caseMap st
  /\ Build.untaggedCount st' = Build.untaggedCount st.
Proof.
  intros Hparts Hgood. cbv zeta.
  pose (Q := fun (i : nat) (state : string * Build.t) =>
    (0 < i -> fst state = prefixPath parts (i - 1))
    /\ Good (snd state)
    /\ Grows (Build.allNodes st) (Build.allNodes (snd state))
    /\ (forall j, j < i ->
                  JsMap.get (prefixKey parts j) (Build.allNodes (snd state)) <> None)
    /\ (forall k, pathOf (Build.allNodes (snd state)) k
                  = extend (pathOf (Build.allNodes st)) (firstn i (prefixList parts)) k)
    /\ Build.caseMap (snd state) = Build.caseMap st
    /\ Build.untaggedCount (snd state) = Build.untaggedCount st).
  assert (HQ : Q (length parts)
                 (fold_left (fun state i => visitPart file parts i state)
                            (seq 0 (length parts)) (EmptyString, st))).
  { apply fold_seq_invariant.
    - unfold Q. simpl.
      split; [lia|]. split; [exact Hgood|]. split; [apply Grows_refl|].
      split; [intros j Hj; lia|]. split; [|auto].
      intros k. unfold extend. simpl. now destruct (pathOf (Build.allNodes st) k).
    - intros i [prev sti] Hi [Hprev [Hg [Hgrow [Hkeys [Hpath [Hcm Hun]]]]]].
      simpl in Hprev, Hg, Hgrow, Hkeys, Hpath, Hcm, Hun.
      destruct (@visitPart_good file parts i prev sti Hparts Hi) as
        [st' [Hv [Hg' [Hk' [Hgrow' [Hpath' [Hcm' Hun']]]]]]]; [|exact Hg|].
      { intros H0. split; [now apply Hprev|]. apply Hkeys. lia. }
      rewrite Hv. unfold Q. cbn [fst snd].
      split; [intros _; now replace (S i - 1) with i by lia|].
      split; [exact Hg'|].
      split; [eapply Grows_trans; eauto|].
      split.
      { intros j Hj. destruct (Nat.eq_dec j i) as [->|Hne]; [exact Hk'|].
        eapply Grows_not_None; [exact Hgrow'|]. apply Hkeys. lia. }
      split; [|split; congruence].
      intros k. rewrite Hpath', Hpath. unfold extend.
      rewrite firstn_prefixList_S by exact Hi.
      rewrite JsMapFacts.get_app. simpl.
      destruct (pathOf (Build.allNodes st) k); [reflexivity|].
      destruct (JsMap.get k (firstn i (prefixList parts))); reflexivity. }
  destruct HQ as [_ [Hg [Hgrow [Hkeys [Hpath [Hcm Hun]]]]]].
  split; [exact Hg|]. split; [exact Hgrow|]. split; [exact Hkeys|].
  split; [|auto].
  intros k. rewrite Hpath.
  replace (firstn (length parts) (prefixList parts)) with (prefixList parts);
    [reflexivity|].
  symmetry. apply firstn_all2. unfold prefixList. rewrite length_map, length_seq. lia.
Qed.

Lemma prefixKey_split (a : string) (j : nat) :
  prefixKey (split "/" a) j = join "/" (firstn (S j) (split "/" (toLowerCase a))).
Proof.
  unfold prefixKey, prefixPath.
  now rewrite toLowerCase_join, <- firstn_map, split_toLowerCase.
Qed.

Lemma prefixKey_lower (a b : string) (j : nat) :
  toLowerCase a = toLowerCase b ->
  prefixKey (split "/" a) j = prefixKey (split "/" b) j.
Proof. intros E. now rewrite !prefixKey_split, E. Qed.

Lemma split_length_lower (a b : string) :
  toLowerCase a = toLowerCase b ->
  length (split "/" a) = length (split "/" b).
Proof.
  intros E.
  rewrite <- (length_map toLowerCase (split "/" a)).
  rewrite <- (length_map toLowerCase (split "/" b)).
  now rewrite <- !split_toLowerCase, E.
Qed.

Lemma prefixesOf_prefixList (tagPath : string) :
  prefixesOf tagPath = prefixList (split "/" tagPath).
Proof. reflexivity. Qed.

Lemma processTag_inv file ts st tag :
  ScanInv ts st ->
  ScanInv (ts ++ [stripHash tag]) (processTag file st tag)
  /\ Build.untaggedCount (processTag file st tag) = Build.untaggedCount st.
Proof.
  intros [Hgood [Hpath Hcase]]. unfold processTag.
  set (tp := stripHash tag).
  set (known := match JsMap.get (toLowerCase tp) (Build.caseMap st) with
                | Some canonicalPath =>
                    if String.eqb canonicalPath "" then None else Some canonicalPath
                | None => None
                end).
  (* the canonical path and the locals before the loop *)
  assert (Hpre : exists c st1,
            match known with
            | Some canonicalPath => (canonicalPath, st)
            | None =>
                (tp, {| Build.allNodes := Build.allNodes st;
                        Build.tree := Build.tree st;
                        Build.untaggedCount := Build.untaggedCount st;
                        Build.caseMap :=
                          JsMap.set (toLowerCase tp) tp (Build.caseMap st) |})
            end = (c, st1)
            /\ Build.allNodes st1 = Build.allNodes st
            /\ Build.tree st1 = Build.tree st
            /\ Build.untaggedCount st1 = Build.untaggedCount st
            /\ toLowerCase c = toLowerCase tp
            /\ (c = tp \/ forall j, j < length (split "/" c) ->
                  JsMap.get (prefixKey (split "/" c) j) (Build.allNodes st) <> None)
            /\ (forall kl c',
                  JsMap.get kl (Build.caseMap st1) = Some c' -> c' <> EmptyString ->
                  (kl = toLowerCase tp /\ c' = tp /\ c = tp)
                  \/ (toLowerCase c' = kl
                      /\ forall j, j < length (split "/" c') ->
                           JsMap.get (prefixKey (split "/" c') j) (Build.allNodes st)
                           <> None))).
  { unfold known.
    destruct (JsMap.get (toLowerCase tp) (Build.caseMap st)) as [c0|] eqn:E.
    - destruct (String.eqb_spec c0 "") as [Hc0|Hc0].
      + eexists _, _. split; [reflexivity|]. simpl.
        repeat (split; [reflexivity|]). split; [now left|].
        intros kl c'. rewrite JsMapFacts.get_set.
        destruct (String.eqb_spec kl (toLowerCase tp)) as [->|Hne].
        * intros [= <-] _. left. auto.
        * intros H1 H2. right. now apply Hcase.
      + destruct (Hcase _ _ E Hc0) as [Hl Hk].
        exists c0, st. split; [reflexivity|].
        repeat (split; [reflexivity|]). split; [exact Hl|]. split; [now right|].
        intros kl c' H1 H2. right. now apply Hcase.
    - eexists _, _. split; [reflexivity|]. simpl.
      repeat (split; [reflexivity|]). split; [now left|].
      intros kl c'. rewrite JsMapFacts.get_set.
      destruct (String.eqb_spec kl (toLowerCase tp)) as [->|Hne].
      + intros [= <-] _. left. auto.
      + intros H1 H2. right. now apply Hcase. }
  destruct Hpre as [c [st1 [-> [Hn1 [Ht1 [Hu1 [Hlow [Hc Hcm1]]]]]]]].
  assert (Hgood1 : Good st1).
  { unfold Good. rewrite Hn1, Ht1. exact Hgood. }
  destruct (@partsLoop_good file (split "/" c) st1 (split_parts "/" c) Hgood1)
    as [Hg' [Hgrow [Hkeys [Hpath' [Hcm' Hun']]]]].
  set (st' := snd (fold_left (fun state i => visitPart file (split "/" c) i state)
                             (seq 0 (length (split "/" c))) (EmptyString, st1))) in *.
  rewrite Hn1 in Hgrow, Hpath'.
  split; [|congruence].
  split; [exact Hg'|]. split.
  - intros k. rewrite Hpath'. unfold extend.
    rewrite flat_map_app, JsMapFacts.get_app. simpl flat_map. rewrite app_nil_r.
    rewrite <- Hpath.
    destruct (pathOf (Build.allNodes st) k) eqn:Pk; [reflexivity|].
    rewrite prefixesOf_prefixList.
    destruct Hc as [->|Hpresent]; [reflexivity|].
    assert (Hnot : forall l : list (string * string),
                   (forall x, In x (JsMap.keys l) ->
                     exists j, j < length (split "/" c)
                               /\ x = prefixKey (split "/" c) j) ->
                   JsMap.get k l = None).
    { intros l Hl. apply JsMapFacts.get_None. intros Hin.
      destruct (Hl _ Hin) as [j [Hj ->]].
      apply pathOf_None in Pk. exact (Hpresent j Hj Pk). }
    rewrite !Hnot; [reflexivity| |];
      intros x Hx; apply prefixList_keys in Hx as [j [Hj ->]]; exists j;
      first [ split; [exact Hj|reflexivity]
            | rewrite (@split_length_lower c tp Hlow); split;
              [exact Hj | apply prefixKey_lower; congruence] ].
  - intros kl c' H1 H2. rewrite Hcm' in H1.
    destruct (Hcm1 _ _ H1 H2) as [[-> [-> ->]]|[Hl Hk]].
    + split; [reflexivity|exact Hkeys].
    + split; [exact Hl|]. intros j Hj.
      eapply Grows_not_None; [exact Hgrow|]. now apply Hk.
Qed.

Lemma processTags_inv file tags ts st :
  ScanInv ts st ->
  ScanInv (ts ++ map stripHash tags) (fold_left (processTag file) tags st)
  /\ Build.untaggedCount (fold_left (processTag file) tags st) = Build.untaggedCount st.
Proof.
  revert ts st. induction tags as [|tag tags IH]; intros ts st Hinv; simpl.
  - rewrite app_nil_r. auto.
  - destruct (processTag_inv file tag Hinv) as [Hinv1 Hun1].
    destruct (IH _ _ Hinv1) as [Hinv2 Hun2].
    rewrite <- app_assoc in Hinv2. simpl in Hinv2.
    split; [exact Hinv2|congruence].
Qed.

Lemma ScanInv_untagged ts st :
  ScanInv ts st ->
  ScanInv ts {| Build.allNodes := Build.allNodes st;
                Build.tree := Build.tree st;
                Build.untaggedCount := S (Build.untaggedCount st);
                Build.caseMap := Build.caseMap st |}.
Proof. intros H. exact H. Qed.

Lemma ScanInv_initial : ScanInv [] initialLocals.
Proof.
  split; [|split].
  - split.
    + constructor; simpl; try (intros; discriminate); try (intros; contradiction);
        constructor.
    + simpl. congruence.
  - reflexivity.
  - simpl. discriminate.
Qed.

Section Scan.
Context {filters : FileFilters}.
Variable Metadata : Type.
Variable excludedFolderPatterns : option (list string).

Local Abbreviation Entry := (string * FileData.t Metadata)%type.

Lemma processFile_inv (entry : Entry) ts st :
  ScanInv ts st ->
  ScanInv (ts ++ scannedTags [entry] excludedFolderPatterns)
          (processFile excludedFolderPatterns st entry)
  /\ Build.untaggedCount (processFile excludedFolderPatterns st entry)
     = (if countsAsUntagged excludedFolderPatterns entry then 1 else 0) + Build.untaggedCount st.
Proof.
  intros Hinv. destruct entry as [file fileData].
  unfold processFile, scannedTags, countsAsUntagged, isExcluded. simpl.
  destruct (match excludedFolderPatterns with
            | Some patterns => isPathInExcludedFolder file patterns
            | None => false
            end); simpl.
  - rewrite app_nil_r. auto.
  - destruct (FileData.tags fileData) as [[|tag tags]|]; simpl.
    + rewrite app_nil_r. split; [now apply ScanInv_untagged|reflexivity].
    + rewrite app_nil_r.
      destruct (processTag_inv file tag Hinv) as [Hinv1 Hun1].
      destruct (processTags_inv file tags Hinv1) as [Hinv2 Hun2].
      rewrite <- app_assoc in Hinv2. simpl in Hinv2.
      split; [exact Hinv2|congruence].
    + rewrite !app_nil_r. auto.
Qed.

Lemma scan_from_inv (allFiles : list Entry) ts st :
  ScanInv ts st ->
  ScanInv (ts ++ scannedTags allFiles excludedFolderPatterns)
          (fold_left (processFile excludedFolderPatterns) allFiles st)
  /\ Build.untaggedCount (fold_left (processFile excludedFolderPatterns) allFiles st)
     = length (filter (countsAsUntagged excludedFolderPatterns) allFiles) + Build.untaggedCount st.
Proof.
  revert ts st. induction allFiles as [|entry rest IH]; intros ts st Hinv.
  - simpl. rewrite app_nil_r. auto.
  - destruct (processFile_inv entry Hinv) as [Hinv1 Hun1].
    destruct (IH _ _ Hinv1) as [Hinv2 Hun2].
    change (fold_left (processFile excludedFolderPatterns) (entry :: rest) st)
      with (fold_left (processFile excludedFolderPatterns) rest
              (processFile excludedFolderPatterns st entry)).
    split.
    + replace (scannedTags (entry :: rest) excludedFolderPatterns)
        with (scannedTags [entry] excludedFolderPatterns
              ++ scannedTags rest excludedFolderPatterns).
      * rewrite app_assoc. exact Hinv2.
      * unfold scannedTags. simpl. now rewrite app_nil_r.
    + rewrite Hun2, Hun1. simpl filter.
      destruct (countsAsUntagged excludedFolderPatterns entry); simpl; lia.
Qed.

Lemma scan_inv (allFiles : list Entry) :
  ScanInv (scannedTags allFiles excludedFolderPatterns)
          (scan allFiles excludedFolderPatterns)
  /\ Build.untaggedCount (scan allFiles excludedFolderPatterns)
     = length (filter (countsAsUntagged excludedFolderPatterns) allFiles).
Proof.
  destruct (@scan_from_inv allFiles [] initialLocals ScanInv_initial) as [H1 H2].
  split; [exact H1|]. unfold scan. rewrite H2. simpl. lia.
Qed.

End Scan.

End BuildFacts.

(** ** The tag index: the returned tree *)

Module ReadFacts.

Import JsString JsStringFacts TagTree TagTreeSpec PrefixFacts BuildFacts.

Lemma traverse_total {A B : Type} (f : A -> option B) (l : list A) :
  (forall x, In x l -> exists y, f x = Some y) ->
  exists ys, traverse f l = Some ys.
Proof.
  induction l as [|x r IH]; intros H; simpl.
  - eauto.
  - destruct (H x (or_introl eq_refl)) as [y ->].
    destruct IH as [ys ->]; [intros z Hz; apply H; now right|].
    eauto.
Qed.

Lemma traverse_Forall2 {A B : Type} (f : A -> option B) (l : list A) (ys : list B) :
  traverse f l = Some ys -> Forall2 (fun x y => f x = Some y) l ys.
Proof.
  revert ys. induction l as [|x r IH]; intros ys; simpl.
  - intros [= <-]. constructor.
  - destruct (f x) as [y|] eqn:E; [|discriminate].
    destruct (traverse f r) as [ys'|]; [|discriminate].
    intros [= <-]. constructor; auto.
Qed.

Lemma Forall2_In_l {A B : Type} (R : A -> B -> Prop) (l : list A) (l' : list B) (x : A) :
  Forall2 R l l' -> In x l -> exists y, In y l' /\ R x y.
Proof.
  induction 1 as [|a b l l' Hab _ IH]; simpl; [tauto|].
  intros [<-|Hin].
  - exists b. auto.
  - destruct (IH Hin) as [y [Hy HR]]. exists y. auto.
Qed.

Lemma Forall2_In_r {A B : Type} (R : A -> B -> Prop) (l : list A) (l' : list B) (y : B) :
  Forall2 R l l' -> In y l' -> exists x, In x l /\ R x y.
Proof.
  induction 1 as [|a b l l' Hab _ IH]; simpl; [tauto|].
  intros [<-|Hin].
  - exists a. auto.
  - destruct (IH Hin) as [x [Hx HR]]. exists x. auto.
Qed.

Lemma readEntry_Some fuel nodes (entry : string * Ref) (kt : string * TagTreeNode) :
  readEntry fuel nodes entry = Some kt ->
  fst kt = fst entry /\ readNode fuel nodes (snd entry) = Some (snd kt).
Proof.
  destruct entry as [k r]. unfold readEntry. simpl.
  destruct (readNode fuel nodes r) as [t|]; [|discriminate].
  intros [= <-]. auto.
Qed.

Lemma read_keys fuel nodes (l : JsMap.t Ref) (T : JsMap.t TagTreeNode) :
  Forall2 (fun kc kt => readEntry fuel nodes kc = Some kt) l T ->
  JsMap.keys T = JsMap.keys l.
Proof.
  unfold JsMap.keys. induction 1 as [|kc kt l T H _ IH]; simpl; [reflexivity|].
  apply readEntry_Some in H as [-> _]. now rewrite IH.
Qed.

Lemma readNode_S fuel nodes ref :
  readNode (S fuel) nodes ref
  = match JsMap.get ref nodes with
    | None => None
    | Some node =>
        match traverse (readEntry fuel nodes) (Obj.children node) with
        | Some cs =>
            Some {| name := Obj.name node; path := Obj.path node;
                    children := cs; notesWithTag := Obj.notesWithTag node |}
        | None => None
        end
    end.
Proof. reflexivity. Qed.

Lemma readNode_shape fuel nodes ref t :
  readNode (S fuel) nodes ref = Some t ->
  exists o,
    JsMap.get ref nodes = Some o
    /\ name t = Obj.name o /\ path t = Obj.path o
    /\ notesWithTag t = Obj.notesWithTag o
    /\ Forall2 (fun kc kt => readEntry fuel nodes kc = Some kt)
               (Obj.children o) (children t).
Proof.
  rewrite readNode_S.
  destruct (JsMap.get ref nodes) as [o|]; [|discriminate].
  destruct (traverse (readEntry fuel nodes) (Obj.children o)) as [cs|] eqn:E;
    [|discriminate].
  intros [= <-]. exists o. simpl. repeat split; auto.
  now apply traverse_Forall2.
Qed.

Lemma readNode_fields fuel nodes ref t :
  readNode fuel nodes ref = Some t ->
  exists o,
    JsMap.get ref nodes = Some o
    /\ name t = Obj.name o /\ path t = Obj.path o
    /\ notesWithTag t = Obj.notesWithTag o.
Proof.
  destruct fuel as [|fuel]; [discriminate|].
  intros H. apply readNode_shape in H as [o [? [? [? [? _]]]]]. eauto.
Qed.

Lemma depth_le_max (nodes : JsMap.t Obj.t) (k : string) :
  JsMap.get k nodes <> None ->
  depthOfKey k <= list_max (map depthOfKey (JsMap.keys nodes)).
Proof.
  intros H.
  assert (Hin : In k (JsMap.keys nodes)).
  { destruct (JsMap.get k nodes) eqn:E; [|congruence].
    eapply JsMapFacts.get_Some_key; eauto. }
  pose proof (proj1 (list_max_le (map depthOfKey (JsMap.keys nodes)) _) (le_n _)) as Hall.
  rewrite Forall_forall in Hall. apply Hall. now apply in_map.
Qed.

Section Store.
Variable nodes : JsMap.t Obj.t.
Variable roots : JsMap.t Ref.
Hypothesis core : Core nodes roots.

Lemma readNode_total (fuel : nat) (ref : Ref) :
  JsMap.get ref nodes <> None ->
  list_max (map depthOfKey (JsMap.keys nodes)) < depthOfKey ref + fuel ->
  exists t, readNode fuel nodes ref = Some t.
Proof.
  revert ref. induction fuel as [|fuel IH]; intros ref Href Hfuel.
  - pose proof (@depth_le_max nodes ref Href). lia.
  - rewrite readNode_S.
    destruct (JsMap.get ref nodes) as [o|] eqn:E; [|congruence].
    destruct (@traverse_total _ _ (readEntry fuel nodes) (Obj.children o)) as [cs ->];
      [|eauto].
    intros [k c] Hin.
    destruct (core_children core _ _ _ E Hin) as [-> [Hc [_ Hd]]].
    destruct (IH k Hc) as [t Ht]; [lia|].
    exists (k, t). simpl. now rewrite Ht.
Qed.

Lemma readTree_total (cm : JsMap.t string) (u : nat) :
  exists t,
    readTree {| Build.allNodes := nodes; Build.tree := roots;
                Build.untaggedCount := u; Build.caseMap := cm |} = Some t.
Proof.
  unfold readTree. cbn [Build.allNodes Build.tree].
  apply traverse_total. intros [k r] Hin.
  destruct (core_tree core _ _ Hin) as [-> [Hk Hd]].
  destruct (@readNode_total (depthBound nodes) k Hk) as [t Ht].
  { unfold depthBound. lia. }
  exists (k, t). now rewrite Ht.
Qed.

Hypothesis linked : forall k, JsMap.get k nodes <> None -> Linked nodes k.

(** Every object of the store is read into the tree, at the top for a key
    without separator and in the children of the node one level up
    otherwise. *)
Lemma node_in_tree (T : JsMap.t TagTreeNode) :
  traverse (readEntry (depthBound nodes) nodes) roots = Some T ->
  forall d k o,
    depthOfKey k = d -> JsMap.get k nodes = Some o ->
    exists fuel t,
      readNode fuel nodes k = Some t
      /\ Reachable T k t
      /\ (d = 0 -> In (k, t) T)
      /\ (0 < d ->
          exists fuel' pt,
            readNode fuel' nodes (parentOf k) = Some pt
            /\ Reachable T (parentOf k) pt
            /\ In (k, t) (children pt)).
Proof.
  intros HT. apply traverse_Forall2 in HT.
  induction d as [|d IH]; intros k o Hd Hk.
  - pose proof (core_roots core _ Hk Hd) as Hroot.
    apply JsMapFacts.get_In in Hroot.
    destruct (@Forall2_In_l _ _ _ _ _ _ HT Hroot) as [[k' t] [Hin Hread]].
    unfold readEntry in Hread.
    destruct (readNode (depthBound nodes) nodes k) as [t0|] eqn:E; [|discriminate].
    injection Hread as <- <-.
    exists (depthBound nodes), t0.
    split; [exact E|]. split; [now constructor|]. split; [auto|lia].
  - assert (Hk' : JsMap.get k nodes <> None) by congruence.
    destruct (linked k Hk') as [parent [Hp Hc]]; [lia|].
    apply JsMapFacts.get_In in Hc.
    destruct (core_children core _ _ _ Hp Hc) as [_ [_ [_ Hdepth]]].
    destruct (IH (parentOf k) parent) as [fuel [pt [Hread [Hreach _]]]]; [lia|exact Hp|].
    destruct fuel as [|fuel]; [discriminate|].
    destruct (@readNode_shape _ _ _ _ Hread) as [o' [Ho' [_ [_ [_ Hall]]]]].
    rewrite Hp in Ho'. injection Ho' as <-.
    destruct (@Forall2_In_l _ _ _ _ _ _ Hall Hc) as [[k' t] [Hin Hentry]].
    unfold readEntry in Hentry.
    destruct (readNode fuel nodes k) as [t0|] eqn:E; [|discriminate].
    injection Hentry as <- <-.
    exists fuel, t0.
    split; [exact E|]. split; [econstructor 2; eauto|]. split; [lia|].
    intros _. exists (S fuel), pt. auto.
Qed.

End Store.

End ReadFacts.

(** ** The tag index: the build as a whole *)

Module TagIndex.

Import JsString JsStringFacts TagTree TagTreeSpec PrefixFacts BuildFacts ReadFacts.

Lemma prefixList_wf (parts : list string) :
  Forall (fun p => count "/" p = 0) parts -> JsMap.wf (prefixList parts).
Proof.
  intros Hparts. unfold JsMap.wf, JsMap.keys, prefixList.
  rewrite map_map. simpl.
  apply NoDup_map_NoDup_ForallPairs; [|apply seq_NoDup].
  intros i j Hi Hj E. apply in_seq in Hi, Hj.
  eapply prefixKey_inj; eauto; lia.
Qed.

(** A tag path is the last of its own prefixes. *)
Lemma get_own_prefix (t : string) :
  JsMap.get (toLowerCase t) (prefixesOf t) = Some t.
Proof.
  apply JsMapFacts.In_get.
  - rewrite prefixesOf_prefixList. apply prefixList_wf, split_parts.
  - unfold prefixesOf. cbv zeta.
    pose proof (split_length "/" t) as Hlen.
    apply in_map_iff. exists (length (split "/" t) - 1). split.
    + unfold prefixKey. now rewrite prefixPath_last.
    + apply in_seq. lia.
Qed.

Section Build.
Context {filters : FileFilters}.
Variable Metadata : Type.
Variable db : MemoryFileCache.t Metadata.
Variable excludedFolderPatterns : option (list string).

Local Abbreviation locals := (scan (getAllFiles db) excludedFolderPatterns).
Local Abbreviation occurrences := (scannedTags (getAllFiles db) excludedFolderPatterns).

Lemma locals_inv : ScanInv occurrences locals.
Proof. apply scan_inv. Qed.

Lemma locals_core : Core (Build.allNodes locals) (Build.tree locals).
Proof. apply locals_inv. Qed.

(** The build returns: the graph behind the root map reads as a tree. *)
Lemma build_returns (cache : NoteCountCache) :
  exists T,
    readTree locals = Some T
    /\ buildTagTreeFromDatabase db excludedFolderPatterns cache
       = (Some {| tree := T; untagged := Build.untaggedCount locals |}, None).
Proof.
  pose proof locals_core as C.
  destruct (@readTree_total _ _ C (Build.caseMap locals) (Build.untaggedCount locals))
    as [T HT].
  assert (E : readTree locals = Some T).
  { rewrite <- HT. now destruct locals. }
  exists T. split; [exact E|].
  unfold buildTagTreeFromDatabase. now rewrite E.
Qed.

(** Every node object of the index is a node of the returned tree. *)
Lemma index_in_tree (T : JsMap.t TagTreeNode) :
  readTree locals = Some T ->
  forall k o,
    JsMap.get k (Build.allNodes locals) = Some o ->
    exists node,
      Reachable T k node
      /\ name node = Obj.name o /\ path node = Obj.path o
      /\ notesWithTag node = Obj.notesWithTag o
      /\ k = toLowerCase (path node)
      /\ (count "/" (path node) = 0 -> In (k, node) T)
      /\ (0 < count "/" (path node) ->
          exists parent,
            Reachable T (toLowerCase (path parent)) parent
            /\ In (k, node) (children parent)
            /\ toLowerCase (path parent) = toLowerCase (parentOf (path node))).
Proof.
  intros HT k o Hk.
  destruct locals_inv as [[C L] _].
  destruct (@node_in_tree _ _ C L T HT (depthOfKey k) k o eq_refl Hk)
    as [fuel [t [Hread [Hreach [Hroot Hchild]]]]].
  destruct (@readNode_fields _ _ _ _ Hread) as [o' [Ho' [Hn [Hp Hnotes]]]].
  rewrite Hk in Ho'. injection Ho' as <-.
  pose proof (core_key C _ Hk) as Hkey.
  assert (Hdepth : depthOfKey k = count "/" (path t)).
  { rewrite <- Hkey, Hp. apply count_toLowerCase. }
  exists t. split; [exact Hreach|]. split; [exact Hn|]. split; [exact Hp|].
  split; [exact Hnotes|]. split; [congruence|].
  split; [intros H0; apply Hroot; lia|].
  intros Hpos. destruct Hchild as [fuel' [pt [Hread' [Hreach' Hin]]]]; [lia|].
  destruct (@readNode_fields _ _ _ _ Hread') as [po [Hpo [_ [Hpp _]]]].
  pose proof (core_key C _ Hpo) as Hpkey.
  assert (E : toLowerCase (path pt) = parentOf k) by congruence.
  exists pt. rewrite E. split; [exact Hreach'|]. split; [exact Hin|].
  rewrite <- parentOf_toLowerCase. congruence.
Qed.

(** The entries of the returned map are the root nodes: one per key, each
    under the case-normalized form of its path, which has one segment. *)
Lemma read_roots (T : JsMap.t TagTreeNode) :
  readTree locals = Some T ->
  JsMap.wf T
  /\ forall k node,
       In (k, node) T -> k = toLowerCase (path node) /\ count "/" (path node) = 0.
Proof.
  intros HT0. pose proof locals_core as C.
  assert (HT : traverse (readEntry (depthBound (Build.allNodes locals))
                                   (Build.allNodes locals))
                        (Build.tree locals) = Some T) by exact HT0.
  clear HT0. apply traverse_Forall2 in HT.
  split.
  - unfold JsMap.wf. rewrite (@read_keys _ _ _ _ HT). apply C.
  - intros k node Hin.
    destruct (@Forall2_In_r _ _ _ _ _ _ HT Hin) as [[k' r] [Hroot Hread]].
    apply readEntry_Some in Hread as [Hk Hnode]. cbn [fst snd] in Hk, Hnode.
    subst k'.
    destruct (core_tree C _ _ Hroot) as [-> [_ Hdepth]].
    destruct (@readNode_fields _ _ _ _ Hnode) as [o [Ho [_ [Hp _]]]].
    pose proof (core_key C _ Ho) as Hkey.
    rewrite Hp. split; [now symmetry|].
    rewrite <- count_toLowerCase, Hkey. exact Hdepth.
Qed.

Lemma built_roots (cache : NoteCountCache) (res : BuildResult) (cache' : NoteCountCache) :
  buildTagTreeFromDatabase db excludedFolderPatterns cache = (Some res, cache') ->
  JsMap.wf (tree res)
  /\ forall k node,
       In (k, node) (tree res) ->
       k = toLowerCase (path node) /\ count "/" (path node) = 0.
Proof.
  unfold buildTagTreeFromDatabase.
  destruct (readTree locals) as [T|] eqn:HT; [|discriminate].
  intros [= <- _]. simpl. now apply read_roots.
Qed.

(** C6, as amended.  In the loop over the files a record in an excluded
    folder is skipped before its tags are looked at: it leaves every local
    as it is, the counter included, whatever its tags, the empty list
    included.  So does a record whose [tags] is [null].  A record outside
    the excluded folders whose [tags] is the empty list adds one to the
    counter and leaves the index and the root map as they are.  The build
    returns, and its [untagged] is the number of records outside the
    excluded folders with an empty, non-null tag list; without folder
    patterns these are all the records with such a list. *)
Theorem untagged_counts_empty_tag_lists (cache : NoteCountCache) :
  (forall st (entry : string * FileData.t Metadata),
      FileData.tags (snd entry) = None ->
      processFile excludedFolderPatterns st entry = st)
  /\ (forall st (entry : string * FileData.t Metadata),
        isExcluded excludedFolderPatterns entry = true ->
        processFile excludedFolderPatterns st entry = st)
  /\ (forall st (entry : string * FileData.t Metadata),
        isExcluded excludedFolderPatterns entry = false ->
        FileData.tags (snd entry) = Some [] ->
        let st' := processFile excludedFolderPatterns st entry in
        Build.untaggedCount st' = S (Build.untaggedCount st)
        /\ Build.allNodes st' = Build.allNodes st
        /\ Build.tree st' = Build.tree st
        /\ Build.caseMap st' = Build.caseMap st)
  /\ (exists T,
        buildTagTreeFromDatabase db excludedFolderPatterns cache
        = (Some {| tree := T;
                   untagged :=
                     length (filter (countsAsUntagged excludedFolderPatterns)
                                    (getAllFiles db)) |},
           None))
  /\ (excludedFolderPatterns = None ->
      exists T,
        buildTagTreeFromDatabase db excludedFolderPatterns cache
        = (Some {| tree := T;
                   untagged := length (filter hasEmptyTagList (getAllFiles db)) |},
           None)).
Proof.
  assert (Hbuild : exists T,
             buildTagTreeFromDatabase db excludedFolderPatterns cache
             = (Some {| tree := T;
                        untagged :=
                          length (filter (countsAsUntagged excludedFolderPatterns)
                                         (getAllFiles db)) |},
                None)).
  { destruct (build_returns cache) as [T [_ HT]].
    exists T. rewrite HT.
    destruct (scan_inv excludedFolderPatterns (getAllFiles db)) as [_ ->].
    reflexivity. }
  split; [|split; [|split; [|split]]].
  - intros st [file data] Htags. simpl in Htags.
    unfold processFile. rewrite Htags.
    now destruct (match excludedFolderPatterns with
                  | Some patterns => isPathInExcludedFolder file patterns
                  | None => false
                  end).
  - intros st [file data] Hex. unfold isExcluded in Hex. simpl in Hex.
    unfold processFile. now rewrite Hex.
  - intros st [file data] Hex Htags. unfold isExcluded in Hex. simpl in *.
    unfold processFile. rewrite Hex, Htags. simpl. auto.
  - exact Hbuild.
  - intros Hnone. destruct Hbuild as [T HT]. exists T. rewrite HT.
    do 3 f_equal. f_equal. apply filter_ext. intros entry.
    unfold countsAsUntagged, isExcluded, hasEmptyTagList. now rewrite Hnone.
Qed.

(** C10, as amended.  The build returns, and every node object created
    during it is reached from the returned root map along the children
    maps, with the name, path and files of the object, under the
    case-normalized form of its path.  A node whose path has one segment is
    an entry of the returned map; any other node is an entry, under its
    case-normalized path, of the children of the node whose case-normalized
    path is the case-normalized immediate ancestor prefix of its path. *)
Theorem build_links_every_node (cache : NoteCountCache) :
  exists res,
    buildTagTreeFromDatabase db excludedFolderPatterns cache = (Some res, None)
    /\ forall k o,
         JsMap.get k (Build.allNodes locals) = Some o ->
         exists node,
           Reachable (tree res) k node
           /\ name node = Obj.name o /\ path node = Obj.path o
           /\ notesWithTag node = Obj.notesWithTag o
           /\ k = toLowerCase (path node)
           /\ (count "/" (path node) = 0 -> In (k, node) (tree res))
           /\ (0 < count "/" (path node) ->
               exists parent,
                 Reachable (tree res) (toLowerCase (path parent)) parent
                 /\ In (k, node) (children parent)
                 /\ toLowerCase (path parent) = toLowerCase (parentOf (path node))).
Proof.
  destruct (build_returns cache) as [T [HT Hb]].
  eexists. split; [exact Hb|]. simpl.
  now apply index_in_tree.
Qed.

(** C4, as amended.  The index has one node object per case-normalized
    path: its keys are distinct, and an object sits under the
    case-normalized form of its own path, its name being the last segment
    of that path.  Two scanned tags that differ only by case are under one
    key, hence one object.  The path shown for a key is that of the first
    prefix with this key among the prefixes of the scanned tags, in scan
    order (a tag counts among its own prefixes): it is the first scanned
    casing of the tag unless the key occurred before as a proper ancestor
    prefix of another tag, whose casing then stays.  The build returns and
    every object of the index is a node of the returned tree. *)
Theorem node_casing_is_first_occurrence (cache : NoteCountCache) :
  JsMap.wf (Build.allNodes locals)
  /\ (forall k o,
        JsMap.get k (Build.allNodes locals) = Some o ->
        toLowerCase (Obj.path o) = k
        /\ Obj.name o = last (split "/" (Obj.path o)) "")
  /\ (forall k1 k2 o1 o2,
        JsMap.get k1 (Build.allNodes locals) = Some o1 ->
        JsMap.get k2 (Build.allNodes locals) = Some o2 ->
        toLowerCase (Obj.path o1) = toLowerCase (Obj.path o2) ->
        k1 = k2 /\ o1 = o2)
  /\ (forall t1 t2,
        In t1 occurrences -> In t2 occurrences ->
        toLowerCase t1 = toLowerCase t2 ->
        exists o,
          JsMap.get (toLowerCase t1) (Build.allNodes locals) = Some o
          /\ JsMap.get (toLowerCase t2) (Build.allNodes locals) = Some o)
  /\ (forall k,
        pathOf (Build.allNodes locals) k = JsMap.get k (flat_map prefixesOf occurrences))
  /\ (forall before t after,
        occurrences = before ++ t :: after ->
        (forall t', In t' before -> ~ In (toLowerCase t) (JsMap.keys (prefixesOf t'))) ->
        pathOf (Build.allNodes locals) (toLowerCase t) = Some t)
  /\ (exists res,
        buildTagTreeFromDatabase db excludedFolderPatterns cache = (Some res, None)
        /\ forall k o,
             JsMap.get k (Build.allNodes locals) = Some o ->
             exists node,
               Reachable (tree res) k node
               /\ name node = Obj.name o /\ path node = Obj.path o).
Proof.
  destruct locals_inv as [[C L] [Hpath _]].
  split; [apply C|].
  split; [intros k o Hk; split; [eapply (core_key C)|eapply (core_name C)]; eauto|].
  split.
  { intros k1 k2 o1 o2 H1 H2 E.
    rewrite (core_key C _ H1), (core_key C _ H2) in E. subst k2.
    split; [reflexivity|congruence]. }
  split.
  { intros t1 t2 H1 _ E. rewrite <- E.
    destruct (JsMap.get (toLowerCase t1) (Build.allNodes locals)) as [o|] eqn:G;
      [eauto|].
    exfalso. apply pathOf_None in G. rewrite Hpath in G.
    apply JsMapFacts.get_None in G. apply G.
    unfold JsMap.keys. apply in_map_iff. exists (toLowerCase t1, t1).
    split; [reflexivity|]. apply in_flat_map. exists t1. split; [exact H1|].
    apply JsMapFacts.get_In, get_own_prefix. }
  split; [exact Hpath|].
  split.
  { intros before t after E Hfirst. rewrite Hpath, E.
    rewrite flat_map_app, JsMapFacts.get_app.
    replace (JsMap.get (toLowerCase t) (flat_map prefixesOf before)) with (@None string).
    - simpl. rewrite JsMapFacts.get_app, get_own_prefix. reflexivity.
    - symmetry. apply JsMapFacts.get_None. unfold JsMap.keys.
      rewrite in_map_iff. intros [[k p] [Hk Hin]]. simpl in Hk. subst k.
      apply in_flat_map in Hin as [t' [Ht' Hin]].
      apply (Hfirst t' Ht'). unfold JsMap.keys. apply in_map_iff.
      exists (toLowerCase t, p). auto. }
  destruct (build_returns cache) as [T [HT Hb]].
  eexists. split; [exact Hb|]. simpl.
  intros k o Hk. destruct (index_in_tree HT _ Hk) as [node [? [? [? _]]]]. eauto.
Qed.

End Build.

End TagIndex.

(** ** The reference [RegExp] accepts the wildcard texts *)

Module RegExpFragmentFacts.

Import JsString RegExpFragment.

Lemma special_not_star (c : ascii) :
  Wildcard.isSpecial c = true -> Ascii.eqb c "*" = false.
Proof. destruct c as [[] [] [] [] [] [] [] []]; try reflexivity; discriminate. Qed.

Lemma special_syntax (c : ascii) :
  Wildcard.isSpecial c = true -> isSyntaxChar c = true.
Proof. destruct c as [[] [] [] [] [] [] [] []]; try reflexivity; discriminate. Qed.

Lemma plain_char (c : ascii) :
  Wildcard.isSpecial c = false -> Ascii.eqb c "*" = false ->
  Ascii.eqb c "^" = false /\ Ascii.eqb c "$" = false /\ Ascii.eqb c "\" = false
  /\ Ascii.eqb c "." = false /\ isSyntaxChar c = false.
Proof.
  destruct c as [[] [] [] [] [] [] [] []]; intros H1 H2;
    try discriminate; repeat split; reflexivity.
Qed.

Lemma replaceEach_hit (hit : ascii -> bool) (f : ascii -> string) (c : ascii) (r : string) :
  hit c = true ->
  replaceEach hit f (String c r) = (f c ++ replaceEach hit f r)%string.
Proof. intros H. simpl. now rewrite H. Qed.

Lemma replaceEach_miss (hit : ascii -> bool) (f : ascii -> string) (c : ascii) (r : string) :
  hit c = false ->
  replaceEach hit f (String c r) = String c (replaceEach hit f r).
Proof. intros H. simpl. now rewrite H. Qed.

Lemma body_cons_special (c : ascii) (p : string) :
  Wildcard.isSpecial c = true ->
  body (String c p) = String "\" (String c (body p)).
Proof.
  intros Hs. unfold body, Wildcard.expandStar, Wildcard.escapeSpecial.
  rewrite replaceEach_hit by exact Hs.
  change (String "\" (String c "") ++ ?x)%string with (String "\" (String c x)).
  rewrite replaceEach_miss by reflexivity.
  rewrite replaceEach_miss; [reflexivity|].
  rewrite Ascii.eqb_sym. now apply special_not_star.
Qed.

Lemma body_cons_star (p : string) :
  body (String "*" p) = String "." (String "*" (body p)).
Proof.
  unfold body, Wildcard.expandStar, Wildcard.escapeSpecial.
  rewrite replaceEach_miss by reflexivity.
  rewrite replaceEach_hit by reflexivity. reflexivity.
Qed.

Lemma body_cons_plain (c : ascii) (p : string) :
  Wildcard.isSpecial c = false -> Ascii.eqb c "*" = false ->
  body (String c p) = String c (body p).
Proof.
  intros Hs E. unfold body, Wildcard.expandStar, Wildcard.escapeSpecial.
  rewrite replaceEach_miss by exact Hs.
  rewrite replaceEach_miss; [reflexivity|].
  now rewrite Ascii.eqb_sym.
Qed.

Lemma body_head (p : string) :
  exists q rest, body p = String q rest /\ Ascii.eqb q "*" = false.
Proof.
  destruct p as [|c p].
  - eexists _, _. split; reflexivity.
  - destruct (Wildcard.isSpecial c) eqn:Hs.
    + rewrite body_cons_special by exact Hs. eexists _, _. split; reflexivity.
    + destruct (Ascii.eqb_spec c "*") as [->|Hne].
      * rewrite body_cons_star. eexists _, _. split; reflexivity.
      * assert (E : Ascii.eqb c "*" = false) by now apply Ascii.eqb_neq.
        rewrite body_cons_plain by assumption. eexists _, _. split; [reflexivity|exact E].
Qed.

Lemma parse_body (p : string) : parse (body p) = Some (wildcardItems p ++ [Eol]).
Proof.
  induction p as [|c p IH].
  - reflexivity.
  - destruct (body_head p) as [q [rest [Hb Hq]]].
    destruct (Wildcard.isSpecial c) eqn:Hs.
    + rewrite body_cons_special by exact Hs.
      pose proof (special_not_star c Hs) as E.
      pose proof (special_syntax c Hs) as Y.
      simpl wildcardItems. rewrite E.
      rewrite Hb in *. simpl. rewrite Y, Hq. simpl in IH.
      simpl. rewrite IH. reflexivity.
    + destruct (Ascii.eqb_spec c "*") as [->|Hne].
      * rewrite body_cons_star. simpl wildcardItems. simpl.
        rewrite IH. reflexivity.
      * assert (E : Ascii.eqb c "*" = false) by now apply Ascii.eqb_neq.
        rewrite body_cons_plain by assumption.
        destruct (plain_char c Hs E) as [E1 [E2 [E3 [E4 Y]]]].
        simpl wildcardItems. rewrite E.
        rewrite Hb in *. simpl. rewrite E1, E2, E3, E4, Y, Hq.
        simpl in IH. rewrite IH. reflexivity.
Qed.

Lemma parse_wildcardSource (p : string) :
  parse (Wildcard.wildcardSource p) = Some (Bol :: wildcardItems p ++ [Eol]).
Proof.
  unfold Wildcard.wildcardSource.
  change ("^" ++ Wildcard.expandStar (Wildcard.escapeSpecial p) ++ "$")%string
    with (String "^" (body p)).
  simpl. now rewrite parse_body.
Qed.

Lemma matchHere_wildcardItems (p : string) :
  forall atStart s,
    matchHere true (wildcardItems p ++ [Eol]) atStart s = Wildcard.matches p s.
Proof.
  induction p as [|c p IH]; intros atStart s.
  - destruct s; reflexivity.
  - simpl. destruct (Ascii.eqb c "*").
    + revert atStart. induction s as [|d s IHs]; intros atStart.
      * rewrite IH. reflexivity.
      * rewrite IH. rewrite IHs. reflexivity.
    + destruct s as [|d s]; [reflexivity|].
      rewrite IH. reflexivity.
Qed.

Lemma search_Bol_later (items : list Item) (s : string) :
  search true (Bol :: items) false s = false.
Proof. induction s as [|d s IH]; simpl; [reflexivity|exact IH]. Qed.

Lemma fragment_wildcard (cleanPattern : string) :
  exists regex,
    compile (Wildcard.wildcardSource cleanPattern) "i" = inr regex
    /\ forall subject, test regex subject = Wildcard.matches cleanPattern subject.
Proof.
  unfold compile. rewrite parse_wildcardSource. simpl.
  eexists. split; [reflexivity|].
  intros subject. unfold test. simpl items. simpl ignoreCase.
  destruct subject as [|d s].
  - simpl search. rewrite matchHere_wildcardItems. now rewrite orb_false_r.
  - change (search true (Bol :: wildcardItems cleanPattern ++ [Eol]) true (String d s))
      with (matchHere true (wildcardItems cleanPattern ++ [Eol]) true (String d s)
            || search true (Bol :: wildcardItems cleanPattern ++ [Eol]) false s).
    rewrite search_Bol_later, matchHere_wildcardItems. now rewrite orb_false_r.
Qed.

End RegExpFragmentFacts.

(** The engine of the examples. *)
#[export] Instance referenceRegExp : RegExpEngine := {|
  RegExp := RegExpFragment.Compiled;
  RegExp_new := RegExpFragment.compile;
  RegExp_test := RegExpFragment.test;
  RegExp_wildcard := RegExpFragmentFacts.fragment_wildcard
|}.

(** ** Patterns and the two filters *)

Module PatternFacts.

Import JsString JsStringFacts TagTree TagTreeSpec PatternSpec.

Lemma wf_filter {V : Type} (keep : string * V -> bool) (m : JsMap.t V) :
  JsMap.wf m -> JsMap.wf (filter keep m).
Proof.
  unfold JsMap.wf, JsMap.keys.
  induction m as [|[k v] r IH]; simpl; intros H; [constructor|].
  inversion H as [|? ? Hnotin Hnd]; subst.
  destruct (keep (k, v)); simpl; [|auto].
  constructor; [|auto].
  intros Hin. apply Hnotin.
  apply in_map_iff in Hin as [[k' v'] [E Hin]]. simpl in E. subst k'.
  apply filter_In in Hin as [Hin _].
  apply in_map_iff. exists (k, v'). auto.
Qed.

Lemma get_filter {V : Type} (keep : string * V -> bool) (m : JsMap.t V) k v :
  JsMap.wf m -> JsMap.get k m = Some v -> keep (k, v) = true ->
  JsMap.get k (filter keep m) = Some v.
Proof.
  intros Hwf Hget Hkeep. apply JsMapFacts.In_get; [now apply wf_filter|].
  apply filter_In. split; [now apply JsMapFacts.get_In|exact Hkeep].
Qed.

Lemma someM_returns {A : Type} (p : A -> Eff bool) (xs : list A) :
  (forall x, exists out, p x = (Normal (valueOf (p x)), out)) ->
  exists out, someM p xs = (Normal (existsb (fun x => valueOf (p x)) xs), out).
Proof.
  intros Hp. induction xs as [|x r [out IH]]; simpl.
  - eexists. reflexivity.
  - destruct (Hp x) as [outx Hx].
    destruct (p x) as [[b|e] outp] eqn:E; [|discriminate].
    unfold valueOf at 1. simpl. destruct b; simpl.
    + eexists. reflexivity.
    + rewrite IH. eexists. reflexivity.
Qed.

(** A loop that stores the entries satisfying [keep] yields them in the
    order of the map. *)
Lemma forEachM_filter {V : Type} (keep : string * V -> bool)
    (body : string * V -> JsMap.t V -> Eff (JsMap.t V)) (m : JsMap.t V) :
  JsMap.wf m ->
  (forall x acc,
      exists out,
        body x acc
        = (Normal (if keep x then JsMap.set (fst x) (snd x) acc else acc), out)) ->
  exists out, forEachM body m JsMap.empty = (Normal (filter keep m), out).
Proof.
  intros Hwf Hbody.
  assert (G : forall acc : JsMap.t V,
             NoDup (JsMap.keys acc ++ JsMap.keys m) ->
             exists out, forEachM body m acc = (Normal (acc ++ filter keep m), out)).
  { clear Hwf. induction m as [|[k v] r IH]; intros acc Hnd; simpl.
    - rewrite app_nil_r. eexists. reflexivity.
    - destruct (Hbody (k, v) acc) as [out1 H1]. rewrite H1. unfold bind.
      simpl fst. simpl snd.
      assert (Hfresh : JsMap.get k acc = None).
      { apply JsMapFacts.get_None. intros Hin.
        simpl in Hnd. apply NoDup_remove_2 in Hnd. apply Hnd.
        apply in_or_app. now left. }
      destruct (keep (k, v)).
      + rewrite JsMapFacts.set_fresh by exact Hfresh.
        destruct (IH (acc ++ [(k, v)])) as [out2 H2].
        { unfold JsMap.keys in *. rewrite map_app. simpl.
          rewrite <- app_assoc. exact Hnd. }
        rewrite H2. rewrite <- app_assoc. simpl. eexists. reflexivity.
      + destruct (IH acc) as [out2 H2].
        { simpl in Hnd. now apply NoDup_remove_1 in Hnd. }
        rewrite H2. eexists. reflexivity. }
  apply (G JsMap.empty). exact Hwf.
Qed.

Section Engine.
Context {engine : RegExpEngine}.

Lemma matchesTagPattern_delimited (tagPath pattern : string) :
  isDelimited (stripHash pattern) = true ->
  matchesTagPattern tagPath pattern
  = match RegExp_new (slice 1 (-1) (stripHash pattern)) "i" with
    | inl e =>
        (Normal false,
         [ConsoleError "Invalid regex pattern:" (stripHash pattern) e])
    | inr regex => (Normal (RegExp_test regex (stripHash tagPath)), [])
    end.
Proof.
  unfold isDelimited, matchesTagPattern. intros ->.
  unfold newRegExp.
  destruct (RegExp_new (slice 1 (-1) (stripHash pattern)) "i"); reflexivity.
Qed.

Lemma matchesTagPattern_wildcard (tagPath pattern : string) :
  isDelimited (stripHash pattern) = false ->
  matchesTagPattern tagPath pattern
  = (Normal (Wildcard.matches (stripHash pattern) (stripHash tagPath)), []).
Proof.
  unfold isDelimited, matchesTagPattern. intros ->.
  destruct (RegExp_wildcard (stripHash pattern)) as [regex [Hnew Htest]].
  unfold Wildcard.wildcardSource in Hnew. cbv zeta in Hnew.
  unfold newRegExp. rewrite Hnew. simpl. now rewrite Htest.
Qed.

Lemma matchesTagPattern_returns (tagPath pattern : string) :
  exists out,
    matchesTagPattern tagPath pattern = (Normal (matchesValue tagPath pattern), out).
Proof.
  unfold matchesValue.
  destruct (isDelimited (stripHash pattern)) eqn:E.
  - rewrite (matchesTagPattern_delimited tagPath _ E).
    destruct (RegExp_new (slice 1 (-1) (stripHash pattern)) "i");
      eexists; reflexivity.
  - rewrite (matchesTagPattern_wildcard tagPath _ E). eexists. reflexivity.
Qed.

Lemma matchesValue_wildcard (tagPath pattern : string) :
  isDelimited (stripHash pattern) = false ->
  matchesValue tagPath pattern = Wildcard.matches (stripHash pattern) (stripHash tagPath).
Proof.
  intros E. unfold matchesValue. now rewrite (matchesTagPattern_wildcard tagPath _ E).
Qed.

Lemma some_pattern_returns (tagPath : string) (patterns : list string) :
  exists out,
    someM (fun pattern => matchesTagPattern tagPath pattern) patterns
    = (Normal (existsb (matchesValue tagPath) patterns), out).
Proof.
  apply (someM_returns (fun pattern => matchesTagPattern tagPath pattern)).
  intros x. apply matchesTagPattern_returns.
Qed.

Lemma ancestorLoop_returns (patterns pathParts : list string) (i : nat) :
  exists out,
    ancestorLoop patterns pathParts i
    = (Normal (anyPrefixMatches patterns pathParts i), out).
Proof.
  induction i as [|j [out IH]].
  - eexists. reflexivity.
  - destruct (some_pattern_returns (join "/" (firstn (S j) pathParts)) patterns)
      as [out1 H1].
    change (ancestorLoop patterns pathParts (S j))
      with (hit <- someM (fun pattern =>
                            matchesTagPattern (join "/" (firstn (S j) pathParts)) pattern)
                         patterns ;;
            if hit then ret true else ancestorLoop patterns pathParts j).
    rewrite H1. unfold bind.
    change (anyPrefixMatches patterns pathParts (S j))
      with (existsb (matchesValue (join "/" (firstn (S j) pathParts))) patterns
            || anyPrefixMatches patterns pathParts j).
    destruct (existsb (matchesValue (join "/" (firstn (S j) pathParts))) patterns).
    + eexists. reflexivity.
    + rewrite IH. eexists. reflexivity.
Qed.

Lemma anyPrefixMatches_spec (patterns pathParts : list string) (n : nat) :
  anyPrefixMatches patterns pathParts n = true <->
  exists i pattern,
    0 < i <= n /\ In pattern patterns
    /\ matchesValue (join "/" (firstn i pathParts)) pattern = true.
Proof.
  induction n as [|n IH].
  - simpl. split; [discriminate|]. intros [i [p [Hi _]]]. lia.
  - change (anyPrefixMatches patterns pathParts (S n))
      with (existsb (matchesValue (join "/" (firstn (S n) pathParts))) patterns
            || anyPrefixMatches patterns pathParts n).
    rewrite orb_true_iff, IH, existsb_exists. split.
    + intros [[p [Hp Hm]]|[i [p [Hi [Hp Hm]]]]].
      * exists (S n), p. split; [lia|auto].
      * exists i, p. split; [lia|auto].
    + intros [i [p [Hi [Hp Hm]]]].
      destruct (Nat.eq_dec i (S n)) as [->|Hne].
      * left. eauto.
      * right. exists i, p. split; [lia|auto].
Qed.

(** C8.  For a pattern in the delimited form (a slash first and last,
    once a leading marker is removed) [matchesTagPattern] completes
    normally whatever the tag path is.  When the constructor rejects the
    text between the slashes, the error is caught, one line with the
    pattern and the error goes to the console, and the result is [false];
    otherwise nothing is logged and the result is that of [test] on the tag
    path without its marker. *)
Theorem delimited_pattern_never_raises (tagPath pattern : string) :
  startsWith "/" (stripHash pattern) = true ->
  endsWith "/" (stripHash pattern) = true ->
  (forall e, fst (matchesTagPattern tagPath pattern) <> Throw e)
  /\ (forall e,
        RegExp_new (slice 1 (-1) (stripHash pattern)) "i" = inl e ->
        matchesTagPattern tagPath pattern
        = (Normal false,
           [ConsoleError "Invalid regex pattern:" (stripHash pattern) e]))
  /\ (forall regex,
        RegExp_new (slice 1 (-1) (stripHash pattern)) "i" = inr regex ->
        matchesTagPattern tagPath pattern
        = (Normal (RegExp_test regex (stripHash tagPath)), [])).
Proof.
  intros Hs He.
  assert (E : isDelimited (stripHash pattern) = true)
    by (unfold isDelimited; now rewrite Hs, He).
  rewrite (matchesTagPattern_delimited tagPath _ E).
  split; [|split].
  - intros e. destruct (RegExp_new (slice 1 (-1) (stripHash pattern)) "i");
      simpl; discriminate.
  - intros e ->. reflexivity.
  - intros regex ->. reflexivity.
Qed.

(** C1, as amended.  [excludeFromTagTree] completes normally and looks at
    the entries of the tree map only.  For an empty pattern list it
    returns the map; otherwise it keeps, in their order and with their
    nodes as they are, exactly the entries whose node's own path matches
    none of the parsed patterns, whatever the prefixes of that path match.
    Nodes below an entry are not examined: they stay with a kept entry and
    go with a dropped one.  On a map with the entries "project" and
    "project/sub" the pattern list ["project"] removes "project" only.  The
    map of a built tree is such a map, and its entries are the root nodes,
    whose paths have one segment. *)
Theorem excludeFromTagTree_top_level
    (tree : JsMap.t TagTreeNode) (excludePatterns : list string) :
  JsMap.wf tree ->
  (exists out,
      excludeFromTagTree tree excludePatterns
      = (Normal
           (match excludePatterns with
            | [] => tree
            | _ :: _ =>
                filter
                  (fun entry =>
                     negb (existsb (matchesValue (path (snd entry)))
                                   (parsed excludePatterns)))
                  tree
            end),
         out))
  /\ (forall n1 n2,
        path n1 = "project" -> path n2 = "project/sub" ->
        exists out,
          excludeFromTagTree [("project", n1); ("project/sub", n2)] ["project"]
          = (Normal [("project/sub", n2)], out))
  /\ (forall (filters : FileFilters) (Metadata : Type)
             (db : MemoryFileCache.t Metadata) excludedFolderPatterns cache res cache',
        buildTagTreeFromDatabase db excludedFolderPatterns cache = (Some res, cache') ->
        JsMap.wf (TagTree.tree res)
        /\ forall k node,
             In (k, node) (TagTree.tree res) ->
             k = toLowerCase (path node) /\ count "/" (path node) = 0).
Proof.
  intros Hwf.
  assert (G : forall (t : JsMap.t TagTreeNode) (pats : list string),
             JsMap.wf t -> pats <> [] ->
             exists out,
               excludeFromTagTree t pats
               = (Normal (filter
                            (fun entry =>
                               negb (existsb (matchesValue (path (snd entry)))
                                             (parsed pats)))
                            t), out)).
  { intros t pats Ht Hne. unfold excludeFromTagTree.
    destruct pats as [|p0 pats]; [congruence|]. simpl length. simpl Nat.eqb. cbv iota.
    apply forEachM_filter; [exact Ht|].
    intros [key node] acc.
    destruct (some_pattern_returns (path node) (parsed (p0 :: pats))) as [out1 H1].
    unfold parsed in H1. rewrite H1. unfold bind. simpl fst. simpl snd.
    unfold parsed.
    destruct (existsb (matchesValue (path node))
                      (parseTagPatterns (join "," (p0 :: pats))));
      eexists; reflexivity. }
  split; [|split];
    [| |intros filters Metadata db excl cache res cache';
        apply TagIndex.built_roots].
  - destruct excludePatterns as [|p0 pats].
    + eexists. reflexivity.
    + apply G; [exact Hwf|discriminate].
  - intros n1 n2 H1 H2.
    destruct (G [("project", n1); ("project/sub", n2)] ["project"]) as [out Hout].
    { repeat constructor; simpl; intuition discriminate. }
    { discriminate. }
    exists out. rewrite Hout. f_equal. f_equal.
    change (parsed ["project"]) with ["project"].
    simpl. rewrite H1, H2.
    rewrite !matchesValue_wildcard by reflexivity.
    reflexivity.
Qed.

(** C2, as amended.  For a non-empty pattern list [filterTagTree]
    completes normally and looks at the entries of the tree map only: it
    keeps, in their order and with their nodes as they are, exactly the
    entries for which the node's own path or one of its ancestor prefixes
    matches at least one of the parsed patterns.  A node below an entry is
    not examined, whatever its own path matches: it stays with a kept entry
    and goes with a dropped one.  So when a parsed pattern matches
    "project", the entry of the node "project" is kept and every child of
    it, "project/sub" included, is still reached in the result.  The map of
    a built tree is such a map, and its entries are the root nodes, whose
    paths have one segment. *)
Theorem filterTagTree_top_level
    (tree : JsMap.t TagTreeNode) (includePatterns : list string) :
  JsMap.wf tree ->
  includePatterns <> [] ->
  let keeps (entry : string * TagTreeNode) : bool :=
    let pathParts := split "/" (path (snd entry)) in
    anyPrefixMatches (parsed includePatterns) pathParts (length pathParts) in
  (exists out,
      filterTagTree tree includePatterns = (Normal (filter keeps tree), out))
  /\ (forall entry,
        keeps entry = true <->
        exists i pattern,
          0 < i <= length (split "/" (path (snd entry)))
          /\ In pattern (parsed includePatterns)
          /\ matchesValue (join "/" (firstn i (split "/" (path (snd entry))))) pattern
             = true)
  /\ (forall entry pattern,
        In pattern (parsed includePatterns) ->
        matchesValue (path (snd entry)) pattern = true -> keeps entry = true)
  /\ (forall node,
        JsMap.get "project" tree = Some node ->
        path node = "project" ->
        existsb (matchesValue "project") (parsed includePatterns) = true ->
        exists out result,
          filterTagTree tree includePatterns = (Normal result, out)
          /\ JsMap.get "project" result = Some node
          /\ forall key child,
               In (key, child) (children node) -> Reachable result key child)
  /\ (forall (filters : FileFilters) (Metadata : Type)
             (db : MemoryFileCache.t Metadata) excludedFolderPatterns cache res cache',
        buildTagTreeFromDatabase db excludedFolderPatterns cache = (Some res, cache') ->
        JsMap.wf (TagTree.tree res)
        /\ forall k node,
             In (k, node) (TagTree.tree res) ->
             k = toLowerCase (path node) /\ count "/" (path node) = 0).
Proof.
  intros Hwf Hne keeps.
  assert (G : exists out,
             filterTagTree tree includePatterns = (Normal (filter keeps tree), out)).
  { unfold filterTagTree.
    destruct includePatterns as [|p0 pats]; [congruence|].
    simpl length. simpl Nat.eqb. cbv iota.
    apply forEachM_filter; [exact Hwf|].
    intros [key node] acc.
    destruct (ancestorLoop_returns (parsed (p0 :: pats)) (split "/" (path node))
                (length (split "/" (path node)))) as [out1 H1].
    unfold parsed in H1. rewrite H1. unfold bind. simpl fst. simpl snd.
    unfold keeps, parsed. simpl snd.
    destruct (anyPrefixMatches (parseTagPatterns (join "," (p0 :: pats)))
                (split "/" (path node)) (length (split "/" (path node))));
      eexists; reflexivity. }
  assert (Hspec : forall entry,
             keeps entry = true <->
             exists i pattern,
               0 < i <= length (split "/" (path (snd entry)))
               /\ In pattern (parsed includePatterns)
               /\ matchesValue
                    (join "/" (firstn i (split "/" (path (snd entry))))) pattern
                  = true).
  { intros entry. unfold keeps. apply anyPrefixMatches_spec. }
  assert (Hown : forall entry pattern,
             In pattern (parsed includePatterns) ->
             matchesValue (path (snd entry)) pattern = true -> keeps entry = true).
  { intros entry pattern Hin Hm. apply Hspec.
    exists (length (split "/" (path (snd entry)))), pattern.
    pose proof (split_length "/" (path (snd entry))).
    split; [lia|]. split; [exact Hin|].
    rewrite firstn_all, PrefixFacts.join_split. exact Hm. }
  split; [exact G|]. split; [exact Hspec|]. split; [exact Hown|].
  split;
    [|intros filters Metadata db excl cache res cache'; apply TagIndex.built_roots].
  intros node Hget Hpath Hmatch.
  destruct G as [out Hout]. exists out, (filter keeps tree).
  split; [exact Hout|].
  assert (Hkept : JsMap.get "project" (filter keeps tree) = Some node).
  { apply get_filter; [exact Hwf|exact Hget|].
    apply existsb_exists in Hmatch as [pattern [Hin Hm]].
    apply (Hown ("project", node) pattern Hin). simpl. now rewrite Hpath. }
  split; [exact Hkept|].
  intros key child Hin.
  eapply reachable_below; [|exact Hin].
  apply reachable_top. apply JsMapFacts.get_In. exact Hkept.
Qed.

End Engine.

End PatternFacts.

(** ** The aggregate count *)

Module CountFacts.

Import JsString TagTree TagTreeSpec.

Lemma set_has_true (x : string) (s : JsSet.t) : JsSet.has x s = true <-> In x s.
Proof.
  unfold JsSet.has. rewrite existsb_exists. split.
  - intros [y [Hin E]]. apply String.eqb_eq in E. now subst.
  - intros H. exists x. split; [exact H|apply String.eqb_refl].
Qed.

Lemma add_In (x y : string) (s : JsSet.t) : In y (JsSet.add x s) <-> y = x \/ In y s.
Proof.
  unfold JsSet.add. destruct (JsSet.has x s) eqn:E.
  - apply set_has_true in E. split; [auto|]. intros [->|H]; auto.
  - rewrite in_app_iff. simpl. intuition.
Qed.

Lemma add_NoDup (x : string) (s : JsSet.t) : NoDup s -> NoDup (JsSet.add x s).
Proof.
  intros H. unfold JsSet.add. destruct (JsSet.has x s) eqn:E; [exact H|].
  apply NoDup_app; [exact H|repeat constructor; simpl; tauto|].
  intros y Hy [<-|[]]. apply set_has_true in Hy. congruence.
Qed.

Lemma addAll_spec (xs : list string) (s : JsSet.t) :
  NoDup s ->
  NoDup (JsSet.addAll xs s)
  /\ forall y, In y (JsSet.addAll xs s) <-> In y s \/ In y xs.
Proof.
  unfold JsSet.addAll. revert s. induction xs as [|x xs IH]; intros s Hs; simpl.
  - split; [exact Hs|]. tauto.
  - destruct (IH (JsSet.add x s) (add_NoDup x Hs)) as [Hnd Hin].
    split; [exact Hnd|].
    intros y. rewrite Hin, add_In. intuition (subst; auto).
Qed.

(** Induction on a node with the property assumed for its children. *)
Lemma TagTreeNode_induction (P : TagTreeNode -> Prop) :
  (forall n, Forall (fun entry => P (snd entry)) (children n) -> P n) ->
  forall n, P n.
Proof.
  intros H. fix IH 1. intros [nm p cs ns]. apply H. simpl.
  induction cs as [|[k c] r IHr]; constructor; [apply IH|exact IHr].
Qed.

Lemma subtreeNodes_eq (n : TagTreeNode) :
  subtreeNodes n = n :: flat_map (fun entry => subtreeNodes (snd entry)) (children n).
Proof.
  destruct n as [nm p cs ns]. simpl. f_equal.
  induction cs as [|[k c] r IH]; simpl; [reflexivity|]. now rewrite IH.
Qed.

Lemma taggedFiles_eq (n : TagTreeNode) :
  taggedFiles n = notesWithTag n ++ filesBelow n.
Proof.
  unfold taggedFiles, filesBelow. rewrite subtreeNodes_eq. simpl. f_equal.
  induction (children n) as [|[k c] r IH]; simpl; [reflexivity|].
  now rewrite flat_map_app, IH.
Qed.

Lemma collectFromChildren_eq (n : TagTreeNode) (allFiles : JsSet.t) :
  collectFromChildren n allFiles
  = fold_left
      (fun acc entry =>
         collectFromChildren (snd entry)
           (JsSet.addAll (notesWithTag (snd entry)) acc))
      (children n) allFiles.
Proof.
  destruct n as [nm p cs ns]. simpl. revert allFiles.
  induction cs as [|[k c] r IH]; intros allFiles; simpl; [reflexivity|].
  now rewrite IH.
Qed.

Lemma collectFromChildren_spec (n : TagTreeNode) :
  forall allFiles,
    NoDup allFiles ->
    NoDup (collectFromChildren n allFiles)
    /\ forall f, In f (collectFromChildren n allFiles)
                 <-> In f allFiles \/ In f (filesBelow n).
Proof.
  induction n as [n IH] using TagTreeNode_induction.
  intros allFiles Hnd. rewrite collectFromChildren_eq. unfold filesBelow.
  revert allFiles Hnd.
  induction IH as [|[k c] r Hc _ IHr]; intros allFiles Hnd; simpl.
  - split; [exact Hnd|]. tauto.
  - simpl in Hc.
    destruct (addAll_spec (notesWithTag c) Hnd) as [Hnd1 Hin1].
    destruct (Hc _ Hnd1) as [Hnd2 Hin2].
    destruct (IHr _ Hnd2) as [Hnd3 Hin3].
    split; [exact Hnd3|].
    intros f. rewrite Hin3, Hin2, Hin1, in_app_iff, taggedFiles_eq, in_app_iff.
    tauto.
Qed.

(** The set the count is taken of: the files of the subtree, each once. *)
Lemma collected_files (node : TagTreeNode) :
  let allFiles := collectFromChildren node (JsSet.from (notesWithTag node)) in
  NoDup allFiles /\ forall f, In f allFiles <-> In f (taggedFiles node).
Proof.
  cbv zeta. unfold JsSet.from.
  destruct (@addAll_spec (notesWithTag node) JsSet.empty (NoDup_nil _)) as [Hnd Hin].
  destruct (collectFromChildren_spec node Hnd) as [Hnd' Hin'].
  split; [exact Hnd'|].
  intros f. rewrite Hin', Hin, taggedFiles_eq, in_app_iff. simpl. tauto.
Qed.

Lemma collected_size (node : TagTreeNode) :
  JsSet.size (collectFromChildren node (JsSet.from (notesWithTag node)))
  = length (nodup string_dec (taggedFiles node)).
Proof.
  destruct (collected_files node) as [Hnd Hin].
  unfold JsSet.size. apply Permutation_length.
  apply NoDup_Permutation; [exact Hnd|apply NoDup_nodup|].
  intros f. rewrite Hin, nodup_In. tauto.
Qed.

Lemma list_eqb_eq (l1 l2 : list string) :
  list_eqb String.eqb l1 l2 = true -> l1 = l2.
Proof.
  revert l2. induction l1 as [|x r IH]; intros [|y r']; simpl; try discriminate.
  - reflexivity.
  - intros H. apply andb_prop in H as [E H]. apply String.eqb_eq in E.
    f_equal; auto.
Qed.

Lemma node_eqb_eq (a b : TagTreeNode) : node_eqb a b = true -> a = b.
Proof.
  revert b. induction a as [a IH] using TagTreeNode_induction.
  intros b. destruct a as [n1 p1 c1 s1], b as [n2 p2 c2 s2]. simpl in *.
  intros H.
  apply andb_prop in H as [H Hs]. apply andb_prop in H as [H Hc].
  apply andb_prop in H as [Hn Hp].
  apply String.eqb_eq in Hn, Hp. apply list_eqb_eq in Hs. subst.
  f_equal.
  revert c2 Hc. induction IH as [|[k x] r Hx _ IHr]; intros [|[k' y] r']; simpl;
    try discriminate.
  - reflexivity.
  - intros H. apply andb_prop in H as [H Hr]. apply andb_prop in H as [Hk Hxy].
    apply String.eqb_eq in Hk. simpl in Hx. apply Hx in Hxy. subst.
    f_equal. now apply IHr.
Qed.

Lemma weakMapGet_In (node : TagTreeNode) (m : list (TagTreeNode * nat)) (count : nat) :
  weakMapGet node m = Some count -> In (node, count) m.
Proof.
  induction m as [|[n c] r IH]; simpl; [discriminate|].
  destruct (node_eqb node n) eqn:E.
  - intros [= <-]. apply node_eqb_eq in E. subst. now left.
  - intros H. right. auto.
Qed.

Lemma weakMapSet_fresh (node : TagTreeNode) (m : list (TagTreeNode * nat)) (count : nat) :
  weakMapGet node m = None -> weakMapSet node count m = m ++ [(node, count)].
Proof.
  induction m as [|[n c] r IH]; simpl; [reflexivity|].
  destruct (node_eqb node n); [discriminate|].
  intros H. now rewrite IH.
Qed.

(** C3.  With a sound cache (every cached count is the number of distinct
    files of the subtree of its node; so is the cache a build leaves
    behind), [getTotalNoteCount(node)] is the size of the union of
    [notesWithTag] over the node and all its descendants, for a node of a
    built tree as for any other, and the cache stays sound.  The count is
    the length of a list without repetition holding exactly the files
    tagged somewhere in the subtree, so a file tagged at two depths counts
    once, and it does not exceed the length of any list without repetition
    that holds those files. *)
Theorem getTotalNoteCount_is_union_size (node : TagTreeNode) (cache : NoteCountCache) :
  cacheSound cache ->
  let count := fst (getTotalNoteCount node cache) in
  count = length (nodup string_dec (taggedFiles node))
  /\ cacheSound (snd (getTotalNoteCount node cache))
  /\ (exists files,
        NoDup files
        /\ (forall f, In f files <->
                      exists n, In n (subtreeNodes node) /\ In f (notesWithTag n))
        /\ count = length files)
  /\ (forall distinct,
        NoDup distinct ->
        (forall n f, In n (subtreeNodes node) -> In f (notesWithTag n) -> In f distinct) ->
        count <= length distinct)
  /\ (forall (filters : FileFilters) (Metadata : Type)
             (db : MemoryFileCache.t Metadata) excludedFolderPatterns cache0,
        cacheSound (snd (buildTagTreeFromDatabase db excludedFolderPatterns cache0))).
Proof.
  intros Hsound. cbv zeta.
  assert (Hcount : fst (getTotalNoteCount node cache)
                   = length (nodup string_dec (taggedFiles node))
                   /\ cacheSound (snd (getTotalNoteCount node cache))).
  { unfold getTotalNoteCount, getNoteCountCache.
    destruct cache as [m|].
    - destruct (weakMapGet node m) as [cached|] eqn:E; simpl.
      + split; [|exact Hsound]. apply weakMapGet_In in E. now apply Hsound.
      + split; [apply collected_size|].
        rewrite weakMapSet_fresh by exact E.
        intros n c Hin. apply in_app_or in Hin as [Hin|[[= <- <-]|[]]].
        * now apply Hsound.
        * apply collected_size.
    - simpl. split; [apply collected_size|].
      intros n c [[= <- <-]|[]]. apply collected_size. }
  destruct Hcount as [Hcount Hsound'].
  split; [exact Hcount|]. split; [exact Hsound'|].
  split.
  { exists (nodup string_dec (taggedFiles node)).
    split; [apply NoDup_nodup|]. split; [|exact Hcount].
    intros f. rewrite nodup_In. unfold taggedFiles. rewrite in_flat_map. tauto. }
  split.
  { intros distinct Hnd Hcover. rewrite Hcount.
    apply NoDup_incl_length; [apply NoDup_nodup|].
    intros f Hf. apply nodup_In in Hf. unfold taggedFiles in Hf.
    apply in_flat_map in Hf as [n [Hn Hf]]. eauto. }
  intros filters Metadata db excl cache0. exact I.
Qed.

End CountFacts.

(** ** Examples *)

Module Examples.

Import JsString TagTree TagTreeSpec PatternSpec PatternFacts MemoryFileCache ExampleData.

Example build_nested :
  buildTagTreeFromDatabase (mirrorOf nestedRecords) None None
  = (Some {| tree := [("project", projectNode)]; untagged := 0 |}, None).
Proof. vm_compute. reflexivity. Qed.

Example count_nested :
  fst (getTotalNoteCount projectNode None) = 2
  /\ length (notesWithTag projectNode) + length (notesWithTag subNode) = 3.
Proof. split; reflexivity. Qed.

Example patterns_of_the_spec :
  map (fun subject => (matchesValue subject "/^foo.*$/", matchesValue subject "foo*"))
      ["foobar"; "barfoo"]
  = [(true, true); (false, false)].
Proof. vm_compute. reflexivity. Qed.

(** C1, the claim as stated fails.  In the tree built from a note tagged
    "project" and "project/sub", the node "project/sub" is found and its
    own path does not match the pattern "project"; after
    [excludeFromTagTree(tree, ["project"])] it is gone with its parent. *)
Lemma excludeFromTagTree_drops_the_subtree :
  exists res,
    buildTagTreeFromDatabase (mirrorOf nestedRecords) None None = (Some res, None)
    /\ (exists sub,
          findTagNode (tree res) "project/sub" = Some sub
          /\ path sub = "project/sub"
          /\ matchesValue (path sub) "project" = false)
    /\ exists out result,
         excludeFromTagTree (tree res) ["project"] = (Normal result, out)
         /\ result = []
         /\ findTagNode result "project/sub" = None.
Proof.
  eexists. split; [exact build_nested|]. split.
  - exists subNode. repeat split; vm_compute; reflexivity.
  - eexists _, _. split; [vm_compute; reflexivity|]. split; reflexivity.
Qed.

(** C2, the claim as stated fails.  In the tree built from a note tagged
    "project/sub", the node "project/sub" is found and its own path matches
    the include pattern "project/sub"; [filterTagTree(tree,
    ["project/sub"])] keeps nothing. *)
Lemma filterTagTree_ignores_nested_paths :
  exists res,
    buildTagTreeFromDatabase
      (mirrorOf [("notes/a.md", tagged ["#project/sub"])]) None None
    = (Some res, None)
    /\ (exists sub,
          findTagNode (tree res) "project/sub" = Some sub
          /\ path sub = "project/sub"
          /\ matchesValue (path sub) "project/sub" = true)
    /\ exists out result,
         filterTagTree (tree res) ["project/sub"] = (Normal result, out)
         /\ result = []
         /\ findTagNode result "project/sub" = None.
Proof.
  eexists. split; [vm_compute; reflexivity|]. split.
  - eexists. repeat split; vm_compute; reflexivity.
  - eexists _, _. split; [vm_compute; reflexivity|]. split; reflexivity.
Qed.

(** C4, the claim as stated fails.  The scan meets "pRoJect/x", then
    "Project", then "project".  The two raw tags that differ only by case
    give one node, but it shows neither the first met of them, "Project",
    nor the other: it shows "pRoJect", the casing of the ancestor prefix
    met before. *)
Lemma casing_of_an_earlier_prefix_stays :
  let records :=
    [("notes/a.md", tagged ["#pRoJect/x"]);
     ("notes/b.md", tagged ["#Project"]);
     ("notes/c.md", tagged ["#project"])] in
  scannedTags (TagTree.getAllFiles (mirrorOf records)) None
  = ["pRoJect/x"; "Project"; "project"]
  /\ exists res,
       buildTagTreeFromDatabase (mirrorOf records) None None = (Some res, None)
       /\ exists node,
            JsMap.get "project" (tree res) = Some node
            /\ findTagNode (tree res) "Project" = Some node
            /\ findTagNode (tree res) "project" = Some node
            /\ name node = "pRoJect" /\ path node = "pRoJect"
            /\ path node <> "Project" /\ path node <> "project".
Proof.
  cbv zeta. split; [vm_compute; reflexivity|].
  eexists. split; [vm_compute; reflexivity|].
  eexists. repeat split; try (vm_compute; reflexivity); vm_compute; discriminate.
Qed.

(** C6, the claim as stated fails.  Two records have an empty, non-null
    tag list; the one in the excluded folder "archive" is skipped before
    its tags are looked at, and the build counts one untagged file. *)
Lemma excluded_empty_tag_list_is_not_counted :
  let records := [("archive/a.md", tagged []); ("notes/b.md", tagged [])] in
  map (fun entry => FileData.tags (snd entry)) (TagTree.getAllFiles (mirrorOf records))
  = [Some []; Some []]
  /\ length (filter hasEmptyTagList (TagTree.getAllFiles (mirrorOf records))) = 2
  /\ @isPathInExcludedFolder FolderFilterExample.foldersByPrefix
       "archive/a.md" ["archive"] = true
  /\ @isPathInExcludedFolder FolderFilterExample.foldersByPrefix
       "notes/b.md" ["archive"] = false
  /\ @buildTagTreeFromDatabase FolderFilterExample.foldersByPrefix unit
       (mirrorOf records) (Some ["archive"]) None
     = (Some {| tree := JsMap.empty; untagged := 1 |}, None).
Proof. cbv zeta. repeat split; vm_compute; reflexivity. Qed.

(** C10, the claim as stated fails.  The scan meets "A/b", then "a/B/c".
    The node with the path "a/B/c" hangs in the children of the node whose
    path is "A/b"; the immediate ancestor prefix of "a/B/c" is "a/B", and
    no node of the tree has that path. *)
Lemma parent_path_differs_by_case :
  exists res,
    buildTagTreeFromDatabase
      (mirrorOf [("notes/a.md", tagged ["#A/b"]); ("notes/b.md", tagged ["#a/B/c"])])
      None None
    = (Some res, None)
    /\ exists root parent node,
         tree res = [("a", root)]
         /\ In ("a/b", parent) (children root)
         /\ In ("a/b/c", node) (children parent)
         /\ path node = "a/B/c"
         /\ parentOf (path node) = "a/B"
         /\ path parent = "A/b"
         /\ path parent <> parentOf (path node)
         /\ collectAllTagPaths root JsSet.empty = ["A"; "A/b"; "a/B/c"].
Proof.
  eexists. split; [vm_compute; reflexivity|].
  eexists _, _, _. split; [reflexivity|].
  split; [left; reflexivity|]. split; [left; reflexivity|].
  repeat split; try (vm_compute; reflexivity). vm_compute. discriminate.
Qed.

(** The statements with hypotheses, at concrete inputs. *)

Lemma initialize_replaces_mirror_witness :
  NoDup (map fst nestedRecords)
  /\ getAllFilesWithPaths
       (initialize nestedRecords (mirrorOf [("old.md", tagged [])]))
     = nestedRecords.
Proof.
  assert (H : NoDup (map fst nestedRecords)).
  { repeat constructor; simpl; intuition discriminate. }
  split; [exact H|].
  exact (proj1 (@MemoryFileCacheFacts.initialize_replaces_mirror unit
                  nestedRecords (mirrorOf [("old.md", tagged [])]) H)).
Defined.

Lemma updateFileContent_absent_noop_witness :
  getFile "notes/missing.md" (mirrorOf nestedRecords) = None
  /\ updateFileContent "notes/missing.md"
       {| Updates.preview := Some (Some "x"); Updates.featureImage := None;
          Updates.metadata := None |}
       (mirrorOf nestedRecords)
     = mirrorOf nestedRecords.
Proof.
  assert (H : getFile "notes/missing.md" (mirrorOf nestedRecords) = None)
    by reflexivity.
  split; [exact H|].
  exact (proj1 (@MemoryFileCacheFacts.updateFileContent_absent_noop unit
                  "notes/missing.md" (mirrorOf nestedRecords) H) _).
Defined.

(** The text between the slashes is a lone star, a quantifier with
    nothing to repeat. *)
Lemma delimited_pattern_never_raises_witness :
  startsWith "/" (stripHash "/*/") = true
  /\ endsWith "/" (stripHash "/*/") = true
  /\ matchesTagPattern "project" "/*/"
     = (Normal false,
        [ConsoleError "Invalid regex pattern:" "/*/"
           (SyntaxError "Invalid regular expression")]).
Proof.
  split; [reflexivity|]. split; [reflexivity|].
  exact (proj1 (proj2 (@delimited_pattern_never_raises referenceRegExp
                         "project" "/*/" eq_refl eq_refl))
               (SyntaxError "Invalid regular expression") eq_refl).
Defined.

Lemma excludeFromTagTree_top_level_witness :
  JsMap.wf [("project", projectNode); ("project/sub", subNode)]
  /\ exists out,
       excludeFromTagTree [("project", projectNode); ("project/sub", subNode)]
                          ["project"]
       = (Normal [("project/sub", subNode)], out).
Proof.
  assert (H : JsMap.wf [("project", projectNode); ("project/sub", subNode)]).
  { repeat constructor; simpl; intuition discriminate. }
  split; [exact H|].
  exact (proj1 (proj2 (@excludeFromTagTree_top_level referenceRegExp _ ["project"] H))
               projectNode subNode eq_refl eq_refl).
Defined.

Lemma filterTagTree_top_level_witness :
  JsMap.wf [("project", projectNode)]
  /\ ["project*"] <> []
  /\ exists out result,
       filterTagTree [("project", projectNode)] ["project*"] = (Normal result, out)
       /\ JsMap.get "project" result = Some projectNode
       /\ forall key child,
            In (key, child) (children projectNode) -> Reachable result key child.
Proof.
  assert (H : JsMap.wf [("project", projectNode)]).
  { repeat constructor; simpl; intuition. }
  assert (N : ["project*"] <> (@nil string)) by discriminate.
  split; [exact H|]. split; [exact N|].
  exact (proj1 (proj2 (proj2 (proj2 (@filterTagTree_top_level referenceRegExp
                                       _ ["project*"] H N))))
               projectNode eq_refl eq_refl eq_refl).
Defined.

Lemma getTotalNoteCount_is_union_size_witness :
  cacheSound (snd (buildTagTreeFromDatabase (mirrorOf nestedRecords) None None))
  /\ fst (getTotalNoteCount projectNode
            (snd (buildTagTreeFromDatabase (mirrorOf nestedRecords) None None)))
     = length (nodup string_dec (taggedFiles projectNode)).
Proof.
  assert (H : cacheSound
                (snd (buildTagTreeFromDatabase (mirrorOf nestedRecords) None None)))
    by exact I.
  split; [exact H|].
  exact (proj1 (@CountFacts.getTotalNoteCount_is_union_size projectNode _ H)).
Defined.

End Examples.


(** ** More about [JsMap] *)

Module JsMapMore.

Section Facts.
Variable V : Type.
Implicit Types (m : JsMap.t V) (k : string) (v : V).

Lemma delete_absent m k : JsMap.get k m = None -> JsMap.delete k m = m.
Proof.
  induction m as [|[k' v'] r IH]; simpl; [reflexivity|].
  destruct (String.eqb k k'); [discriminate|].
  intros H. now rewrite IH.
Qed.

Lemma get_delete_other m k k' :
  k' <> k -> JsMap.get k' (JsMap.delete k m) = JsMap.get k' m.
Proof.
  intros Hne. induction m as [|[k0 v0] r IH]; simpl; [reflexivity|].
  destruct (String.eqb_spec k k0) as [->|Hk]; simpl.
  - destruct (String.eqb_spec k' k0); [contradiction|reflexivity].
  - destruct (String.eqb k' k0); [reflexivity|exact IH].
Qed.

Lemma In_keys_delete m k x :
  In x (JsMap.keys (JsMap.delete k m)) -> In x (JsMap.keys m).
Proof.
  unfold JsMap.keys. induction m as [|[k0 v0] r IH]; simpl; [tauto|].
  destruct (String.eqb k k0); simpl; tauto.
Qed.

Lemma wf_delete m k : JsMap.wf m -> JsMap.wf (JsMap.delete k m).
Proof.
  unfold JsMap.wf. induction m as [|[k0 v0] r IH]; simpl; intros H; [constructor|].
  inversion H as [|? ? Hnotin Hnd]; subst.
  destruct (String.eqb k k0); [exact Hnd|]. simpl.
  constructor; [|auto].
  intros Hin. apply Hnotin. eapply In_keys_delete; eauto.
Qed.

Lemma get_delete_same m k : JsMap.wf m -> JsMap.get k (JsMap.delete k m) = None.
Proof.
  unfold JsMap.wf. induction m as [|[k0 v0] r IH]; simpl; intros H; [reflexivity|].
  inversion H as [|? ? Hnotin Hnd]; subst.
  destruct (String.eqb_spec k k0) as [->|Hk]; simpl.
  - now apply JsMapFacts.get_None.
  - destruct (String.eqb_spec k k0); [contradiction|auto].
Qed.

Lemma length_delete m k :
  JsMap.get k m <> None -> S (length (JsMap.delete k m)) = length m.
Proof.
  induction m as [|[k0 v0] r IH]; simpl; [congruence|].
  destruct (String.eqb k k0); simpl; [reflexivity|].
  intros H. now rewrite IH.
Qed.

Lemma get_fold_set (l : list (string * V)) m k :
  JsMap.get k (fold_left (fun acc '(p, v) => JsMap.set p v acc) l m)
  = match JsMap.get k (rev l) with
    | Some v => Some v
    | None => JsMap.get k m
    end.
Proof.
  revert m. induction l as [|[p v] r IH]; intros m; simpl; [reflexivity|].
  rewrite IH, JsMapFacts.get_app, JsMapFacts.get_set. simpl.
  destruct (JsMap.get k (rev r)); [reflexivity|].
  destruct (String.eqb k p); reflexivity.
Qed.

Lemma wf_fold_set (l : list (string * V)) m :
  JsMap.wf m -> JsMap.wf (fold_left (fun acc '(p, v) => JsMap.set p v acc) l m).
Proof.
  revert m. induction l as [|[p v] r IH]; intros m H; simpl; [exact H|].
  apply IH. now apply JsMapFacts.wf_set.
Qed.

Lemma keys_map_values (f : V -> V) m :
  JsMap.keys (map (fun '(p, v) => (p, f v)) m) = JsMap.keys m.
Proof.
  unfold JsMap.keys. rewrite map_map. apply map_ext. now intros [p v].
Qed.

Lemma length_set m k v :
  length (JsMap.set k v m) = if JsMap.has k m then length m else S (length m).
Proof.
  pose proof (JsMapFacts.keys_set m k v) as H.
  apply (f_equal (@length string)) in H. unfold JsMap.keys in H.
  rewrite length_map in H. rewrite H.
  destruct (JsMap.has k m); rewrite ?length_app, length_map; simpl; lia.
Qed.

End Facts.

End JsMapMore.

(** ** More about the memory mirror *)

Module MirrorExtras.

Import MemoryFileCache MirrorSpec.

Section Facts.
Variable Metadata : Type.
Local Abbreviation FileData := (FileData.t Metadata).
Local Abbreviation Cache := (MemoryFileCache.t Metadata).
Local Abbreviation Updates := (MemoryFileCache.Updates.t Metadata).

(** The mirror after a history of calls on a new mirror. *)
Local Abbreviation after history := (performAll history (create Metadata)).

Lemma wf_updateFileContent path (u : Updates) (c : Cache) :
  JsMap.wf (memoryMap c) -> JsMap.wf (memoryMap (updateFileContent path u c)).
Proof.
  intros H. unfold updateFileContent.
  destruct (JsMap.get path (memoryMap c)); simpl; [|exact H].
  now apply JsMapFacts.wf_set.
Qed.

Lemma wf_batchUpdateFileContent (us : list (string * Updates)) (c : Cache) :
  JsMap.wf (memoryMap c) -> JsMap.wf (memoryMap (batchUpdateFileContent us c)).
Proof.
  unfold batchUpdateFileContent. revert c.
  induction us as [|[p u] r IH]; intros c H; simpl; [exact H|].
  apply IH. now apply wf_updateFileContent.
Qed.

Lemma wf_perform (call : Call Metadata) (c : Cache) :
  JsMap.wf (memoryMap c) -> JsMap.wf (memoryMap (perform call c)).
Proof.
  intros H. destruct call as [fs|p d|p u|p|us|us|k|]; simpl.
  - apply JsMapMore.wf_fold_set. constructor.
  - now apply JsMapFacts.wf_set.
  - now apply wf_updateFileContent.
  - now apply JsMapMore.wf_delete.
  - now apply JsMapMore.wf_fold_set.
  - now apply wf_batchUpdateFileContent.
  - unfold JsMap.wf. now rewrite JsMapMore.keys_map_values.
  - constructor.
Qed.

Lemma wf_after (history : list (Call Metadata)) : JsMap.wf (memoryMap (after history)).
Proof.
  unfold performAll.
  assert (G : forall c : Cache,
             JsMap.wf (memoryMap c) ->
             JsMap.wf (memoryMap (fold_left (fun c' call => perform call c') history c))).
  { induction history as [|call r IH]; intros c H; simpl; [exact H|].
    apply IH. now apply wf_perform. }
  apply G. constructor.
Qed.

Lemma getFile_hasFile p (c : Cache) : getFile p c = None <-> hasFile p c = false.
Proof.
  unfold getFile, hasFile, JsMap.has.
  destruct (JsMap.get p (memoryMap c)); split; congruence.
Qed.

(** X1.  After any history of calls on a new mirror, no path is listed
    twice by [getAllFilesWithPaths()]; [getAllFiles()] and the [fileCount]
    of [getStats()] have the length of that list, the memory estimate is
    300 times the count, and [hasFile] holds exactly of the listed paths,
    which are those [getFile] finds a record for. *)
Theorem mirror_lists_each_path_once (history : list (Call Metadata)) :
  let c := after history in
  NoDup (map fst (getAllFilesWithPaths c))
  /\ length (getAllFiles c) = length (getAllFilesWithPaths c)
  /\ fst (getStats c) = length (getAllFilesWithPaths c)
  /\ snd (getStats c) = 300 * length (getAllFilesWithPaths c)
  /\ (forall p, hasFile p c = true <-> In p (map fst (getAllFilesWithPaths c)))
  /\ (forall p d, getFile p c = Some d <-> In (p, d) (getAllFilesWithPaths c)).
Proof.
  cbv zeta. pose proof (wf_after history) as Hwf.
  split; [exact Hwf|].
  split; [unfold getAllFiles, getAllFilesWithPaths, JsMap.values, JsMap.entries;
          now rewrite length_map|].
  split; [reflexivity|].
  split; [unfold getStats, JsMap.size, getAllFilesWithPaths, JsMap.entries; simpl; lia|].
  split.
  - intros p. apply JsMapFacts.has_true.
  - intros p d. split; [apply JsMapFacts.get_In|now apply JsMapFacts.In_get].
Qed.

Lemma getFile_perform_plain (call : Call Metadata) (c : Cache) p :
  JsMap.wf (memoryMap c) ->
  isPlainWrite call = true ->
  getFile p (perform call c)
  = match writeTo p call with
    | Some w => w
    | None => getFile p c
    end.
Proof.
  intros Hwf Hplain. unfold getFile.
  destruct call as [fs|q d|q u|q|us|us|k|]; simpl in *; try discriminate.
  - rewrite JsMapFacts.get_set, String.eqb_sym.
    destruct (String.eqb q p); reflexivity.
  - destruct (String.eqb_spec q p) as [->|Hne].
    + now apply JsMapMore.get_delete_same.
    + apply JsMapMore.get_delete_other. congruence.
Qed.

(** X2.  On a mirror reached by any history of calls, after a further
    sequence of [updateFile] and [deleteFile] calls, [getFile(path)]
    answers with the most recent write to that path in the sequence: the
    record of the last [updateFile], nothing after a last [deleteFile], and
    what the mirror held before when the sequence has no write to the
    path. *)
Theorem getFile_reflects_last_write
    (history calls : list (Call Metadata)) (path : string) :
  forallb (@isPlainWrite Metadata) calls = true ->
  getFile path (performAll calls (after history))
  = match lastWrite path calls with
    | Some w => w
    | None => getFile path (after history)
    end.
Proof.
  pose proof (wf_after history) as Hwf. revert Hwf.
  generalize (after history) as c.
  unfold performAll.
  induction calls as [|call r IH]; intros c Hwf Hall; simpl; [reflexivity|].
  simpl in Hall. apply andb_prop in Hall as [Hcall Hr].
  rewrite IH; [|now apply wf_perform|exact Hr].
  destruct (lastWrite path r); [reflexivity|].
  now apply getFile_perform_plain.
Qed.

(** X3.  [updateFile(path, data)] upserts in place: afterwards [getFile]
    finds [data] under the path and what it found before under any other
    path; a path that had a record keeps its position in the listing and
    the count stays, a new path goes last and the count grows by one.  The
    ready flag is not touched. *)
Theorem updateFile_upserts_in_place (path : string) (data : FileData) (c : Cache) :
  getFile path (updateFile path data c) = Some data
  /\ (forall q, q <> path -> getFile q (updateFile path data c) = getFile q c)
  /\ map fst (getAllFilesWithPaths (updateFile path data c))
     = (if hasFile path c then map fst (getAllFilesWithPaths c)
        else map fst (getAllFilesWithPaths c) ++ [path])
  /\ fst (getStats (updateFile path data c))
     = (if hasFile path c then fst (getStats c) else S (fst (getStats c)))
  /\ isReady (updateFile path data c) = isReady c.
Proof.
  unfold getFile, updateFile, hasFile, getAllFilesWithPaths, JsMap.entries,
    getStats, JsMap.size, isReady. simpl.
  split; [apply JsMapFacts.get_set_same|].
  split; [intros q Hq; now apply JsMapFacts.get_set_other|].
  split; [apply JsMapFacts.keys_set|].
  split; [apply JsMapMore.length_set|reflexivity].
Qed.

(** X4.  On a mirror reached by any history of calls, [deleteFile(path)]
    removes the record of that path and nothing else: [getFile] then finds
    nothing under the path and what it found before under every other
    path.  When the path had no record the mirror is left exactly as it
    was; otherwise the count drops by one.  Deleting twice is deleting
    once, and the ready flag is not touched. *)
Theorem deleteFile_removes_one_path (history : list (Call Metadata)) (path : string) :
  let c := after history in
  getFile path (deleteFile path c) = None
  /\ (forall q, q <> path -> getFile q (deleteFile path c) = getFile q c)
  /\ (getFile path c = None -> deleteFile path c = c)
  /\ (getFile path c <> None ->
      S (fst (getStats (deleteFile path c))) = fst (getStats c))
  /\ deleteFile path (deleteFile path c) = deleteFile path c
  /\ isReady (deleteFile path c) = isReady c.
Proof.
  cbv zeta. pose proof (wf_after history) as Hwf.
  generalize dependent (after history). intros c Hwf.
  unfold getFile, deleteFile, getStats, JsMap.size, isReady. simpl.
  split; [now apply JsMapMore.get_delete_same|].
  split; [intros q Hq; now apply JsMapMore.get_delete_other|].
  split.
  { intros H. rewrite JsMapMore.delete_absent by exact H. now destruct c. }
  split; [apply JsMapMore.length_delete|].
  split; [|reflexivity].
  f_equal. apply JsMapMore.delete_absent. now apply JsMapMore.get_delete_same.
Qed.

Lemma get_fold_lastRecord (records : list (string * FileData)) m p :
  JsMap.get p (fold_left (fun acc '(q, d) => JsMap.set q d acc) records m)
  = match lastRecord p records with
    | Some d => Some d
    | None => JsMap.get p m
    end.
Proof.
  revert m. induction records as [|[q d] r IH]; intros m; simpl; [reflexivity|].
  rewrite IH. destruct (lastRecord p r); [reflexivity|].
  rewrite JsMapFacts.get_set, String.eqb_sym.
  destruct (String.eqb q p); reflexivity.
Qed.

Lemma In_keys_fold_set (records : list (string * FileData)) m p :
  In p (JsMap.keys (fold_left (fun acc '(q, d) => JsMap.set q d acc) records m))
  <-> In p (JsMap.keys m) \/ In p (map fst records).
Proof.
  revert m. induction records as [|[q d] r IH]; intros m; simpl; [tauto|].
  rewrite IH, JsMapFacts.keys_set.
  destruct (JsMap.has q m) eqn:E.
  - apply JsMapFacts.has_true in E. intuition (subst; auto).
  - rewrite in_app_iff. simpl. intuition (subst; auto).
Qed.

(** X5.  A batch that names a path more than once leaves the last of its
    records under it: after [batchUpdate(records)], [getFile(path)] is the
    last record of the batch for the path, or what the mirror had when the
    batch has none; after [initialize(records)] it is the last record of
    the batch and nothing else, and the count is the number of distinct
    paths of the batch.  [batchUpdate] is [updateFile] on each entry in
    turn. *)
Theorem batch_last_record_wins (records : list (string * FileData)) (c : Cache) :
  (forall p,
     getFile p (batchUpdate records c)
     = match lastRecord p records with
       | Some d => Some d
       | None => getFile p c
       end)
  /\ (forall p, getFile p (initialize records c) = lastRecord p records)
  /\ fst (getStats (initialize records c))
     = length (nodup string_dec (map fst records))
  /\ batchUpdate records c
     = performAll (map (fun e => CallUpdateFile (fst e) (snd e)) records) c.
Proof.
  split; [|split; [|split]].
  - intros p. unfold getFile, batchUpdate. simpl. apply get_fold_lastRecord.
  - intros p. unfold getFile, initialize. simpl.
    rewrite get_fold_lastRecord. now destruct (lastRecord p records).
  - unfold getStats, initialize, JsMap.size. simpl.
    rewrite <- (length_map fst).
    apply Permutation_length. apply NoDup_Permutation.
    + apply (@JsMapMore.wf_fold_set _ records []). constructor.
    + apply NoDup_nodup.
    + intros p. rewrite nodup_In.
      pose proof (In_keys_fold_set records [] p) as H. unfold JsMap.keys in H.
      simpl in H. tauto.
  - unfold performAll, batchUpdate. revert c.
    induction records as [|[q d] r IH]; intros c; simpl.
    + now destruct c.
    + rewrite <- IH. reflexivity.
Qed.

Lemma get_getFiles_from (paths : list string) (c : Cache) acc p :
  JsMap.get p
    (fold_left
       (fun result path =>
          match JsMap.get path (memoryMap c) with
          | Some file => JsMap.set path file result
          | None => result
          end) paths acc)
  = if existsb (String.eqb p) paths
    then match getFile p c with
         | Some file => Some file
         | None => JsMap.get p acc
         end
    else JsMap.get p acc.
Proof.
  unfold getFile. revert acc.
  induction paths as [|q r IH]; intros acc; simpl; [reflexivity|].
  rewrite IH.
  destruct (String.eqb_spec p q) as [->|Hne]; simpl.
  - destruct (JsMap.get q (memoryMap c)) as [file|] eqn:E.
    + rewrite JsMapFacts.get_set_same. now destruct (existsb (String.eqb q) r).
    + now destruct (existsb (String.eqb q) r).
  - destruct (JsMap.get q (memoryMap c)) as [file|] eqn:E; [|reflexivity].
    now rewrite JsMapFacts.get_set_other.
Qed.

Lemma getFiles_from_fresh (paths : list string) (c : Cache) acc :
  NoDup (JsMap.keys acc ++ paths) ->
  JsMap.keys
    (fold_left
       (fun result path =>
          match JsMap.get path (memoryMap c) with
          | Some file => JsMap.set path file result
          | None => result
          end) paths acc)
  = JsMap.keys acc ++ filter (fun path => hasFile path c) paths.
Proof.
  unfold hasFile, JsMap.has. revert acc.
  induction paths as [|q r IH]; intros acc Hnd; simpl; [now rewrite app_nil_r|].
  assert (Hq : ~ In q (JsMap.keys acc)).
  { intros Hin. apply NoDup_remove_2 in Hnd. apply Hnd. apply in_or_app. now left. }
  destruct (JsMap.get q (memoryMap c)) as [file|] eqn:E.
  - rewrite IH.
    + rewrite JsMapFacts.keys_set.
      destruct (JsMap.has q acc) eqn:Eh.
      * apply JsMapFacts.has_true in Eh. contradiction.
      * now rewrite <- app_assoc.
    + rewrite JsMapFacts.keys_set.
      destruct (JsMap.has q acc) eqn:Eh.
      * apply JsMapFacts.has_true in Eh. contradiction.
      * rewrite <- app_assoc. exact Hnd.
  - apply IH. now apply NoDup_remove_1 in Hnd.
Qed.

Lemma wf_getFiles_from (paths : list string) (c : Cache) acc :
  JsMap.wf acc ->
  JsMap.wf
    (fold_left
       (fun result path =>
          match JsMap.get path (memoryMap c) with
          | Some file => JsMap.set path file result
          | None => result
          end) paths acc).
Proof.
  revert acc. induction paths as [|q r IH]; intros acc H; simpl; [exact H|].
  apply IH. destruct (JsMap.get q (memoryMap c)); [|exact H].
  now apply JsMapFacts.wf_set.
Qed.

(** X6.  [getFiles(paths)] answers with the records of the paths it was
    given that the mirror has, and with nothing else: a path is in the
    result exactly when it is among [paths] and has a record, and it is
    bound to that record.  Paths without a record are skipped, a path given
    twice appears once, and for distinct paths the result lists the present
    ones in the order given. *)
Theorem getFiles_selects_present_paths (paths : list string) (c : Cache) :
  (forall p,
     JsMap.get p (getFiles paths c)
     = if existsb (String.eqb p) paths then getFile p c else None)
  /\ NoDup (JsMap.keys (getFiles paths c))
  /\ JsMap.size (getFiles paths c) <= length paths
  /\ (NoDup paths ->
      JsMap.keys (getFiles paths c) = filter (fun path => hasFile path c) paths).
Proof.
  split; [|split; [|split]].
  - intros p. unfold getFiles. rewrite get_getFiles_from. simpl.
    destruct (existsb (String.eqb p) paths); [|reflexivity].
    now destruct (getFile p c).
  - apply wf_getFiles_from. constructor.
  - unfold JsMap.size. rewrite <- (length_map fst).
    apply NoDup_incl_length.
    + apply (@wf_getFiles_from paths c []). constructor.
    + intros p Hin. apply JsMapFacts.In_key_get in Hin as [v Hv].
      unfold getFiles in Hv. rewrite get_getFiles_from in Hv.
      destruct (existsb (String.eqb p) paths) eqn:E; [|discriminate].
      apply existsb_exists in E as [q [Hq Hpq]].
      apply String.eqb_eq in Hpq. now subst.
  - intros Hnd. unfold getFiles. now rewrite getFiles_from_fresh.
Qed.

Lemma clearContent_twice (k k' : Kind.t) (file : FileData) :
  clearContent k (clearContent k' file) = clearContent k' (clearContent k file).
Proof. destruct k, k'; reflexivity. Qed.

Lemma clearAllFileContent_map (f g : FileData -> FileData) (m : JsMap.t FileData) :
  map (fun '(path, file) => (path, f file)) (map (fun '(path, file) => (path, g file)) m)
  = map (fun '(path, file) => (path, f (g file))) m.
Proof. rewrite map_map. apply map_ext. now intros [p v]. Qed.

(** X7.  The content kinds of [clearAllFileContent] are independent:
    clearing ["all"] is clearing the three kinds one after the other,
    clearing a kind twice is clearing it once, two clearings give the same
    mirror in either order, and clearing ["all"] absorbs any other.  No
    clearing changes the tags of a record.  Afterwards [hasPreview] is
    false on every path for the kinds ["preview"] and ["all"], and what it
    was for the other two. *)
Theorem clearAllFileContent_kinds_compose (c : Cache) :
  clearAllFileContent Kind.all c
  = clearAllFileContent Kind.preview
      (clearAllFileContent Kind.featureImage
         (clearAllFileContent Kind.metadata c))
  /\ (forall k, clearAllFileContent k (clearAllFileContent k c) = clearAllFileContent k c)
  /\ (forall k k',
        clearAllFileContent k (clearAllFileContent k' c)
        = clearAllFileContent k' (clearAllFileContent k c))
  /\ (forall k,
        clearAllFileContent Kind.all (clearAllFileContent k c)
        = clearAllFileContent Kind.all c)
  /\ (forall k,
        map (@FileData.tags Metadata) (getAllFiles (clearAllFileContent k c))
        = map (@FileData.tags Metadata) (getAllFiles c))
  /\ (forall k p,
        hasPreview p (clearAllFileContent k c)
        = match k with
          | Kind.preview | Kind.all => false
          | _ => hasPreview p c
          end).
Proof.
  unfold clearAllFileContent. simpl.
  split; [|split; [|split; [|split; [|split]]]].
  - f_equal. rewrite !clearAllFileContent_map. apply map_ext. now intros [p v].
  - intros k. f_equal. rewrite clearAllFileContent_map. apply map_ext.
    intros [p v]. now destruct k.
  - intros k k'. f_equal. rewrite !clearAllFileContent_map. apply map_ext.
    intros [p v]. now rewrite clearContent_twice.
  - intros k. f_equal. rewrite clearAllFileContent_map. apply map_ext.
    intros [p v]. now destruct k.
  - intros k. unfold getAllFiles, JsMap.values. simpl. rewrite !map_map.
    apply map_ext. now intros [p v].
  - intros k p. unfold hasPreview. simpl.
    rewrite MemoryFileCacheFacts.get_map_values.
    destruct (JsMap.get p (memoryMap c)) as [file|]; simpl; now destruct k.
Qed.

Lemma set_same (m : JsMap.t FileData) p d : JsMap.get p m = Some d -> JsMap.set p d m = m.
Proof.
  induction m as [|[k v] r IH]; simpl; [discriminate|].
  destruct (String.eqb_spec p k) as [->|Hne].
  - now intros [= ->].
  - intros H. now rewrite IH.
Qed.

Lemma set_set (m : JsMap.t FileData) p d d' :
  JsMap.set p d' (JsMap.set p d m) = JsMap.set p d' m.
Proof.
  induction m as [|[k v] r IH]; simpl.
  - now rewrite String.eqb_refl.
  - destruct (String.eqb p k) eqn:E; simpl; rewrite E; [reflexivity|now rewrite IH].
Qed.

(** X8.  [updateFileContent] on a path that has a record assigns the
    fields the [updates] object has and keeps the others: a field given as
    [null] is cleared, a field left out stays, and the tags always stay.
    The listing keeps its paths and their order.  An [updates] object with
    no field leaves the mirror exactly as it was, and two calls on the same
    path are one call with the two objects merged, the later one winning
    field by field. *)
Theorem updateFileContent_patches_fields
    (path : string) (existing : FileData) (c : Cache) :
  getFile path c = Some existing ->
  (forall updates,
     exists patched,
       getFile path (updateFileContent path updates c) = Some patched
       /\ FileData.tags patched = FileData.tags existing
       /\ FileData.preview patched
          = match Updates.preview updates with
            | Some v => v
            | None => FileData.preview existing
            end
       /\ FileData.featureImage patched
          = match Updates.featureImage updates with
            | Some v => v
            | None => FileData.featureImage existing
            end
       /\ FileData.metadata patched
          = match Updates.metadata updates with
            | Some v => v
            | None => FileData.metadata existing
            end)
  /\ (forall updates,
        map fst (getAllFilesWithPaths (updateFileContent path updates c))
        = map fst (getAllFilesWithPaths c))
  /\ updateFileContent path (noUpdates Metadata) c = c
  /\ (forall earlier later,
        updateFileContent path later (updateFileContent path earlier c)
        = updateFileContent path (mergeUpdates earlier later) c).
Proof.
  intros Hget. unfold getFile in Hget.
  split; [|split; [|split]].
  - intros updates. exists (applyUpdates updates existing).
    unfold getFile, updateFileContent. rewrite Hget. simpl.
    rewrite JsMapFacts.get_set_same. repeat split.
  - intros updates. apply MemoryFileCacheFacts.updateFileContent_keys.
  - unfold updateFileContent. rewrite Hget.
    replace (applyUpdates (noUpdates Metadata) existing) with existing
      by now destruct existing.
    rewrite set_same by exact Hget. now destruct c.
  - intros earlier later. unfold updateFileContent. rewrite Hget. simpl.
    rewrite JsMapFacts.get_set_same. simpl. rewrite set_set. f_equal. f_equal.
    unfold applyUpdates, mergeUpdates. simpl.
    destruct (Updates.preview later), (Updates.featureImage later),
      (Updates.metadata later); reflexivity.
Qed.

End Facts.

End MirrorExtras.

(** ** The mirror and shared records *)

Module SharedMirrorFacts.

Import SharedMirror.

Section Facts.
Variable Metadata : Type.
Local Abbreviation FileData := (FileData.t Metadata).
Local Abbreviation Mirror := (SharedMirror.t Metadata).
Local Abbreviation Updates := (MemoryFileCache.Updates.t Metadata).

Lemma get_snapshot (s : Mirror) p :
  MemoryFileCache.getFile p (snapshot s) = readFile p s.
Proof.
  unfold MemoryFileCache.getFile, readFile, getFile, snapshot. simpl.
  induction (memoryMap s) as [|[k r] m IH]; simpl; [reflexivity|].
  destruct (String.eqb p k); [reflexivity|exact IH].
Qed.

Lemma unshared_key (m : JsMap.t Ref) p q r :
  NoDup (JsMap.values m) -> In (p, r) m -> In (q, r) m -> p = q.
Proof.
  unfold JsMap.values.
  induction m as [|[k x] m IH]; simpl; [tauto|].
  intros Hnd Hp Hq. inversion Hnd as [|? ? Hnotin Hnd']; subst.
  destruct Hp as [Ep|Hp], Hq as [Eq|Hq].
  - congruence.
  - exfalso. apply Hnotin. injection Ep as _ ->. now apply (in_map snd) in Hq.
  - exfalso. apply Hnotin. injection Eq as _ ->. now apply (in_map snd) in Hp.
  - now apply IH.
Qed.

Lemma map_set_read (store store' : Ref -> FileData) (m : JsMap.t Ref) p r :
  JsMap.wf m ->
  JsMap.get p m = Some r ->
  (forall q x, In (q, x) m -> q <> p -> store' x = store x) ->
  map (fun '(path, file) => (path, store' file)) m
  = JsMap.set p (store' r) (map (fun '(path, file) => (path, store file)) m).
Proof.
  unfold JsMap.wf, JsMap.keys.
  induction m as [|[k x] m IH]; simpl; [discriminate|].
  intros Hwf Hget Hframe. inversion Hwf as [|? ? Hnotin Hwf']; subst.
  destruct (String.eqb_spec p k) as [->|Hne].
  - injection Hget as ->. f_equal.
    apply map_ext_in. intros [q y] Hin. f_equal.
    apply (Hframe q); [now right|].
    intros ->. apply Hnotin. now apply (in_map fst) in Hin.
  - f_equal.
    + f_equal. apply (Hframe k); [now left|congruence].
    + apply IH; [exact Hwf'|exact Hget|].
      intros q y Hin. apply Hframe. now right.
Qed.

Lemma map_read_set (store : Ref -> FileData) (m : JsMap.t Ref) p r :
  map (fun '(path, file) => (path, store file)) (JsMap.set p r m)
  = JsMap.set p (store r) (map (fun '(path, file) => (path, store file)) m).
Proof.
  induction m as [|[k x] m IH]; simpl; [reflexivity|].
  destruct (String.eqb p k); simpl; [reflexivity|now rewrite IH].
Qed.

Lemma map_read_delete (store : Ref -> FileData) (m : JsMap.t Ref) p :
  map (fun '(path, file) => (path, store file)) (JsMap.delete p m)
  = JsMap.delete p (map (fun '(path, file) => (path, store file)) m).
Proof.
  induction m as [|[k x] m IH]; simpl; [reflexivity|].
  destruct (String.eqb p k); simpl; [reflexivity|now rewrite IH].
Qed.

Lemma cleared_store (f : FileData -> FileData) (l : list Ref) (store : Ref -> FileData) r :
  (forall d, f (f d) = f d) ->
  fold_left (fun h file => assign file (f (h file)) h) l store r
  = if existsb (Nat.eqb r) l then f (store r) else store r.
Proof.
  intros Hf. revert store.
  induction l as [|a l IH]; intros store; simpl; [reflexivity|].
  rewrite IH. unfold assign.
  destruct (Nat.eqb_spec r a) as [->|Hne]; simpl.
  - rewrite Hf. now destruct (existsb (Nat.eqb a) l).
  - reflexivity.
Qed.

(** X9.  [updateFileContent] assigns to the stored object itself.  After
    a call on a path that holds the object [existing], every path that
    holds the same object reads the patched fields and every path that
    holds another object reads what it read before; the tags of every
    object are kept.  So when no object is stored under two paths, only
    the record of [path] changes. *)
Theorem updateFileContent_patches_shared_object
    (path : string) (updates : Updates) (existing : Ref) (s : Mirror) :
  getFile path s = Some existing ->
  let s' := updateFileContent path updates s in
  (forall q,
     readFile q s'
     = match getFile q s with
       | Some file =>
           if Nat.eqb file existing
           then Some (MemoryFileCache.applyUpdates updates (objects s existing))
           else Some (objects s file)
       | None => None
       end)
  /\ (forall file, FileData.tags (objects s' file) = FileData.tags (objects s file))
  /\ (forall q, getFile q s' = getFile q s)
  /\ (NoDup (JsMap.values (memoryMap s)) ->
      forall q, q <> path -> readFile q s' = readFile q s).
Proof.
  intros Hget. cbv zeta. unfold getFile in Hget.
  assert (Hread : forall q,
    readFile q (updateFileContent path updates s)
    = match getFile q s with
      | Some file =>
          if Nat.eqb file existing
          then Some (MemoryFileCache.applyUpdates updates (objects s existing))
          else Some (objects s file)
      | None => None
      end).
  { intros q. unfold readFile, getFile, updateFileContent. rewrite Hget. simpl.
    destruct (JsMap.get q (memoryMap s)) as [file|]; simpl; [|reflexivity].
    unfold assign. now destruct (Nat.eqb file existing). }
  split; [exact Hread|].
  split.
  { intros file. unfold updateFileContent. rewrite Hget. simpl. unfold assign.
    destruct (Nat.eqb_spec file existing) as [->|Hne]; reflexivity. }
  split.
  { intros q. unfold getFile, updateFileContent. now rewrite Hget. }
  intros Hnd q Hq. rewrite Hread. unfold readFile, getFile.
  destruct (JsMap.get q (memoryMap s)) as [file|] eqn:E; simpl; [|reflexivity].
  destruct (Nat.eqb_spec file existing) as [->|Hne]; [|reflexivity].
  exfalso. apply Hq.
  apply (@unshared_key (memoryMap s) q path existing Hnd);
    now apply JsMapFacts.get_In.
Qed.

(** X10.  Read as records under paths, the mirror with shared objects
    behaves as the mirror of records: [updateFile], [deleteFile] and
    [clearAllFileContent] give the same records on both, whatever is
    shared, and so does [updateFileContent] when no object is stored under
    two paths. *)
Theorem snapshot_commutes (s : Mirror) :
  JsMap.wf (memoryMap s) ->
  (forall p, MemoryFileCache.getFile p (snapshot s) = readFile p s)
  /\ (forall p data,
        snapshot (updateFile p data s)
        = MemoryFileCache.updateFile p (objects s data) (snapshot s))
  /\ (forall p,
        snapshot (deleteFile p s) = MemoryFileCache.deleteFile p (snapshot s))
  /\ (forall type,
        snapshot (clearAllFileContent type s)
        = MemoryFileCache.clearAllFileContent type (snapshot s))
  /\ (NoDup (JsMap.values (memoryMap s)) ->
      forall p updates,
        snapshot (updateFileContent p updates s)
        = MemoryFileCache.updateFileContent p updates (snapshot s)).
Proof.
  intros Hwf.
  split; [apply get_snapshot|].
  split.
  { intros p data. unfold snapshot, updateFile, MemoryFileCache.updateFile. simpl.
    f_equal. apply map_read_set. }
  split.
  { intros p. unfold snapshot, deleteFile, MemoryFileCache.deleteFile. simpl.
    f_equal. apply map_read_delete. }
  split.
  { intros type.
    unfold snapshot, clearAllFileContent, MemoryFileCache.clearAllFileContent. simpl.
    f_equal. rewrite map_map. apply map_ext_in. intros [p r] Hin. f_equal.
    rewrite cleared_store by (intros d; now destruct type).
    assert (E : existsb (Nat.eqb r) (JsMap.values (memoryMap s)) = true).
    { apply existsb_exists. exists r. split; [|apply Nat.eqb_refl].
      unfold JsMap.values. now apply (in_map snd) in Hin. }
    now rewrite E. }
  intros Hnd p updates.
  pose proof (get_snapshot s p) as Hsnap.
  unfold MemoryFileCache.getFile, readFile, getFile in Hsnap.
  unfold MemoryFileCache.updateFileContent. rewrite Hsnap.
  unfold updateFileContent.
  destruct (JsMap.get p (memoryMap s)) as [existing|] eqn:E; simpl; [|reflexivity].
  unfold snapshot. simpl. f_equal.
  rewrite (@map_set_read (objects s) _ (memoryMap s) p existing Hwf E).
  - unfold assign. now rewrite Nat.eqb_refl.
  - intros q x Hin Hq. unfold assign.
    destruct (Nat.eqb_spec x existing) as [->|Hne]; [|reflexivity].
    exfalso. apply Hq.
    apply (@unshared_key (memoryMap s) q p existing Hnd); [exact Hin|].
    now apply JsMapFacts.get_In.
Qed.

End Facts.

End SharedMirrorFacts.

(** ** Walking a tree: all paths, and the search by path *)

Module WalkFacts.

Import JsString JsStringFacts TagTree TagTreeSpec CountFacts.

Lemma collectAllTagPaths_eq (node : TagTreeNode) (paths : JsSet.t) :
  collectAllTagPaths node paths
  = fold_left (fun acc entry => collectAllTagPaths (snd entry) acc)
              (children node) (JsSet.add (path node) paths).
Proof.
  destruct node as [nm p cs ns]. simpl.
  generalize (JsSet.add p paths) as acc.
  induction cs as [|[k c] r IH]; intros acc; simpl; [reflexivity|].
  now rewrite IH.
Qed.

Lemma collectAllTagPaths_spec (node : TagTreeNode) :
  forall paths,
    NoDup paths ->
    NoDup (collectAllTagPaths node paths)
    /\ (forall p, In p (collectAllTagPaths node paths)
                  <-> In p paths \/ In p (map path (subtreeNodes node)))
    /\ exists added, collectAllTagPaths node paths = paths ++ added.
Proof.
  induction node as [n IH] using TagTreeNode_induction.
  intros paths Hnd. rewrite collectAllTagPaths_eq, subtreeNodes_eq.
  assert (G : forall acc,
             NoDup acc ->
             NoDup (fold_left (fun acc entry => collectAllTagPaths (snd entry) acc)
                              (children n) acc)
             /\ (forall p,
                   In p (fold_left (fun acc entry => collectAllTagPaths (snd entry) acc)
                                   (children n) acc)
                   <-> In p acc
                       \/ In p (map path
                                    (flat_map (fun entry => subtreeNodes (snd entry))
                                              (children n))))
             /\ exists added,
                  fold_left (fun acc entry => collectAllTagPaths (snd entry) acc)
                            (children n) acc = acc ++ added).
  { induction IH as [|[k c] r Hc _ IHr]; intros acc Hacc; simpl.
    - split; [exact Hacc|]. split; [tauto|]. exists []. now rewrite app_nil_r.
    - simpl in Hc. destruct (Hc acc Hacc) as [Hnd1 [Hin1 [add1 Hadd1]]].
      destruct (IHr _ Hnd1) as [Hnd2 [Hin2 [add2 Hadd2]]].
      split; [exact Hnd2|]. split.
      + intros p. rewrite Hin2, Hin1, map_app, in_app_iff. tauto.
      + exists (add1 ++ add2). rewrite Hadd2, Hadd1. now rewrite app_assoc. }
  destruct (G (JsSet.add (path n) paths) (add_NoDup _ Hnd)) as [H1 [H2 [added H3]]].
  split; [exact H1|]. split.
  - intros p. rewrite H2, add_In. simpl. intuition.
  - rewrite H3. unfold JsSet.add. destruct (JsSet.has (path n) paths).
    + now exists added.
    + exists ([path n] ++ added). now rewrite app_assoc.
Qed.

(** X11.  [collectAllTagPaths(node, paths)] adds to the set the path of
    the node and of every node below it, and nothing else: the set keeps
    what it held, in its order, and afterwards holds exactly those and
    the paths of the subtree, each once. *)
Theorem collectAllTagPaths_adds_subtree_paths (node : TagTreeNode) (paths : JsSet.t) :
  NoDup paths ->
  NoDup (collectAllTagPaths node paths)
  /\ (forall p,
        In p (collectAllTagPaths node paths)
        <-> In p paths \/ exists n, In n (subtreeNodes node) /\ path n = p)
  /\ (exists added, collectAllTagPaths node paths = paths ++ added)
  /\ JsSet.has (path node) (collectAllTagPaths node paths) = true.
Proof.
  intros Hnd. destruct (collectAllTagPaths_spec node Hnd) as [H1 [H2 H3]].
  split; [exact H1|]. split; [|split; [exact H3|]].
  - intros p. rewrite H2, in_map_iff.
    split; (intros [H|[n [Ha Hb]]]; [now left|right; exists n; auto]).
  - apply set_has_true. apply H2. right. apply in_map.
    rewrite subtreeNodes_eq. now left.
Qed.

Lemma subtree_child (root : TagTreeNode) :
  forall parent k n,
    In parent (subtreeNodes root) -> In (k, n) (children parent) ->
    In n (subtreeNodes root).
Proof.
  induction root as [root IH] using TagTreeNode_induction.
  intros parent k n Hp Hn. rewrite subtreeNodes_eq in Hp |- *.
  destruct Hp as [<-|Hp].
  - right. apply in_flat_map. exists (k, n). split; [exact Hn|].
    simpl. rewrite subtreeNodes_eq. now left.
  - right. apply in_flat_map in Hp as [[kc c] [Hc Hp]].
    apply in_flat_map. exists (kc, c). split; [exact Hc|].
    rewrite Forall_forall in IH. apply (IH (kc, c) Hc parent k n Hp Hn).
Qed.

Lemma reachable_in_subtree (tree : JsMap.t TagTreeNode) k n :
  Reachable tree k n ->
  exists k0 root, In (k0, root) tree /\ In n (subtreeNodes root).
Proof.
  induction 1 as [key node Hin|pkey parent key node _ [k0 [root [Hroot Hp]]] Hin].
  - exists key, node. split; [exact Hin|]. rewrite subtreeNodes_eq. now left.
  - exists k0, root. split; [exact Hroot|]. eapply subtree_child; eauto.
Qed.

Lemma subtree_reachable (tree : JsMap.t TagTreeNode) (root : TagTreeNode) :
  forall k0,
    Reachable tree k0 root ->
    forall n, In n (subtreeNodes root) -> exists k, Reachable tree k n.
Proof.
  induction root as [root IH] using TagTreeNode_induction.
  intros k0 Hroot n Hn. rewrite subtreeNodes_eq in Hn.
  destruct Hn as [<-|Hn]; [now exists k0|].
  apply in_flat_map in Hn as [[kc c] [Hc Hn]].
  rewrite Forall_forall in IH.
  apply (IH (kc, c) Hc kc); [|exact Hn].
  eapply reachable_below; eauto.
Qed.

(** X12.  The set the expand-all handler of the pane header builds from a
    tree holds the path of every node of the tree, at whatever depth, and
    nothing else; a path shared by several nodes is in it once. *)
Theorem expandAllTagPaths_holds_every_node (tree : JsMap.t TagTreeNode) :
  NoDup (Callers.expandAllTagPaths tree)
  /\ forall p,
       In p (Callers.expandAllTagPaths tree)
       <-> exists key node, Reachable tree key node /\ path node = p.
Proof.
  unfold Callers.expandAllTagPaths.
  assert (G : forall (l : list TagTreeNode) acc,
             NoDup acc ->
             NoDup (fold_left (fun a n => collectAllTagPaths n a) l acc)
             /\ forall p,
                  In p (fold_left (fun a n => collectAllTagPaths n a) l acc)
                  <-> In p acc
                      \/ exists root n,
                           In root l /\ In n (subtreeNodes root) /\ path n = p).
  { induction l as [|root l IH]; intros acc Hacc; simpl.
    - split; [exact Hacc|]. intros p. split; [tauto|].
      intros [H|[root [n [[] _]]]]. exact H.
    - destruct (collectAllTagPaths_spec root Hacc) as [H1 [H2 _]].
      destruct (IH _ H1) as [H3 H4]. split; [exact H3|].
      intros p. rewrite H4, H2, in_map_iff. split.
      + intros [[H|[n [Hp Hn]]]|[r [n [Hr [Hn Hp]]]]]; [now left| |].
        * right. exists root, n. auto.
        * right. exists r, n. auto.
      + intros [H|[r [n [[<-|Hr] [Hn Hp]]]]]; [now left; left| |].
        * left. right. exists n. auto.
        * right. exists r, n. auto. }
  destruct (G (JsMap.values tree) JsSet.empty (NoDup_nil _)) as [H1 H2].
  split; [exact H1|].
  intros p. rewrite H2. split.
  - intros [[]|[root [n [Hroot [Hn Hp]]]]].
    unfold JsMap.values in Hroot. apply in_map_iff in Hroot as [[k0 r] [E Hin]].
    simpl in E. subst r.
    destruct (@subtree_reachable tree root k0 (reachable_top _ _ _ Hin) n Hn) as [k Hk].
    exists k, n. auto.
  - intros [key [node [Hr Hp]]]. right.
    destruct (reachable_in_subtree Hr) as [k0 [root [Hroot Hn]]].
    exists root, node. split; [|auto].
    unfold JsMap.values. apply in_map_iff. exists (k0, root). auto.
Qed.

Lemma searchBelow_eq (lowerPath : string) (n : TagTreeNode) :
  searchBelow lowerPath n = searchNode lowerPath (children n).
Proof.
  destruct n as [nm p cs ns]. simpl.
  induction cs as [|[k c] r IH]; simpl; [reflexivity|]. now rewrite IH.
Qed.

Lemma reachable_incl (t t' : JsMap.t TagTreeNode) k x :
  (forall e, In e t -> In e t') -> Reachable t k x -> Reachable t' k x.
Proof.
  intros Hincl. induction 1 as [key node Hin|pkey parent key node _ IH Hin].
  - apply reachable_top. auto.
  - eapply reachable_below; eauto.
Qed.

Lemma reachable_lift (t : JsMap.t TagTreeNode) kn n k x :
  Reachable t kn n -> Reachable (children n) k x -> Reachable t k x.
Proof.
  intros Hn. induction 1 as [key node Hin|pkey parent key node _ IH Hin].
  - eapply reachable_below; eauto.
  - eapply reachable_below; eauto.
Qed.

Lemma reachable_cons_inv key node (r : JsMap.t TagTreeNode) k x :
  Reachable ((key, node) :: r) k x ->
  (k = key /\ x = node) \/ Reachable (children node) k x \/ Reachable r k x.
Proof.
  induction 1 as [k x Hin|pk parent k x _ IH Hin].
  - destruct Hin as [[= <- <-]|Hin]; [now left|].
    right. right. now apply reachable_top.
  - destruct IH as [[-> ->]|[IH|IH]].
    + right. left. now apply reachable_top.
    + right. left. eapply reachable_below; eauto.
    + right. right. eapply reachable_below; eauto.
Qed.

Lemma searchNode_sound (lowerPath : string) :
  forall (nodes : JsMap.t TagTreeNode) found,
    searchNode lowerPath nodes = Some found -> Reachable nodes lowerPath found.
Proof.
  assert (P : forall n found,
             searchNode lowerPath (children n) = Some found ->
             Reachable (children n) lowerPath found).
  { induction n as [n IH] using TagTreeNode_induction.
    induction IH as [|[k c] r Hc _ IHr]; intros found; simpl; [discriminate|].
    simpl in Hc.
    destruct (String.eqb_spec k lowerPath) as [->|Hne].
    - intros [= <-]. apply reachable_top. now left.
    - rewrite searchBelow_eq.
      destruct (searchNode lowerPath (children c)) as [x|] eqn:E.
      + intros [= <-]. apply (@reachable_lift _ k c).
        * apply reachable_top. now left.
        * now apply Hc.
      + intros H. apply (@reachable_incl r); [intros e He; now right|].
        now apply IHr. }
  induction nodes as [|[k c] r IHr]; intros found; simpl; [discriminate|].
  destruct (String.eqb_spec k lowerPath) as [->|Hne].
  - intros [= <-]. apply reachable_top. now left.
  - rewrite searchBelow_eq.
    destruct (searchNode lowerPath (children c)) as [x|] eqn:E.
    + intros [= <-]. apply (@reachable_lift _ k c).
      * apply reachable_top. now left.
      * now apply P.
    + intros H. apply (@reachable_incl r); [intros e He; now right|].
      now apply IHr.
Qed.

Lemma reachable_nil k x : ~ Reachable (@nil (string * TagTreeNode)) k x.
Proof. induction 1 as [? ? []|]; auto. Qed.

Lemma searchNode_complete (lowerPath : string) :
  forall (nodes : JsMap.t TagTreeNode) x,
    Reachable nodes lowerPath x -> searchNode lowerPath nodes <> None.
Proof.
  assert (P : forall n x,
             Reachable (children n) lowerPath x ->
             searchNode lowerPath (children n) <> None).
  { induction n as [n IH] using TagTreeNode_induction.
    induction IH as [|[k c] r Hc _ IHr]; intros x Hx.
    - exfalso. now apply reachable_nil in Hx.
    - simpl. simpl in Hc.
      destruct (String.eqb_spec k lowerPath) as [->|Hne]; [discriminate|].
      rewrite searchBelow_eq.
      destruct (searchNode lowerPath (children c)) as [y|] eqn:E; [discriminate|].
      apply reachable_cons_inv in Hx as [[E' _]|[Hx|Hx]].
      + congruence.
      + exfalso. now apply (Hc x).
      + now apply (IHr x). }
  induction nodes as [|[k c] r IHr]; intros x Hx.
  - exfalso. now apply reachable_nil in Hx.
  - simpl.
    destruct (String.eqb_spec k lowerPath) as [->|Hne]; [discriminate|].
    rewrite searchBelow_eq.
    destruct (searchNode lowerPath (children c)) as [y|] eqn:E; [discriminate|].
    apply reachable_cons_inv in Hx as [[E' _]|[Hx|Hx]].
    + congruence.
    + exfalso. now apply (P c x).
    + now apply (IHr x).
Qed.

Lemma substring_all (s : string) : String.substring 0 (String.length s) s = s.
Proof. induction s as [|c r IH]; simpl; [reflexivity|now rewrite IH]. Qed.

Lemma stripHash_marked (s : string) : stripHash (String "#" s) = s.
Proof.
  unfold stripHash, startsWith, substringFrom. simpl.
  rewrite Nat.sub_0_r.
  replace (String.prefix "" s) with true by now destruct s.
  apply substring_all.
Qed.

Lemma stripHash_unmarked (s : string) : startsWith "#" s = false -> stripHash s = s.
Proof. unfold stripHash. now intros ->. Qed.

Lemma toLowerChar_hash (c : ascii) : Ascii.eqb "#" (toLowerChar c) = Ascii.eqb "#" c.
Proof. destruct c as [[] [] [] [] [] [] [] []]; reflexivity. Qed.

Lemma startsWith_hash (s : string) :
  startsWith "#" s
  = match s with
    | String c _ => Ascii.eqb "#" c
    | EmptyString => false
    end.
Proof.
  unfold startsWith. destruct s as [|c r]; [reflexivity|].
  cbn [String.prefix].
  assert (Hp : String.prefix "" r = true) by now destruct r.
  rewrite Hp.
  destruct (Ascii.ascii_dec "#" c) as [<-|E]; [reflexivity|].
  symmetry. now apply Ascii.eqb_neq.
Qed.

Lemma startsWith_hash_lower (s : string) :
  startsWith "#" (toLowerCase s) = startsWith "#" s.
Proof.
  rewrite !startsWith_hash. destruct s as [|c r]; [reflexivity|].
  apply toLowerChar_hash.
Qed.

Lemma findTagNode_sound (tree : JsMap.t TagTreeNode) (tagPath : string) node :
  findTagNode tree tagPath = Some node ->
  Reachable tree (toLowerCase (stripHash tagPath)) node.
Proof. apply searchNode_sound. Qed.

Lemma findTagNode_complete (tree : JsMap.t TagTreeNode) (tagPath : string) node :
  Reachable tree (toLowerCase (stripHash tagPath)) node ->
  exists found, findTagNode tree tagPath = Some found.
Proof.
  intros Hr. apply searchNode_complete in Hr. unfold findTagNode.
  destruct (searchNode _ tree) as [found|]; [now exists found|congruence].
Qed.

(** X13.  [findTagNode(tree, tagPath)] searches the whole tree for a key:
    the path without one leading marker, in lower case.  A node it
    returns hangs in the tree under that key, at the top or at any depth;
    it returns one whenever some node does; and it returns [null] exactly
    when none does.  The marker and the casing of the argument do not
    change the answer. *)
Theorem findTagNode_searches_by_key (tree : JsMap.t TagTreeNode) (tagPath : string) :
  let key := toLowerCase (stripHash tagPath) in
  (forall node, findTagNode tree tagPath = Some node -> Reachable tree key node)
  /\ (forall node,
        Reachable tree key node -> exists found, findTagNode tree tagPath = Some found)
  /\ (findTagNode tree tagPath = None <-> forall node, ~ Reachable tree key node)
  /\ (startsWith "#" tagPath = false ->
      findTagNode tree (String "#" tagPath) = findTagNode tree tagPath
      /\ findTagNode tree (toLowerCase tagPath) = findTagNode tree tagPath).
Proof.
  cbv zeta. unfold findTagNode.
  split; [intros node; apply searchNode_sound|].
  split.
  { intros node Hr. apply searchNode_complete in Hr.
    destruct (searchNode _ tree) as [found|]; [now exists found|congruence]. }
  split.
  { split.
    - intros Hnone node Hr. apply searchNode_complete in Hr. contradiction.
    - intros Hno.
      destruct (searchNode _ tree) as [found|] eqn:E; [|reflexivity].
      apply searchNode_sound in E. now apply Hno in E. }
  intros Hm. split.
  - now rewrite stripHash_marked, (stripHash_unmarked _ Hm).
  - rewrite (stripHash_unmarked _ Hm), stripHash_unmarked
      by now rewrite startsWith_hash_lower.
    now rewrite toLowerCase_idem.
Qed.

End WalkFacts.

(** ** The built tree: search and notes *)

Module BuiltTreeFacts.

Import JsString JsStringFacts TagTree TagTreeSpec NotesSpec PrefixFacts BuildFacts
  ReadFacts CountFacts WalkFacts.

Section Store.
Variable nodes : JsMap.t Obj.t.
Variable roots : JsMap.t Ref.
Hypothesis core : Core nodes roots.

(** A node met in the tree read from the store is the reading of the
    object behind its key. *)
Lemma reachable_read (T : JsMap.t TagTreeNode) :
  traverse (readEntry (depthBound nodes) nodes) roots = Some T ->
  forall k t, Reachable T k t -> exists fuel, readNode fuel nodes k = Some t.
Proof.
  intros HT. apply traverse_Forall2 in HT.
  induction 1 as [k t Hin|pk parent k t _ [fuel IH] Hin].
  - destruct (@Forall2_In_r _ _ _ _ _ _ HT Hin) as [[k' r] [Hroot Hread]].
    apply readEntry_Some in Hread as [Hk Hr]. cbn [fst snd] in Hk, Hr. subst k'.
    destruct (core_tree core _ _ Hroot) as [-> _]. eauto.
  - destruct fuel as [|fuel]; [discriminate|].
    apply readNode_shape in IH as [o [Ho [_ [_ [_ Hch]]]]].
    destruct (@Forall2_In_r _ _ _ _ _ _ Hch Hin) as [[c r] [Hc Hread]].
    apply readEntry_Some in Hread as [Hk Hr]. cbn [fst snd] in Hk, Hr. subst c.
    destruct (core_children core _ _ _ Ho Hc) as [-> _]. eauto.
Qed.

Lemma reachable_object (T : JsMap.t TagTreeNode) :
  traverse (readEntry (depthBound nodes) nodes) roots = Some T ->
  forall k t,
    Reachable T k t ->
    exists o,
      JsMap.get k nodes = Some o
      /\ name t = Obj.name o /\ path t = Obj.path o
      /\ notesWithTag t = Obj.notesWithTag o.
Proof.
  intros HT k t Hr. destruct (reachable_read HT Hr) as [fuel Hread].
  now apply readNode_fields in Hread.
Qed.

End Store.

Lemma notesOf_getOrCreateNode part cp k i st k' :
  notesOf (Build.allNodes (getOrCreateNode part cp k i st)) k'
  = match notesOf (Build.allNodes st) k' with
    | Some s => Some s
    | None => if String.eqb k' k then Some JsSet.empty else None
    end.
Proof.
  unfold getOrCreateNode, notesOf.
  destruct (JsMap.get k (Build.allNodes st)) as [o|] eqn:E.
  - destruct (JsMap.get k' (Build.allNodes st)) eqn:E'; simpl; [reflexivity|].
    destruct (String.eqb_spec k' k) as [->|]; [congruence|reflexivity].
  - simpl. rewrite JsMapFacts.get_set.
    destruct (String.eqb_spec k' k) as [->|Hne].
    + rewrite E. reflexivity.
    + destruct (JsMap.get k' (Build.allNodes st)); reflexivity.
Qed.

Lemma notesOf_addNote ref file h k' :
  notesOf (addNote ref file h) k'
  = if String.eqb k' ref then option_map (JsSet.add file) (notesOf h k')
    else notesOf h k'.
Proof.
  unfold addNote, notesOf.
  destruct (JsMap.get ref h) as [o|] eqn:E.
  - rewrite JsMapFacts.get_set.
    destruct (String.eqb_spec k' ref) as [->|]; [now rewrite E|reflexivity].
  - destruct (String.eqb_spec k' ref) as [->|]; [now rewrite E|reflexivity].
Qed.

Lemma notesOf_addChild p key node h k' :
  notesOf (addChild p key node h) k' = notesOf h k'.
Proof.
  unfold addChild, notesOf. destruct (JsMap.get p h) as [o|] eqn:E; [|reflexivity].
  rewrite JsMapFacts.get_set.
  destruct (String.eqb_spec k' p) as [->|]; [now rewrite E|reflexivity].
Qed.

Lemma notesOf_linkToParent parts i k node st k' :
  notesOf (Build.allNodes (linkToParent parts i k node st)) k'
  = notesOf (Build.allNodes st) k'.
Proof.
  unfold linkToParent. destruct (0 <? i); [|reflexivity].
  destruct (JsMap.get (toLowerCase (join "/" (firstn i parts))) (Build.allNodes st))
    as [parent|]; [|reflexivity].
  destruct (negb (JsMap.has k (Obj.children parent))); [|reflexivity].
  simpl. apply notesOf_addChild.
Qed.

Lemma notesOf_addToLeaf file parts i k st k' :
  notesOf (Build.allNodes (addToLeaf file parts i k st)) k'
  = if (i =? length parts - 1) && String.eqb k' k
    then option_map (JsSet.add file) (notesOf (Build.allNodes st) k')
    else notesOf (Build.allNodes st) k'.
Proof.
  unfold addToLeaf. destruct (i =? length parts - 1); simpl; [|reflexivity].
  apply notesOf_addNote.
Qed.

(** One turn of the loop over the segments, on the notes. *)
Lemma visitPart_notes file parts i prev st k' :
  notesOf (Build.allNodes (snd (visitPart file parts i (prev, st)))) k'
  = let k := toLowerCase (fst (visitPart file parts i (prev, st))) in
    let base := match notesOf (Build.allNodes st) k' with
                | Some s => Some s
                | None => if String.eqb k' k then Some JsSet.empty else None
                end in
    if (i =? length parts - 1) && String.eqb k' k
    then option_map (JsSet.add file) base else base.
Proof.
  unfold visitPart. cbn [fst snd]. cbv zeta.
  now rewrite notesOf_linkToParent, notesOf_addToLeaf, notesOf_getOrCreateNode.
Qed.

(** The loop over the segments of one tag occurrence adds the file to the
    node of the last segment and leaves the notes of the others. *)
Lemma partsLoop_notes file parts st :
  Forall (fun p => count "/" p = 0) parts ->
  0 < length parts ->
  Good st ->
  let st' := snd (fold_left (fun state i => visitPart file parts i state)
                            (seq 0 (length parts)) (EmptyString, st)) in
  forall k o',
    JsMap.get k (Build.allNodes st') = Some o' ->
    Obj.notesWithTag o'
    = if String.eqb k (prefixKey parts (length parts - 1))
      then JsSet.add file (notesOrEmpty (Build.allNodes st) k)
      else notesOrEmpty (Build.allNodes st) k.
Proof.
  intros Hparts Hlen Hgood. cbv zeta.
  set (leaf := prefixKey parts (length parts - 1)).
  pose (Q := fun (i : nat) (state : string * Build.t) =>
    (0 < i -> fst state = prefixPath parts (i - 1))
    /\ Good (snd state)
    /\ Grows (Build.allNodes st) (Build.allNodes (snd state))
    /\ (forall j, j < i ->
                  JsMap.get (prefixKey parts j) (Build.allNodes (snd state)) <> None)
    /\ (forall k o',
          JsMap.get k (Build.allNodes (snd state)) = Some o' ->
          Obj.notesWithTag o'
          = if (length parts <=? i) && String.eqb k leaf
            then JsSet.add file (notesOrEmpty (Build.allNodes st) k)
            else notesOrEmpty (Build.allNodes st) k)).
  assert (HQ : Q (length parts)
                 (fold_left (fun state i => visitPart file parts i state)
                            (seq 0 (length parts)) (EmptyString, st))).
  { apply fold_seq_invariant.
    - unfold Q. simpl.
      split; [lia|]. split; [exact Hgood|]. split; [apply Grows_refl|].
      split; [intros j Hj; lia|].
      intros k o' Hget.
      replace (length parts <=? 0) with false by (symmetry; apply Nat.leb_gt; lia).
      simpl. unfold notesOrEmpty. now rewrite Hget.
    - intros i [prev sti] Hi [Hprev [Hg [Hgrow [Hkeys Hnotes]]]].
      cbn [fst snd] in Hprev, Hg, Hgrow, Hkeys, Hnotes.
      destruct (@visitPart_good file parts i prev sti Hparts Hi) as
        [st' [Hv [Hg' [Hk' [Hgrow' _]]]]]; [|exact Hg|].
      { intros H0. split; [now apply Hprev|]. apply Hkeys. lia. }
      unfold Q. rewrite Hv. cbn [fst snd].
      split; [intros _; now replace (S i - 1) with i by lia|].
      split; [exact Hg'|].
      split; [eapply Grows_trans; eauto|].
      split.
      { intros j Hj. destruct (Nat.eq_dec j i) as [->|Hne]; [exact Hk'|].
        eapply Grows_not_None; [exact Hgrow'|]. apply Hkeys. lia. }
      intros k o' Hget.
      pose proof (visitPart_notes file parts i prev sti k) as HN.
      rewrite Hv in HN. cbn [fst snd] in HN. cbv zeta in HN.
      change (toLowerCase (prefixPath parts i)) with (prefixKey parts i) in HN.
      unfold notesOf at 1 in HN. rewrite Hget in HN. simpl option_map in HN.
      assert (Hdone : (length parts <=? i) = false) by (apply Nat.leb_gt; lia).
      assert (Hbase :
                match notesOf (Build.allNodes sti) k with
                | Some s => Some s
                | None => if String.eqb k (prefixKey parts i)
                          then Some JsSet.empty else None
                end
                = match notesOf (Build.allNodes sti) k with
                  | Some s => Some (notesOrEmpty (Build.allNodes st) k)
                  | None => if String.eqb k (prefixKey parts i)
                            then Some (notesOrEmpty (Build.allNodes st) k) else None
                  end).
      { unfold notesOf.
        destruct (JsMap.get k (Build.allNodes sti)) as [oi|] eqn:Ei; simpl.
        - rewrite (Hnotes _ _ Ei), Hdone. reflexivity.
        - destruct (String.eqb k (prefixKey parts i)); [|reflexivity].
          unfold notesOrEmpty.
          destruct (JsMap.get k (Build.allNodes st)) as [o0|] eqn:E0; [|reflexivity].
          destruct (Hgrow _ _ E0) as [o1 [E1 _]]. congruence. }
      rewrite Hbase in HN. clear Hbase.
      destruct (Nat.eqb_spec i (length parts - 1)) as [Hlast|Hlast].
      + replace (length parts <=? S i) with true by (symmetry; apply Nat.leb_le; lia).
        subst i. fold leaf in HN |- *. simpl andb in HN |- *.
        destruct (notesOf (Build.allNodes sti) k);
          destruct (String.eqb k leaf); simpl in HN; congruence.
      + replace (length parts <=? S i) with false by (symmetry; apply Nat.leb_gt; lia).
        simpl andb in HN |- *.
        destruct (notesOf (Build.allNodes sti) k);
          destruct (String.eqb k (prefixKey parts i)); simpl in HN; congruence. }
  destruct HQ as [_ [_ [_ [_ Hnotes]]]].
  intros k o' Hget. rewrite (Hnotes _ _ Hget).
  now rewrite Nat.leb_refl.
Qed.

(** The canonical path of a tag occurrence and the locals the loop over
    its segments starts from. *)
Lemma processTag_unfold file ts st tag :
  ScanInv ts st ->
  exists c st1,
    processTag file st tag
    = snd (fold_left (fun state i => visitPart file (split "/" c) i state)
                     (seq 0 (length (split "/" c))) (EmptyString, st1))
    /\ Build.allNodes st1 = Build.allNodes st
    /\ Build.tree st1 = Build.tree st
    /\ toLowerCase c = toLowerCase (stripHash tag).
Proof.
  intros [_ [_ Hcase]]. unfold processTag.
  destruct (JsMap.get (toLowerCase (stripHash tag)) (Build.caseMap st)) as [c0|] eqn:E.
  - destruct (String.eqb_spec c0 "") as [Hc0|Hc0].
    + eexists _, _. split; [reflexivity|]. simpl. auto.
    + destruct (Hcase _ _ E Hc0) as [Hl _].
      exists c0, st. split; [reflexivity|]. auto.
  - eexists _, _. split; [reflexivity|]. simpl. auto.
Qed.

Lemma processTag_notes file ts st tag :
  ScanInv ts st ->
  forall k o',
    JsMap.get k (Build.allNodes (processTag file st tag)) = Some o' ->
    Obj.notesWithTag o'
    = if String.eqb k (keyOfTag tag)
      then JsSet.add file (notesOrEmpty (Build.allNodes st) k)
      else notesOrEmpty (Build.allNodes st) k.
Proof.
  intros Hinv. destruct (processTag_unfold file tag Hinv) as [c [st1 [-> [Hn [Ht Hlow]]]]].
  assert (Hgood1 : Good st1).
  { destruct Hinv as [Hgood _]. unfold Good. rewrite Hn, Ht. exact Hgood. }
  intros k o' Hget.
  rewrite (@partsLoop_notes file (split "/" c) st1 (split_parts "/" c)
             (split_length "/" c) Hgood1 k o' Hget).
  unfold prefixKey. rewrite prefixPath_last, Hlow, Hn. reflexivity.
Qed.

Lemma filter_none {A : Type} (f : A -> bool) (l : list A) :
  (forall x, In x l -> f x = false) -> filter f l = [].
Proof.
  induction l as [|a l IH]; intros H; simpl; [reflexivity|].
  rewrite (H a) by now left. apply IH. intros x Hx. apply H. now right.
Qed.

(** No pair seen so far belongs to a key without an object. *)
Lemma filesAt_absent seen st k :
  ScanInv (tagsOf seen) st ->
  JsMap.get k (Build.allNodes st) = None ->
  filesAt k seen = [].
Proof.
  intros [_ [Hpath _]] Hnone. unfold filesAt.
  rewrite filter_none; [reflexivity|].
  intros [f tag] Hin. simpl.
  destruct (String.eqb_spec (keyOfTag tag) k) as [<-|]; [|reflexivity].
  exfalso. apply pathOf_None in Hnone. rewrite Hpath in Hnone.
  apply JsMapFacts.get_None in Hnone. apply Hnone.
  unfold JsMap.keys. apply in_map_iff.
  exists (keyOfTag tag, stripHash tag). split; [reflexivity|].
  apply in_flat_map. exists (stripHash tag). split.
  - unfold tagsOf. apply in_map_iff. exists (f, tag). auto.
  - apply JsMapFacts.get_In. apply TagIndex.get_own_prefix.
Qed.

Lemma from_snoc (l : list string) (x : string) :
  JsSet.from (l ++ [x]) = JsSet.add x (JsSet.from l).
Proof. unfold JsSet.from, JsSet.addAll. now rewrite fold_left_app. Qed.

Lemma processTag_notesInv file seen st tag :
  NotesInv seen st -> NotesInv (seen ++ [(file, tag)]) (processTag file st tag).
Proof.
  intros [Hinv Hnotes]. split.
  - unfold tagsOf. rewrite map_app. simpl. now apply processTag_inv.
  - intros k o' Hget.
    rewrite (processTag_notes file tag Hinv k Hget).
    assert (Hold : notesOrEmpty (Build.allNodes st) k = JsSet.from (filesAt k seen)).
    { unfold notesOrEmpty.
      destruct (JsMap.get k (Build.allNodes st)) as [o|] eqn:E.
      - now apply Hnotes.
      - now rewrite (@filesAt_absent seen st k Hinv E). }
    rewrite Hold. unfold filesAt. rewrite filter_app, map_app. simpl.
    rewrite (String.eqb_sym (keyOfTag tag) k).
    destruct (String.eqb k (keyOfTag tag)); simpl.
    + now rewrite from_snoc.
    + now rewrite app_nil_r.
Qed.

Lemma processTags_notesInv file tags seen st :
  NotesInv seen st ->
  NotesInv (seen ++ map (fun tag => (file, tag)) tags)
           (fold_left (processTag file) tags st).
Proof.
  revert seen st. induction tags as [|tag tags IH]; intros seen st Hinv; simpl.
  - now rewrite app_nil_r.
  - pose proof (processTag_notesInv file tag Hinv) as H1.
    apply IH in H1. now rewrite <- app_assoc in H1.
Qed.

Lemma notesInv_initial : NotesInv [] initialLocals.
Proof. split; [apply ScanInv_initial|]. simpl. discriminate. Qed.

Section Build.
Context {filters : FileFilters}.
Variable Metadata : Type.
Variable excludedFolderPatterns : option (list string).

Local Abbreviation Entry := (string * FileData.t Metadata)%type.

Lemma processFile_notesInv (entry : Entry) seen st :
  NotesInv seen st ->
  NotesInv (seen ++ taggings [entry] excludedFolderPatterns)
           (processFile excludedFolderPatterns st entry).
Proof.
  intros Hinv. destruct entry as [file fileData].
  unfold processFile, taggings, isExcluded. simpl.
  destruct (match excludedFolderPatterns with
            | Some patterns => isPathInExcludedFolder file patterns
            | None => false
            end); simpl.
  - now rewrite app_nil_r.
  - destruct (FileData.tags fileData) as [[|tag tags]|]; simpl.
    + rewrite app_nil_r. exact Hinv.
    + rewrite app_nil_r.
      apply (@processTags_notesInv file (tag :: tags) seen st Hinv).
    + now rewrite app_nil_r.
Qed.

Lemma scan_notesInv (allFiles : list Entry) :
  NotesInv (taggings allFiles excludedFolderPatterns)
           (scan allFiles excludedFolderPatterns).
Proof.
  unfold scan.
  assert (G : forall seen st,
             NotesInv seen st ->
             NotesInv (seen ++ taggings allFiles excludedFolderPatterns)
                      (fold_left (processFile excludedFolderPatterns) allFiles st)).
  { induction allFiles as [|entry rest IH]; intros seen st Hinv.
    - simpl. now rewrite app_nil_r.
    - change (fold_left (processFile excludedFolderPatterns) (entry :: rest) st)
        with (fold_left (processFile excludedFolderPatterns) rest
                (processFile excludedFolderPatterns st entry)).
      replace (taggings (entry :: rest) excludedFolderPatterns)
        with (taggings [entry] excludedFolderPatterns
              ++ taggings rest excludedFolderPatterns)
        by (unfold taggings; simpl; now rewrite app_nil_r).
      rewrite app_assoc. apply IH. now apply processFile_notesInv. }
  apply (G [] initialLocals notesInv_initial).
Qed.

End Build.

Section Index.
Context {filters : FileFilters}.
Variable Metadata : Type.
Variable db : MemoryFileCache.t Metadata.
Variable excludedFolderPatterns : option (list string).

Local Abbreviation locals := (scan (getAllFiles db) excludedFolderPatterns).
Local Abbreviation occurrences := (scannedTags (getAllFiles db) excludedFolderPatterns).
Local Abbreviation pairs := (taggings (getAllFiles db) excludedFolderPatterns).

Lemma built_tree (cache : NoteCountCache) :
  exists T,
    buildTagTreeFromDatabase db excludedFolderPatterns cache
    = (Some {| tree := T; untagged := Build.untaggedCount locals |}, None)
    /\ readTree locals = Some T
    /\ forall k t,
         Reachable T k t ->
         exists o,
           JsMap.get k (Build.allNodes locals) = Some o
           /\ name t = Obj.name o /\ path t = Obj.path o
           /\ notesWithTag t = Obj.notesWithTag o
           /\ k = toLowerCase (path t).
Proof.
  destruct (@TagIndex.build_returns _ _ db excludedFolderPatterns cache) as [T [HT Hb]].
  exists T. split; [exact Hb|]. split; [exact HT|].
  pose proof (@TagIndex.locals_core _ _ db excludedFolderPatterns) as C.
  assert (HT' : traverse (readEntry (depthBound (Build.allNodes locals))
                                    (Build.allNodes locals))
                         (Build.tree locals) = Some T) by exact HT.
  intros k t Hr.
  destruct (reachable_object C HT' Hr) as [o [Ho [Hn [Hp Hs]]]].
  exists o. repeat (split; [assumption|]).
  rewrite Hp. symmetry. now apply (core_key C).
Qed.

(** X14.  In a built tree [findTagNode] finds the node of every tag path
    the scan met, and of every ancestor prefix of one, whatever the casing
    of the argument and with or without the marker; the path of the node
    it returns is the spelling under which that prefix was met first.  For
    any other argument it returns [null]. *)
Theorem findTagNode_on_built_tree (cache : NoteCountCache) :
  exists res,
    buildTagTreeFromDatabase db excludedFolderPatterns cache = (Some res, None)
    /\ (forall tagPath,
          option_map path (findTagNode (tree res) tagPath)
          = JsMap.get (toLowerCase (stripHash tagPath))
                      (flat_map prefixesOf occurrences))
    /\ (forall tag tagPath,
          In tag occurrences ->
          toLowerCase (stripHash tagPath) = toLowerCase tag ->
          exists node,
            findTagNode (tree res) tagPath = Some node
            /\ toLowerCase (path node) = toLowerCase tag).
Proof.
  destruct (built_tree cache) as [T [Hb [HT Hobj]]].
  exists {| tree := T; untagged := Build.untaggedCount locals |}.
  split; [exact Hb|]. cbn [tree].
  destruct (@TagIndex.locals_inv _ _ db excludedFolderPatterns) as [_ [Hpath _]].
  assert (Hmain : forall tagPath,
             option_map path (findTagNode T tagPath)
             = JsMap.get (toLowerCase (stripHash tagPath))
                         (flat_map prefixesOf occurrences)).
  { intros tagPath. rewrite <- Hpath. unfold pathOf.
    destruct (JsMap.get (toLowerCase (stripHash tagPath)) (Build.allNodes locals))
      as [o|] eqn:E.
    - destruct (@TagIndex.index_in_tree _ _ db excludedFolderPatterns T HT _ _ E)
        as [node [Hr _]].
      destruct (findTagNode_complete _ Hr) as [found Hf]. rewrite Hf. simpl.
      apply findTagNode_sound in Hf.
      destruct (Hobj _ _ Hf) as [o' [Ho' [_ [Hp _]]]].
      rewrite E in Ho'. injection Ho' as <-. now rewrite Hp.
    - destruct (findTagNode T tagPath) as [found|] eqn:Hf; [|reflexivity].
      apply findTagNode_sound in Hf.
      destruct (Hobj _ _ Hf) as [o' [Ho' _]]. congruence. }
  split; [exact Hmain|].
  intros tag tagPath Hin Hkey.
  pose proof (Hmain tagPath) as H. rewrite Hkey in H.
  destruct (@JsMapFacts.In_key_get _ (flat_map prefixesOf occurrences) (toLowerCase tag))
    as [p Hp].
  { unfold JsMap.keys. apply in_map_iff. exists (toLowerCase tag, tag).
    split; [reflexivity|]. apply in_flat_map. exists tag. split; [exact Hin|].
    apply JsMapFacts.get_In. apply TagIndex.get_own_prefix. }
  rewrite Hp in H.
  destruct (findTagNode T tagPath) as [node|] eqn:Hf; [|discriminate].
  exists node. split; [reflexivity|].
  apply findTagNode_sound in Hf.
  destruct (Hobj _ _ Hf) as [o' [_ [_ [_ [_ Hk]]]]].
  congruence.
Qed.

(** X15.  In a built tree the notes of a node are the files that carry
    the tag of the node itself: a file is in [notesWithTag] exactly when a
    record outside the excluded folders has it as path and has a tag
    that, without the marker and in lower case, is the key of the node.
    A file tagged only below the node is not among them.  Each file is
    there once, in the order in which the scan met the files. *)
Theorem notesWithTag_holds_tagged_files (cache : NoteCountCache) :
  exists res,
    buildTagTreeFromDatabase db excludedFolderPatterns cache = (Some res, None)
    /\ forall key node,
         Reachable (tree res) key node ->
         key = toLowerCase (path node)
         /\ notesWithTag node = JsSet.from (filesAt key pairs)
         /\ NoDup (notesWithTag node)
         /\ forall file,
              In file (notesWithTag node)
              <-> exists tag, In (file, tag) pairs /\ keyOfTag tag = key.
Proof.
  destruct (built_tree cache) as [T [Hb [HT Hobj]]].
  exists {| tree := T; untagged := Build.untaggedCount locals |}.
  split; [exact Hb|]. cbn [tree].
  intros key node Hr.
  destruct (Hobj _ _ Hr) as [o [Ho [_ [_ [Hs Hk]]]]].
  destruct (scan_notesInv excludedFolderPatterns (getAllFiles db)) as [_ Hnotes].
  assert (E : notesWithTag node = JsSet.from (filesAt key pairs)).
  { rewrite Hs. now apply Hnotes. }
  destruct (@addAll_spec (filesAt key pairs) JsSet.empty (NoDup_nil _)) as [Hnd Hin].
  split; [exact Hk|]. split; [exact E|]. rewrite E. split; [exact Hnd|].
  intros file. unfold JsSet.from. rewrite Hin. unfold filesAt.
  rewrite in_map_iff. split.
  - intros [[]|[[f tag] [Hf Hp]]]. simpl in Hf. subst f.
    apply filter_In in Hp as [Hp Hkey]. simpl in Hkey.
    apply String.eqb_eq in Hkey. eauto.
  - intros [tag [Hp Hkey]]. right. exists (file, tag). split; [reflexivity|].
    apply filter_In. split; [exact Hp|]. simpl. now apply String.eqb_eq.
Qed.

End Index.

End BuiltTreeFacts.

(** ** The build and its input; the count and its cache *)

Module BuildExtras.

Import JsString TagTree TagTreeSpec NotesSpec CountFacts.

Section Input.
Context {filters : FileFilters}.
Variable Metadata : Type.

Local Abbreviation Entry := (string * FileData.t Metadata)%type.

Lemma scan_from_scanned (excludedFolderPatterns : option (list string))
    (allFiles : list Entry) (st : Build.t) :
  fold_left (processFile excludedFolderPatterns) allFiles st
  = fold_left (processFile None)
              (filter (isScanned excludedFolderPatterns) allFiles) st.
Proof.
  revert st. induction allFiles as [|[file fileData] rest IH]; intros st;
    [reflexivity|].
  cbn [fold_left filter].
  destruct (isScanned excludedFolderPatterns (file, fileData)) eqn:E.
  - cbn [fold_left]. rewrite <- IH. f_equal.
    unfold isScanned, isExcluded in E. apply andb_prop in E as [E _].
    unfold processFile. cbn [fst snd] in *.
    destruct (match excludedFolderPatterns with
              | Some patterns => isPathInExcludedFolder file patterns
              | None => false
              end); [discriminate|reflexivity].
  - rewrite <- IH. f_equal.
    unfold isScanned, isExcluded in E.
    unfold processFile. cbn [fst snd] in *.
    destruct (match excludedFolderPatterns with
              | Some patterns => isPathInExcludedFolder file patterns
              | None => false
              end); [reflexivity|].
    destruct (FileData.tags fileData) as [tags|]; [discriminate|reflexivity].
Qed.

(** X16.  The build sees only the records outside the excluded folders
    whose tag list is not [null]: the result is the one of a build,
    without folder patterns, over a mirror holding just these records in
    their order.  Every build leaves the count cache cleared, and the build
    over an empty mirror is the empty tree with no untagged file. *)
Theorem build_sees_scanned_records_only
    (db : MemoryFileCache.t Metadata) (excludedFolderPatterns : option (list string))
    (cache : NoteCountCache) :
  let scanned :=
    {| MemoryFileCache.memoryMap :=
         filter (isScanned excludedFolderPatterns) (getAllFiles db);
       MemoryFileCache.isInitialized := MemoryFileCache.isInitialized db |} in
  buildTagTreeFromDatabase db excludedFolderPatterns cache
  = buildTagTreeFromDatabase scanned None cache
  /\ snd (buildTagTreeFromDatabase db excludedFolderPatterns cache) = None
  /\ buildTagTreeFromDatabase (MemoryFileCache.create Metadata)
       excludedFolderPatterns cache
     = (Some {| tree := JsMap.empty; untagged := 0 |}, None).
Proof.
  cbv zeta. split; [|split; reflexivity].
  unfold buildTagTreeFromDatabase, scan.
  rewrite scan_from_scanned.
  unfold getAllFiles, MemoryFileCache.getAllFilesWithPaths, JsMap.entries.
  cbn [MemoryFileCache.memoryMap].
  reflexivity.
Qed.

End Input.








Lemma count_sound (node : TagTreeNode) (cache : NoteCountCache) :
  cacheSound cache ->
  fst (getTotalNoteCount node cache) = length (nodup string_dec (taggedFiles node)).
Proof.
  intros Hsound. unfold getTotalNoteCount, getNoteCountCache.
  destruct cache as [m|]; simpl.
  - destruct (weakMapGet node m) as [c|] eqn:E; simpl.
    + apply weakMapGet_In in E. now apply Hsound.
    + apply collected_size.
  - apply collected_size.
Qed.

Lemma nodup_incl_length (a b : list string) :
  incl a b -> length (nodup string_dec a) <= length (nodup string_dec b).
Proof.
  intros H. apply NoDup_incl_length; [apply NoDup_nodup|].
  intros x Hx. apply nodup_In. apply H. now apply nodup_In in Hx.
Qed.

Lemma nodup_app_length (a b : list string) :
  length (nodup string_dec (a ++ b))
  <= length (nodup string_dec a) + length (nodup string_dec b).
Proof.
  rewrite <- length_app. apply NoDup_incl_length; [apply NoDup_nodup|].
  intros x Hx. apply nodup_In in Hx. apply in_app_iff in Hx.
  apply in_app_iff. rewrite !nodup_In. exact Hx.
Qed.

(** X18.  With sound caches the count of a node is at least the count of
    each of its children and at least the number of its own distinct
    notes, and at most the sum of these: counts grow towards the root, and
    a file tagged in several places below a node counts once. *)
Theorem getTotalNoteCount_between_children_and_sum
    (node : TagTreeNode) (cache cache' : NoteCountCache) :
  cacheSound cache -> cacheSound cache' ->
  let count := fst (getTotalNoteCount node cache) in
  (forall key child,
     In (key, child) (children node) ->
     fst (getTotalNoteCount child cache') <= count)
  /\ length (nodup string_dec (notesWithTag node)) <= count
  /\ count
     <= length (nodup string_dec (notesWithTag node))
        + list_sum (map (fun entry => fst (getTotalNoteCount (snd entry) cache'))
                        (children node)).
Proof.
  intros Hs Hs'. cbv zeta. rewrite (@count_sound node cache Hs).
  rewrite taggedFiles_eq.
  split; [|split].
  - intros key child Hin. rewrite (@count_sound child cache' Hs').
    apply nodup_incl_length. intros f Hf. apply in_or_app. right.
    unfold filesBelow. apply in_flat_map. exists (key, child). auto.
  - apply nodup_incl_length. intros f Hf. apply in_or_app. now left.
  - eapply Nat.le_trans; [apply nodup_app_length|].
    apply Nat.add_le_mono_l. unfold filesBelow.
    induction (children node) as [|[k c] r IH]; simpl; [lia|].
    eapply Nat.le_trans; [apply nodup_app_length|].
    rewrite (@count_sound c cache' Hs'). lia.
Qed.

End BuildExtras.

(** ** Patterns: parsing and wildcards *)

Module PatternExtras.

Import JsString JsStringFacts TagTree TagTreeSpec PatternSpec WildcardSpec PatternFacts
  WalkFacts.

Lemma In_asciiUnits (c : ascii) : isAsciiUnit c = true -> In c asciiUnits.
Proof.
  unfold isAsciiUnit, asciiUnits. intros H. apply Nat.ltb_lt in H.
  apply in_map_iff. exists (nat_of_ascii c).
  split; [apply ascii_nat_embedding|].
  apply in_seq. lia.
Qed.

Lemma canonicalize_ascii_table :
  forallb
    (fun c =>
       forallb
         (fun d =>
            Bool.eqb (Ascii.eqb (canonicalize c) (canonicalize d))
                     (Ascii.eqb (toLowerChar c) (toLowerChar d)))
         asciiUnits)
    asciiUnits = true.
Proof. vm_compute. reflexivity. Qed.

(** Two code units below 128 are equal under the flag [i] exactly when
    their lower case forms are equal. *)
Lemma canonicalize_toLowerChar (c d : ascii) :
  isAsciiUnit c = true -> isAsciiUnit d = true ->
  Ascii.eqb (canonicalize c) (canonicalize d)
  = Ascii.eqb (toLowerChar c) (toLowerChar d).
Proof.
  intros Hc Hd. pose proof canonicalize_ascii_table as H.
  rewrite forallb_forall in H. specialize (H c (In_asciiUnits c Hc)).
  rewrite forallb_forall in H. specialize (H d (In_asciiUnits d Hd)).
  now apply Bool.eqb_prop in H.
Qed.

Lemma isAscii_stripHash (s : string) : isAscii s = true -> isAscii (stripHash s) = true.
Proof.
  intros H. destruct (startsWith "#" s) eqn:E.
  - rewrite startsWith_hash in E. destruct s as [|c r]; [discriminate|].
    apply Ascii.eqb_eq in E. subst c. rewrite stripHash_marked.
    cbn [isAscii] in H. now apply andb_prop in H.
  - now rewrite (stripHash_unmarked _ E).
Qed.

Lemma matches_plain (p : string) :
  count "*" p = 0 -> isAscii p = true ->
  forall s,
    isAscii s = true ->
    Wildcard.matches p s = String.eqb (toLowerCase p) (toLowerCase s).
Proof.
  induction p as [|c rest IH]; intros Hc Hp s Hs.
  - destruct s; reflexivity.
  - cbn [count] in Hc. cbn [isAscii] in Hp. apply andb_prop in Hp as [Hpc Hp].
    destruct (Ascii.eqb c "*") eqn:E; [discriminate|].
    cbn [Wildcard.matches]. rewrite E.
    destruct s as [|d s']; [reflexivity|].
    cbn [isAscii] in Hs. apply andb_prop in Hs as [Hsd Hs].
    cbn [toLowerCase String.eqb].
    rewrite (canonicalize_toLowerChar c d Hpc Hsd), (IH Hc Hp s' Hs).
    destruct (Ascii.eqb (toLowerChar c) (toLowerChar d)); reflexivity.
Qed.

Lemma matches_star (s : string) : Wildcard.matches "*" s = oneLine s.
Proof.
  induction s as [|d s' IH]; [reflexivity|].
  cbn [oneLine]. rewrite <- IH. reflexivity.
Qed.

Lemma matches_prefix (p : string) :
  count "*" p = 0 -> isAscii p = true ->
  forall s, isAscii s = true -> Wildcard.matches (p ++ "*") s = beginsWith p s.
Proof.
  induction p as [|c rest IH]; intros Hc Hp s Hs.
  - apply matches_star.
  - cbn [count] in Hc. cbn [isAscii] in Hp. apply andb_prop in Hp as [Hpc Hp].
    destruct (Ascii.eqb c "*") eqn:E; [discriminate|].
    change (String c rest ++ "*")%string with (String c (rest ++ "*")).
    cbn [Wildcard.matches beginsWith]. rewrite E.
    destruct s as [|d s']; [reflexivity|].
    cbn [isAscii] in Hs. apply andb_prop in Hs as [Hsd Hs].
    now rewrite (canonicalize_toLowerChar c d Hpc Hsd), (IH Hc Hp s' Hs).
Qed.

Lemma beginsWith_spec (p s : string) :
  beginsWith p s = true <->
  exists head rest,
    s = (head ++ rest)%string
    /\ toLowerCase head = toLowerCase p
    /\ oneLine rest = true.
Proof.
  revert s. induction p as [|c p IH]; intros s; cbn [beginsWith].
  - split.
    + intros H. exists "", s. auto.
    + intros [head [rest [-> [Hh Hr]]]].
      apply toLowerCase_empty in Hh. now subst head.
  - destruct s as [|d s'].
    + split; [discriminate|].
      intros [head [rest [Hs [Hh _]]]].
      destruct head; [discriminate Hh|discriminate Hs].
    + rewrite andb_true_iff, IH. split.
      * intros [Hcd [head [rest [-> [Hh Hr]]]]].
        apply Ascii.eqb_eq in Hcd.
        exists (String d head), rest. cbn [toLowerCase]. split; [reflexivity|].
        split; [congruence|exact Hr].
      * intros [head [rest [Hs [Hh Hr]]]].
        destruct head as [|d' head]; [discriminate Hh|].
        injection Hs as <- ->. cbn [toLowerCase] in Hh. injection Hh as Hd Hh.
        split; [apply Ascii.eqb_eq; congruence|].
        exists head, rest. auto.
Qed.

Lemma substring_last (p : string) (c : ascii) :
  String.substring (String.length p) 1 (p ++ String c "") = String c "".
Proof. induction p as [|d r IH]; [reflexivity|exact IH]. Qed.

Lemma length_append (a b : string) :
  String.length (a ++ b) = String.length a + String.length b.
Proof. induction a as [|c r IH]; simpl; [reflexivity|now rewrite IH]. Qed.

Lemma endsWith_slash_star (p : string) : endsWith "/" (p ++ "*") = false.
Proof.
  unfold endsWith. rewrite length_append. simpl String.length.
  replace (String.length p + 1 - 1) with (String.length p) by lia.
  rewrite substring_last. apply Bool.andb_false_r.
Qed.

Lemma trimEnd_cons (c : ascii) (r : string) :
  trimEnd (String c r)
  = match trimEnd r with
    | EmptyString => if isWhiteSpace c then EmptyString else String c EmptyString
    | r' => String c r'
    end.
Proof. reflexivity. Qed.

Lemma trimEnd_idem (s : string) : trimEnd (trimEnd s) = trimEnd s.
Proof.
  induction s as [|c r IH]; [reflexivity|].
  rewrite trimEnd_cons.
  destruct (trimEnd r) as [|d t] eqn:E.
  - destruct (isWhiteSpace c) eqn:W; [reflexivity|].
    rewrite trimEnd_cons. simpl trimEnd. now rewrite W.
  - rewrite trimEnd_cons, IH. reflexivity.
Qed.

Lemma trimStart_head (s : string) :
  match trimStart s with
  | String c _ => isWhiteSpace c = false
  | EmptyString => True
  end.
Proof.
  induction s as [|c r IH]; [exact I|].
  cbn [trimStart]. destruct (isWhiteSpace c) eqn:W; [exact IH|exact W].
Qed.

Lemma trimStart_clean (t : string) :
  match t with
  | String c _ => isWhiteSpace c = false
  | EmptyString => True
  end ->
  trimStart t = t.
Proof. destruct t as [|c r]; [reflexivity|]. cbn [trimStart]. now intros ->. Qed.

Lemma trimEnd_head (t : string) :
  match t with
  | String c _ => isWhiteSpace c = false
  | EmptyString => True
  end ->
  match trimEnd t with
  | String c _ => isWhiteSpace c = false
  | EmptyString => True
  end.
Proof.
  destruct t as [|c r]; [trivial|]. intros W. rewrite trimEnd_cons.
  destruct (trimEnd r); [now rewrite W|exact W].
Qed.

Lemma trim_idem (s : string) : trim (trim s) = trim s.
Proof.
  unfold trim.
  rewrite (trimStart_clean (trimEnd (trimStart s)))
    by apply trimEnd_head, trimStart_head.
  apply trimEnd_idem.
Qed.

Lemma count_trimStart (x : ascii) (s : string) : count x (trimStart s) <= count x s.
Proof.
  induction s as [|c r IH]; [reflexivity|].
  cbn [trimStart]. destruct (isWhiteSpace c); [|reflexivity].
  cbn [count]. lia.
Qed.

Lemma count_trimEnd (x : ascii) (s : string) : count x (trimEnd s) <= count x s.
Proof.
  induction s as [|c r IH]; [reflexivity|].
  rewrite trimEnd_cons.
  destruct (trimEnd r) as [|d t].
  - destruct (isWhiteSpace c); cbn [count]; lia.
  - cbn [count] in *. lia.
Qed.

Lemma count_trim (x : ascii) (s : string) : count x s = 0 -> count x (trim s) = 0.
Proof.
  intros H. unfold trim.
  pose proof (count_trimEnd x (trimStart s)). pose proof (count_trimStart x s). lia.
Qed.

Lemma split_append_sep (sep : ascii) (a b : string) :
  split sep (a ++ String sep b) = split sep a ++ split sep b.
Proof.
  induction a as [|c r IH].
  - simpl. now rewrite Ascii.eqb_refl.
  - change (String c r ++ String sep b)%string with (String c (r ++ String sep b)).
    cbn [split]. rewrite IH.
    destruct (Ascii.eqb c sep); [reflexivity|].
    destruct (split_cons sep r) as [p [ps ->]]. reflexivity.
Qed.

Lemma join_app (sep : string) (l1 l2 : list string) :
  l1 <> [] -> l2 <> [] ->
  join sep (l1 ++ l2) = (join sep l1 ++ sep ++ join sep l2)%string.
Proof.
  intros H1 H2. induction l1 as [|a l1 IH]; [congruence|].
  destruct l1 as [|b l1].
  - destruct l2 as [|c l2]; [congruence|]. apply join_cons2.
  - change ((a :: b :: l1) ++ l2) with (a :: b :: (l1 ++ l2)).
    rewrite !join_cons2.
    change (b :: l1 ++ l2) with ((b :: l1) ++ l2).
    rewrite IH by discriminate.
    now rewrite !append_assoc.
Qed.

Lemma split_join_sep (sep : ascii) (l : list string) :
  l <> [] -> Forall (fun p => count sep p = 0) l ->
  split sep (join (String sep "") l) = l.
Proof.
  intros Hne Hall. induction l as [|a l IH]; [congruence|].
  inversion Hall as [|? ? Ha Hl]; subst.
  destruct l as [|b l].
  - simpl. now apply split_single.
  - rewrite join_cons2.
    change (a ++ String sep "" ++ join (String sep "") (b :: l))%string
      with (a ++ String sep (join (String sep "") (b :: l)))%string.
    rewrite split_app_sep by exact Ha.
    f_equal. apply IH; [discriminate|exact Hl].
Qed.

Lemma filter_filter {A : Type} (f g : A -> bool) (l : list A) :
  filter g (filter f l) = filter (fun x => f x && g x) l.
Proof.
  induction l as [|a l IH]; simpl; [reflexivity|].
  destruct (f a); simpl; [|exact IH].
  destruct (g a); now rewrite IH.
Qed.

(** A list of patterns that are not empty, trimmed and without comma is
    what parsing its join gives back. *)
Lemma parseTagPatterns_join (l : list string) :
  Forall (fun p => p <> "" /\ trim p = p /\ count "," p = 0) l ->
  parseTagPatterns (join "," l) = l.
Proof.
  intros Hall. unfold parseTagPatterns.
  destruct l as [|a l]; [reflexivity|].
  rewrite split_join_sep; [|discriminate|].
  - rewrite (map_ext_in trim (fun p => p)), map_id.
    + apply forallb_filter_id. apply forallb_forall.
      intros p Hp. rewrite Forall_forall in Hall.
      destruct (Hall p Hp) as [Hne _]. destruct p; [congruence|reflexivity].
    + intros p Hp. rewrite Forall_forall in Hall. now apply Hall.
  - eapply Forall_impl; [|exact Hall]. now intros p [_ [_ H]].
Qed.

Lemma parseTagPatterns_clean (patterns : string) :
  Forall (fun p => p <> "" /\ trim p = p /\ count "," p = 0)
         (parseTagPatterns patterns).
Proof.
  apply Forall_forall. intros p Hp. unfold parseTagPatterns in Hp.
  apply filter_In in Hp as [Hp Hlen].
  apply in_map_iff in Hp as [piece [<- Hpiece]].
  split; [|split].
  - intros E. rewrite E in Hlen. discriminate.
  - apply trim_idem.
  - apply count_trim.
    pose proof (split_parts "," patterns) as H. rewrite Forall_forall in H.
    now apply H.
Qed.

(** X19.  [parseTagPatterns] gives patterns that are not empty, carry no
    white space at either end and hold no comma; empty and blank pieces
    are dropped, so the empty string parses to no pattern.  Such a list is
    stable: joined by commas and parsed again, as the two filters do with
    their argument, it is the same list. *)
Theorem parseTagPatterns_result_is_stable (patterns : string) :
  Forall (fun p => p <> "" /\ trim p = p /\ count "," p = 0)
         (parseTagPatterns patterns)
  /\ parseTagPatterns (join "," (parseTagPatterns patterns)) = parseTagPatterns patterns
  /\ (forall l, parsed (parsed l) = parsed l)
  /\ parseTagPatterns "" = []
  /\ (forall l1 l2,
        l1 <> [] -> l2 <> [] -> parsed (l1 ++ l2) = parsed l1 ++ parsed l2).
Proof.
  split; [apply parseTagPatterns_clean|].
  split; [apply parseTagPatterns_join, parseTagPatterns_clean|].
  split; [intros l; apply parseTagPatterns_join, parseTagPatterns_clean|].
  split; [reflexivity|].
  intros l1 l2 H1 H2. unfold parsed, parseTagPatterns.
  rewrite join_app by assumption.
  change ("," ++ join "," l2)%string with (String "," (join "," l2)).
  now rewrite split_append_sep, map_app, filter_app.
Qed.

Lemma parsed_app (l1 l2 : list string) :
  l1 <> [] -> l2 <> [] -> parsed (l1 ++ l2) = parsed l1 ++ parsed l2.
Proof.
  intros H1 H2. unfold parsed, parseTagPatterns.
  rewrite join_app by assumption.
  change ("," ++ join "," l2)%string with (String "," (join "," l2)).
  now rewrite split_append_sep, map_app, filter_app.
Qed.

Lemma canonicalize_lower (c : ascii) :
  isAsciiUnit c = true -> canonicalize (toLowerChar c) = canonicalize c.
Proof.
  destruct c as [[] [] [] [] [] [] [] []]; intros H; try reflexivity; discriminate H.
Qed.

Lemma isLineTerminator_lower (c : ascii) :
  isLineTerminator (toLowerChar c) = isLineTerminator c.
Proof. destruct c as [[] [] [] [] [] [] [] []]; reflexivity. Qed.

Lemma star_lower (c : ascii) : Ascii.eqb (toLowerChar c) "*" = Ascii.eqb c "*".
Proof. destruct c as [[] [] [] [] [] [] [] []]; reflexivity. Qed.

Lemma matches_star_cons (rest s : string) :
  Wildcard.matches (String "*" rest) s
  = Wildcard.matches rest s
    || match s with
       | String d s' => negb (isLineTerminator d) && Wildcard.matches (String "*" rest) s'
       | EmptyString => false
       end.
Proof. destruct s; reflexivity. Qed.

Lemma matches_lower_subject (p : string) :
  forall s,
    isAscii s = true -> Wildcard.matches p (toLowerCase s) = Wildcard.matches p s.
Proof.
  induction p as [|c rest IH]; intros s Hs.
  - destruct s; reflexivity.
  - destruct (Ascii.eqb_spec c "*") as [->|Hne].
    + induction s as [|d s' IHs].
      * reflexivity.
      * pose proof Hs as Hs0.
        cbn [isAscii] in Hs. apply andb_prop in Hs as [Hd Hs].
        rewrite (matches_star_cons rest (String d s')).
        rewrite <- (IH (String d s') Hs0).
        cbn [toLowerCase]. rewrite matches_star_cons.
        now rewrite isLineTerminator_lower, (IHs Hs).
    + apply Ascii.eqb_neq in Hne. cbn [Wildcard.matches]. rewrite Hne.
      destruct s as [|d s']; [reflexivity|].
      cbn [isAscii] in Hs. apply andb_prop in Hs as [Hd Hs].
      cbn [toLowerCase]. now rewrite (canonicalize_lower d Hd), (IH s' Hs).
Qed.

Lemma matches_lower_pattern (p : string) :
  isAscii p = true ->
  forall s, Wildcard.matches (toLowerCase p) s = Wildcard.matches p s.
Proof.
  induction p as [|c rest IH]; intros Hp s; [reflexivity|].
  cbn [isAscii] in Hp. apply andb_prop in Hp as [Hc Hp].
  cbn [toLowerCase].
  destruct (Ascii.eqb_spec c "*") as [->|Hne].
  - change (toLowerChar "*") with "*"%char.
    induction s as [|d s' IHs].
    + rewrite !matches_star_cons. now rewrite (IH Hp).
    + rewrite (matches_star_cons (toLowerCase rest)), (matches_star_cons rest).
      now rewrite (IH Hp), IHs.
  - apply Ascii.eqb_neq in Hne. cbn [Wildcard.matches]. rewrite star_lower, Hne.
    destruct s as [|d s']; [reflexivity|].
    now rewrite (canonicalize_lower c Hc), (IH Hp).
Qed.

Lemma stripHash_lower (s : string) : stripHash (toLowerCase s) = toLowerCase (stripHash s).
Proof.
  destruct (startsWith "#" s) eqn:E.
  - rewrite startsWith_hash in E. destruct s as [|c r]; [discriminate|].
    apply Ascii.eqb_eq in E. subst c.
    change (toLowerCase (String "#" r)) with (String "#" (toLowerCase r)).
    now rewrite !stripHash_marked.
  - rewrite (stripHash_unmarked _ E), stripHash_unmarked; [reflexivity|].
    now rewrite startsWith_hash_lower.
Qed.

Lemma startsWith_slash (s : string) :
  startsWith "/" s
  = match s with
    | String c _ => Ascii.eqb c "/"
    | EmptyString => false
    end.
Proof.
  unfold startsWith. destruct s as [|c r]; [reflexivity|].
  cbn [String.prefix].
  assert (Hp : String.prefix "" r = true) by now destruct r.
  rewrite Hp.
  destruct (Ascii.ascii_dec "/" c) as [<-|E]; [reflexivity|].
  symmetry. apply Ascii.eqb_neq. congruence.
Qed.

Lemma endsWith_slash_cons (c : ascii) (r : string) :
  endsWith "/" (String c r)
  = match r with
    | EmptyString => Ascii.eqb c "/"
    | String _ _ => endsWith "/" r
    end.
Proof.
  unfold endsWith. destruct r as [|d r'].
  - simpl. destruct (Ascii.eqb c "/"); reflexivity.
  - cbn [String.length]. simpl Nat.leb. simpl Nat.sub. cbn [String.substring].
    now rewrite Nat.sub_0_r.
Qed.

Lemma endsWith_slash_lower (s : string) :
  endsWith "/" (toLowerCase s) = endsWith "/" s.
Proof.
  induction s as [|c r IH]; [reflexivity|].
  cbn [toLowerCase]. rewrite !endsWith_slash_cons.
  destruct r as [|d r']; [apply toLowerChar_slash|]. exact IH.
Qed.

Lemma isDelimited_lower (p : string) : isDelimited (toLowerCase p) = isDelimited p.
Proof.
  unfold isDelimited. rewrite endsWith_slash_lower, !startsWith_slash.
  destruct p as [|c r]; [reflexivity|].
  cbn [toLowerCase]. now rewrite toLowerChar_slash.
Qed.

Section Engine.
Context {engine : RegExpEngine}.

(** X20.  For a pattern and a tag path of code units below 128: a
    pattern without a star, not written between slashes, matches exactly
    the tag paths equal to it up to case.  Both sides lose one leading
    marker, and every other character of the pattern, the characters
    special in regular expressions included, stands for itself.  The test
    completes without writing to the console. *)
Theorem plain_pattern_matches_equal_path (tagPath pattern : string) :
  isAscii pattern = true ->
  isAscii tagPath = true ->
  isDelimited (stripHash pattern) = false ->
  count "*" (stripHash pattern) = 0 ->
  matchesTagPattern tagPath pattern
  = (Normal (String.eqb (toLowerCase (stripHash pattern))
                        (toLowerCase (stripHash tagPath))), []).
Proof.
  intros Hp Ht Hd Hc. rewrite (matchesTagPattern_wildcard tagPath _ Hd).
  rewrite (@matches_plain (stripHash pattern) Hc (isAscii_stripHash _ Hp)
             (stripHash tagPath) (isAscii_stripHash _ Ht)).
  reflexivity.
Qed.

(** X21.  For a pattern and a tag path of code units below 128: a
    pattern that ends in its only star matches exactly the tag paths that
    begin, up to case, with what stands before the star.  A tag path
    matches when it splits into a head equal to that prefix up to case and
    a rest without the line terminators LF and CR.  So ["project/*"]
    matches every such path below ["project"] and not ["project"]
    itself. *)
Theorem trailing_star_matches_prefix (tagPath pattern prefix : string) :
  isAscii prefix = true ->
  isAscii tagPath = true ->
  stripHash pattern = (prefix ++ "*")%string ->
  count "*" prefix = 0 ->
  matchesTagPattern tagPath pattern
  = (Normal (beginsWith prefix (stripHash tagPath)), [])
  /\ (beginsWith prefix (stripHash tagPath) = true <->
      exists head rest,
        stripHash tagPath = (head ++ rest)%string
        /\ toLowerCase head = toLowerCase prefix
        /\ oneLine rest = true).
Proof.
  intros Ha Ht Hp Hc. split; [|apply beginsWith_spec].
  rewrite matchesTagPattern_wildcard.
  - rewrite Hp.
    now rewrite (@matches_prefix prefix Hc Ha (stripHash tagPath)
                   (isAscii_stripHash _ Ht)).
  - unfold isDelimited. rewrite Hp, endsWith_slash_star. apply Bool.andb_false_r.
Qed.

(** X26.  For a pattern that is not written between slashes the test
    ignores the letter case of a tag path of code units below 128, the
    letter case of a pattern of code units below 128, and the marker of
    the tag path: the result is the same for such a tag path in lower
    case, for such a pattern in lower case, and for any tag path with a
    leading marker. *)
Theorem wildcard_matching_ignores_case (tagPath pattern : string) :
  isDelimited (stripHash pattern) = false ->
  (isAscii tagPath = true ->
   matchesTagPattern (toLowerCase tagPath) pattern = matchesTagPattern tagPath pattern)
  /\ (isAscii pattern = true ->
      matchesTagPattern tagPath (toLowerCase pattern)
      = matchesTagPattern tagPath pattern)
  /\ (startsWith "#" tagPath = false ->
      matchesTagPattern (String "#" tagPath) pattern = matchesTagPattern tagPath pattern).
Proof.
  intros Hd.
  assert (Hd' : isDelimited (stripHash (toLowerCase pattern)) = false)
    by now rewrite stripHash_lower, isDelimited_lower.
  split; [|split].
  - intros Ht.
    rewrite (matchesTagPattern_wildcard (toLowerCase tagPath) _ Hd),
      (matchesTagPattern_wildcard tagPath _ Hd).
    rewrite stripHash_lower.
    now rewrite (matches_lower_subject (stripHash pattern) (stripHash tagPath)
                   (isAscii_stripHash _ Ht)).
  - intros Hp.
    rewrite (matchesTagPattern_wildcard tagPath _ Hd'),
      (matchesTagPattern_wildcard tagPath _ Hd).
    rewrite stripHash_lower.
    now rewrite (@matches_lower_pattern (stripHash pattern) (isAscii_stripHash _ Hp)).
  - intros Hm.
    rewrite (matchesTagPattern_wildcard (String "#" tagPath) _ Hd),
      (matchesTagPattern_wildcard tagPath _ Hd).
    now rewrite stripHash_marked, (stripHash_unmarked _ Hm).
Qed.

Lemma excludeFromTagTree_value (tree : JsMap.t TagTreeNode) (patterns : list string) :
  JsMap.wf tree -> patterns <> [] ->
  exists out,
    excludeFromTagTree tree patterns
    = (Normal (filter
                 (fun entry =>
                    negb (existsb (matchesValue (path (snd entry))) (parsed patterns)))
                 tree), out).
Proof.
  intros Ht Hne. unfold excludeFromTagTree.
  destruct patterns as [|p0 pats]; [congruence|]. simpl length. simpl Nat.eqb. cbv iota.
  apply forEachM_filter; [exact Ht|].
  intros [key node] acc.
  destruct (some_pattern_returns (path node) (parsed (p0 :: pats))) as [out1 H1].
  unfold parsed in H1. rewrite H1. unfold bind. simpl fst. simpl snd.
  unfold parsed.
  destruct (existsb (matchesValue (path node))
                    (parseTagPatterns (join "," (p0 :: pats))));
    eexists; reflexivity.
Qed.

Lemma filterTagTree_value (tree : JsMap.t TagTreeNode) (patterns : list string) :
  JsMap.wf tree -> patterns <> [] ->
  exists out,
    filterTagTree tree patterns
    = (Normal (filter
                 (fun entry =>
                    anyPrefixMatches (parsed patterns) (split "/" (path (snd entry)))
                      (length (split "/" (path (snd entry)))))
                 tree), out).
Proof.
  intros Ht Hne. unfold filterTagTree.
  destruct patterns as [|p0 pats]; [congruence|]. simpl length. simpl Nat.eqb. cbv iota.
  apply forEachM_filter; [exact Ht|].
  intros [key node] acc.
  destruct (ancestorLoop_returns (parsed (p0 :: pats)) (split "/" (path node))
              (length (split "/" (path node)))) as [out1 H1].
  unfold parsed in H1. rewrite H1. unfold bind. simpl fst. simpl snd.
  unfold parsed.
  destruct (anyPrefixMatches (parseTagPatterns (join "," (p0 :: pats)))
              (split "/" (path node)) (length (split "/" (path node))));
    eexists; reflexivity.
Qed.

(** X22.  Excluding in two steps is excluding once with both lists: on a
    tree map, [excludeFromTagTree] with a first list and then with a
    second list on the result gives the map that one call with the two
    lists together gives; a second call with the same list changes
    nothing. *)
Theorem excludeFromTagTree_in_two_steps
    (tree : JsMap.t TagTreeNode) (first second : list string) :
  JsMap.wf tree -> first <> [] -> second <> [] ->
  exists t1 t2 out1 out2 out3 out4,
    excludeFromTagTree tree first = (Normal t1, out1)
    /\ excludeFromTagTree t1 second = (Normal t2, out2)
    /\ excludeFromTagTree tree (first ++ second) = (Normal t2, out3)
    /\ excludeFromTagTree t1 first = (Normal t1, out4).
Proof.
  intros Hwf H1 H2.
  destruct (excludeFromTagTree_value Hwf H1) as [out1 E1].
  set (t1 := filter (fun entry =>
                       negb (existsb (matchesValue (path (snd entry))) (parsed first)))
                    tree) in *.
  assert (Hwf1 : JsMap.wf t1) by now apply wf_filter.
  destruct (excludeFromTagTree_value Hwf1 H2) as [out2 E2].
  destruct (@excludeFromTagTree_value tree (first ++ second) Hwf) as [out3 E3].
  { destruct first; [congruence|discriminate]. }
  destruct (excludeFromTagTree_value Hwf1 H1) as [out4 E4].
  eexists t1, _, out1, out2, out3, out4.
  split; [exact E1|]. split; [exact E2|]. split.
  - rewrite E3. unfold t1. rewrite filter_filter.
    apply (f_equal (fun t : JsMap.t TagTreeNode => (Normal t, out3))).
    apply filter_ext. intros entry.
    rewrite parsed_app by assumption.
    rewrite existsb_app. apply Bool.negb_orb.
  - rewrite E4. unfold t1. rewrite filter_filter.
    apply (f_equal (fun t : JsMap.t TagTreeNode => (Normal t, out4))).
    apply filter_ext. intros entry. apply Bool.andb_diag.
Qed.

Lemma ancestorLoop_no_pattern (pathParts : list string) (i : nat) :
  ancestorLoop [] pathParts i = (Normal false, []).
Proof. induction i as [|j IH]; [reflexivity|]. simpl. now rewrite IH. Qed.

(** With a list that parses to no pattern [filterTagTree] keeps nothing
    and [excludeFromTagTree] keeps everything. *)
Lemma no_pattern_filters (tree : JsMap.t TagTreeNode) (patterns : list string) :
  patterns <> [] -> parsed patterns = [] ->
  filterTagTree tree patterns = (Normal JsMap.empty, [])
  /\ (JsMap.wf tree -> excludeFromTagTree tree patterns = (Normal tree, [])).
Proof.
  intros Hne Hblank. unfold parsed in Hblank. split.
  - unfold filterTagTree.
    destruct patterns as [|p0 pats]; [congruence|]. simpl length. simpl Nat.eqb. cbv iota.
    rewrite Hblank.
    generalize (@JsMap.empty TagTreeNode) as acc.
    induction tree as [|[key node] rest IH]; intros acc; [reflexivity|].
    cbn [forEachM]. rewrite ancestorLoop_no_pattern. simpl. now rewrite IH.
  - intros Hwf. unfold excludeFromTagTree.
    destruct patterns as [|p0 pats]; [congruence|]. simpl length. simpl Nat.eqb. cbv iota.
    rewrite Hblank.
    assert (G : forall acc : JsMap.t TagTreeNode,
               NoDup (JsMap.keys acc ++ JsMap.keys tree) ->
               forEachM
                 (fun '(key, node) (filtered : JsMap.t TagTreeNode) =>
                    shouldExclude <-
                      someM (fun pattern => matchesTagPattern (path node) pattern) [] ;;
                    if negb shouldExclude then ret (JsMap.set key node filtered)
                    else ret filtered)
                 tree acc
               = (Normal (acc ++ tree), [])).
    { clear Hwf. induction tree as [|[key node] rest IH]; intros acc Hnd.
      - simpl. now rewrite app_nil_r.
      - cbn [forEachM]. simpl someM. simpl.
        rewrite IH.
        + rewrite JsMapFacts.set_fresh.
          * now rewrite <- app_assoc.
          * apply JsMapFacts.get_None. intros Hin.
            apply NoDup_remove_2 in Hnd. apply Hnd. apply in_or_app. now left.
        + rewrite JsMapFacts.set_fresh.
          * unfold JsMap.keys in *. rewrite map_app. simpl.
            rewrite <- app_assoc. exact Hnd.
          * apply JsMapFacts.get_None. intros Hin.
            apply NoDup_remove_2 in Hnd. apply Hnd. apply in_or_app. now left. }
    apply (G JsMap.empty). exact Hwf.
Qed.

Lemma isBlankEntry_app (a b : string) :
  isBlankEntry (a ++ b) = isBlankEntry a && isBlankEntry b.
Proof.
  induction a as [|c a IH]; [reflexivity|].
  change (String c a ++ b)%string with (String c (a ++ b)).
  cbn [isBlankEntry]. now rewrite IH, Bool.andb_assoc.
Qed.

Lemma isBlankEntry_join (l : list string) :
  Forall (fun entry => isBlankEntry entry = true) l ->
  isBlankEntry (join "," l) = true.
Proof.
  induction 1 as [|a l Ha Hl IH]; [reflexivity|].
  destruct l as [|b l]; [exact Ha|].
  rewrite join_cons2, !isBlankEntry_app, Ha, IH. reflexivity.
Qed.

Lemma trim_white (c : ascii) (p : string) :
  isWhiteSpace c = true -> trim (String c p) = trim p.
Proof. intros H. unfold trim. cbn [trimStart]. now rewrite H. Qed.

(** The pieces between the commas of a blank string are white space. *)
Lemma split_blank (s : string) :
  isBlankEntry s = true -> Forall (fun piece => trim piece = "") (split "," s).
Proof.
  induction s as [|c r IH]; intros H.
  - repeat constructor.
  - cbn [isBlankEntry] in H. apply andb_prop in H as [Hc Hr].
    specialize (IH Hr). cbn [split].
    destruct (Ascii.eqb c ",") eqn:E.
    + constructor; [reflexivity|exact IH].
    + simpl in Hc.
      destruct (split_cons "," r) as [p [ps Hs]]. rewrite Hs in IH |- *.
      inversion IH as [|? ? Hp Hps]; subst.
      constructor; [|exact Hps]. now rewrite trim_white.
Qed.

Lemma parseTagPatterns_blank (s : string) :
  isBlankEntry s = true -> parseTagPatterns s = [].
Proof.
  intros H. apply split_blank in H. unfold parseTagPatterns.
  induction H as [|piece l Hp Hl IH]; [reflexivity|].
  cbn [map filter]. rewrite Hp. exact IH.
Qed.

(** X23.  A pattern list whose entries are all blank, made of white space
    and commas only, parses to no pattern.  When such a list is not empty
    [filterTagTree] returns an empty map, whatever the tree, while
    [excludeFromTagTree] returns the entries of the tree; neither writes to
    the console. *)
Theorem blank_patterns_include_nothing
    (tree : JsMap.t TagTreeNode) (patterns : list string) :
  patterns <> [] ->
  Forall (fun entry => isBlankEntry entry = true) patterns ->
  parsed patterns = []
  /\ filterTagTree tree patterns = (Normal JsMap.empty, [])
  /\ (JsMap.wf tree -> excludeFromTagTree tree patterns = (Normal tree, [])).
Proof.
  intros Hne Hblank.
  assert (Hparsed : parsed patterns = []).
  { unfold parsed. now apply parseTagPatterns_blank, isBlankEntry_join. }
  split; [exact Hparsed|]. now apply no_pattern_filters.
Qed.

Lemma filter_complement {A : Type} (f : A -> bool) (l : list A) :
  (forall x, In x l <-> In x (filter f l) \/ In x (filter (fun y => negb (f y)) l))
  /\ (forall x, In x (filter f l) -> ~ In x (filter (fun y => negb (f y)) l))
  /\ length (filter f l) + length (filter (fun y => negb (f y)) l) = length l.
Proof.
  split; [|split].
  - intros x. rewrite !filter_In. destruct (f x); simpl; intuition discriminate.
  - intros x. rewrite !filter_In. intros [_ ->] [_ H]. discriminate.
  - induction l as [|a l IH]; simpl; [reflexivity|].
    destruct (f a); simpl; lia.
Qed.

(** X24.  On a built tree the two filters look at the root nodes, whose
    paths have one segment, so the ancestor walk of [filterTagTree] is one
    test: with the same non-empty pattern list, [filterTagTree] keeps the
    roots whose path matches a pattern and [excludeFromTagTree] keeps the
    others.  The two results share no entry and together hold every entry
    of the tree. *)
Theorem filters_split_built_tree
    {filters : FileFilters} (Metadata : Type) (db : MemoryFileCache.t Metadata)
    (excludedFolderPatterns : option (list string)) (cache : NoteCountCache)
    (patterns : list string) :
  patterns <> [] ->
  let matched (entry : string * TagTreeNode) : bool :=
    existsb (matchesValue (path (snd entry))) (parsed patterns) in
  exists res kept rest out1 out2,
    buildTagTreeFromDatabase db excludedFolderPatterns cache = (Some res, None)
    /\ filterTagTree (TagTree.tree res) patterns = (Normal kept, out1)
    /\ excludeFromTagTree (TagTree.tree res) patterns = (Normal rest, out2)
    /\ kept = filter matched (TagTree.tree res)
    /\ rest = filter (fun entry => negb (matched entry)) (TagTree.tree res)
    /\ (forall entry, In entry (TagTree.tree res) <-> In entry kept \/ In entry rest)
    /\ (forall entry, In entry kept -> ~ In entry rest)
    /\ length kept + length rest = length (TagTree.tree res).
Proof.
  intros Hne matched.
  destruct (@TagIndex.build_returns _ _ db excludedFolderPatterns cache) as [T [HT Hb]].
  destruct (@TagIndex.read_roots _ _ db excludedFolderPatterns T HT) as [Hwf Hroots].
  destruct (filterTagTree_value Hwf Hne) as [out1 E1].
  destruct (excludeFromTagTree_value Hwf Hne) as [out2 E2].
  destruct (filter_complement matched T) as [F1 [F2 F3]].
  eexists _, (filter matched T), (filter (fun entry => negb (matched entry)) T), out1, out2.
  split; [exact Hb|]. cbn [TagTree.tree].
  split; [|split; [exact E2|]].
  - rewrite E1. apply (f_equal (fun t : JsMap.t TagTreeNode => (Normal t, out1))).
    apply filter_ext_in. intros [k node] Hin. unfold matched. cbn [snd].
    destruct (Hroots _ _ Hin) as [_ Hc].
    rewrite (split_single "/" _ Hc). simpl. apply Bool.orb_false_r.
  - split; [reflexivity|]. split; [reflexivity|]. auto.
Qed.

End Engine.

End PatternExtras.

(** ** The count of a node of a built tree *)

Module NestedCount.

Import JsString JsStringFacts TagTree TagTreeSpec NotesSpec PrefixFacts BuildFacts
  ReadFacts CountFacts WalkFacts BuiltTreeFacts.

Lemma prefix_iff (a b : string) :
  String.prefix a b = true <-> exists r, b = (a ++ r)%string.
Proof.
  revert b. induction a as [|c a IH]; intros b.
  - split; [intros _; now exists b|]. intros _. now destruct b.
  - destruct b as [|d b]; cbn [String.prefix].
    + split; [discriminate|]. intros [r H]. discriminate.
    + destruct (Ascii.ascii_dec c d) as [->|Hne].
      * rewrite IH. split; intros [r H]; exists r.
        -- now rewrite H.
        -- now injection H.
      * split; [discriminate|]. intros [r H]. injection H as H1 H2. congruence.
Qed.

Lemma isUnder_iff (k k' : string) :
  isUnder k k' = true <-> k' = k \/ exists r, k' = (k ++ "/" ++ r)%string.
Proof.
  unfold isUnder, startsWith. rewrite orb_true_iff, String.eqb_eq, prefix_iff.
  split; (intros [H|[r H]]; [now left|right; exists r]).
  - now rewrite <- append_assoc.
  - now rewrite append_assoc.
Qed.

Lemma isUnder_refl (k : string) : isUnder k k = true.
Proof. apply isUnder_iff. now left. Qed.

Lemma isUnder_trans (a b c : string) :
  isUnder a b = true -> isUnder b c = true -> isUnder a c = true.
Proof.
  rewrite !isUnder_iff. intros [Hb|[r1 Hb]] [Hc|[r2 Hc]]; subst.
  - now left.
  - right. now exists r2.
  - right. now exists r1.
  - right. exists (r1 ++ "/" ++ r2)%string. now rewrite !append_assoc.
Qed.

Lemma depth_split (c : string) : depthOfKey c = length (split "/" c) - 1.
Proof.
  unfold depthOfKey. rewrite <- (join_split c) at 1.
  apply count_join, split_parts.
Qed.

Lemma length_removelast {A : Type} (l : list A) :
  length (removelast l) = length l - 1.
Proof.
  induction l as [|a l IH]; [reflexivity|].
  destruct l as [|b l]; [reflexivity|].
  change (removelast (a :: b :: l)) with (a :: removelast (b :: l)).
  simpl length in *. lia.
Qed.

Lemma Forall_removelast {A : Type} (P : A -> Prop) (l : list A) :
  Forall P l -> Forall P (removelast l).
Proof.
  induction 1 as [|a l Ha Hl IH]; [constructor|].
  destruct l as [|b l]; [constructor|].
  change (removelast (a :: b :: l)) with (a :: removelast (b :: l)).
  now constructor.
Qed.

Lemma key_under_parent (c : string) :
  0 < depthOfKey c -> isUnder (parentOf c) c = true.
Proof.
  intros Hd. apply isUnder_iff. right. exists (last (split "/" c) "").
  rewrite depth_split in Hd. unfold parentOf.
  assert (Hne : split "/" c <> []) by apply split_nonempty.
  assert (Hrl : removelast (split "/" c) <> []).
  { intros E. apply (f_equal (@length string)) in E.
    rewrite length_removelast in E. simpl in E. lia. }
  rewrite <- join_snoc by exact Hrl.
  rewrite <- app_removelast_last by exact Hne.
  symmetry. apply join_split.
Qed.

Lemma parent_under (k k' : string) :
  k' <> k -> isUnder k k' = true ->
  isUnder k (parentOf k') = true /\ depthOfKey (parentOf k') < depthOfKey k'.
Proof.
  intros Hne Hu. apply isUnder_iff in Hu as [->|[r ->]]; [congruence|].
  change (k ++ "/" ++ r)%string with (k ++ String "/" r)%string.
  unfold parentOf. rewrite PatternExtras.split_append_sep.
  rewrite removelast_app by apply split_nonempty.
  split.
  - destruct (removelast (split "/" r)) as [|x xs] eqn:E.
    + rewrite app_nil_r, join_split. apply isUnder_refl.
    + apply isUnder_iff. right. exists (join "/" (x :: xs)).
      rewrite PatternExtras.join_app; [|apply split_nonempty|discriminate].
      now rewrite join_split.
  - unfold depthOfKey at 1. rewrite count_join.
    + rewrite depth_split.
      rewrite PatternExtras.split_append_sep, !length_app, length_removelast.
      pose proof (split_length "/" k). pose proof (split_length "/" r). lia.
    + apply Forall_app. split; [apply split_parts|].
      apply Forall_removelast, split_parts.
Qed.

Lemma readNode_det (nodes : JsMap.t Obj.t) :
  forall f1 f2 k t1 t2,
    readNode f1 nodes k = Some t1 -> readNode f2 nodes k = Some t2 -> t1 = t2.
Proof.
  induction f1 as [|f1 IH]; intros f2 k t1 t2 H1 H2; [discriminate|].
  destruct f2 as [|f2]; [discriminate|].
  rewrite readNode_S in H1, H2.
  destruct (JsMap.get k nodes) as [o|]; [|discriminate].
  destruct (traverse (readEntry f1 nodes) (Obj.children o)) as [cs1|] eqn:E1;
    [|discriminate].
  destruct (traverse (readEntry f2 nodes) (Obj.children o)) as [cs2|] eqn:E2;
    [|discriminate].
  injection H1 as <-. injection H2 as <-. f_equal.
  revert cs1 cs2 E1 E2.
  induction (Obj.children o) as [|[c r] l IHl]; intros cs1 cs2 E1 E2.
  - simpl in E1, E2. congruence.
  - cbn [traverse] in E1, E2. unfold readEntry at 1 in E1. unfold readEntry at 1 in E2.
    destruct (readNode f1 nodes r) as [x1|] eqn:R1; [|discriminate].
    destruct (readNode f2 nodes r) as [x2|] eqn:R2; [|discriminate].
    destruct (traverse (readEntry f1 nodes) l) as [y1|]; [|discriminate].
    destruct (traverse (readEntry f2 nodes) l) as [y2|]; [|discriminate].
    injection E1 as <-. injection E2 as <-.
    rewrite (IH _ _ _ _ R1 R2), (IHl y1 y2 eq_refl eq_refl). reflexivity.
Qed.

Section Store.
Variable nodes : JsMap.t Obj.t.
Variable roots : JsMap.t Ref.
Hypothesis core : Core nodes roots.
Hypothesis linked : forall k, JsMap.get k nodes <> None -> Linked nodes k.
Variable T : JsMap.t TagTreeNode.
Hypothesis read : traverse (readEntry (depthBound nodes) nodes) roots = Some T.

Lemma child_of_read fuel k t c n :
  readNode fuel nodes k = Some t -> In (c, n) (children t) ->
  parentOf c = k /\ depthOfKey c = S (depthOfKey k).
Proof.
  intros Hread Hin. destruct fuel as [|fuel]; [discriminate|].
  apply readNode_shape in Hread as [o [Ho [_ [_ [_ Hch]]]]].
  destruct (@Forall2_In_r _ _ _ _ _ _ Hch Hin) as [[c' r] [Hc Hr]].
  apply readEntry_Some in Hr as [Hk _]. cbn [fst snd] in Hk. subst c'.
  destruct (core_children core _ _ _ Ho Hc) as [_ [_ [Hp Hd]]]. auto.
Qed.

(** Every node of the subtree of a node has a key under the key of that
    node. *)
Lemma subtree_keys_under (node : TagTreeNode) :
  forall k,
    Reachable T k node ->
    forall n, In n (subtreeNodes node) ->
              exists k', Reachable T k' n /\ isUnder k k' = true.
Proof.
  induction node as [node IH] using TagTreeNode_induction.
  intros k Hr n Hn. rewrite subtreeNodes_eq in Hn.
  destruct Hn as [<-|Hn]; [exists k; split; [exact Hr|apply isUnder_refl]|].
  apply in_flat_map in Hn as [[kc c] [Hc Hn]].
  rewrite Forall_forall in IH.
  assert (Hrc : Reachable T kc c) by (eapply reachable_below; eauto).
  destruct (IH (kc, c) Hc kc Hrc n Hn) as [k' [Hr' Hu]].
  exists k'. split; [exact Hr'|].
  apply (isUnder_trans k kc k'); [|exact Hu].
  destruct (reachable_read core read Hr) as [fuel Hread].
  destruct (@child_of_read fuel k node kc c Hread Hc) as [Hp Hd].
  rewrite <- Hp. apply key_under_parent. lia.
Qed.

(** Every object whose key is under the key of a node is read into the
    subtree of that node. *)
Lemma under_in_subtree (k : string) (node : TagTreeNode) :
  Reachable T k node ->
  forall d k',
    depthOfKey k' <= d -> isUnder k k' = true -> JsMap.get k' nodes <> None ->
    exists t', Reachable T k' t' /\ In t' (subtreeNodes node).
Proof.
  intros Hr. induction d as [|d IH]; intros k' Hd Hu Hk'.
  - destruct (String.eqb_spec k' k) as [->|Hne].
    + exists node. split; [exact Hr|]. rewrite subtreeNodes_eq. now left.
    + destruct (parent_under Hne Hu) as [_ Hlt]. lia.
  - destruct (String.eqb_spec k' k) as [->|Hne].
    + exists node. split; [exact Hr|]. rewrite subtreeNodes_eq. now left.
    + destruct (parent_under Hne Hu) as [Hup Hlt].
      destruct (JsMap.get k' nodes) as [o|] eqn:E; [|congruence].
      destruct (@node_in_tree nodes roots core linked T read (depthOfKey k') k' o
                  eq_refl E) as [fuel [t' [Hread [Hr' [_ Hparent]]]]].
      destruct Hparent as [fuel' [pt [Hpread [Hpr Hin]]]]; [lia|].
      destruct (IH (parentOf k')) as [tp [Htp Hsub]]; [lia|exact Hup| |].
      { apply readNode_fields in Hpread as [po [Hpo _]]. congruence. }
      destruct (reachable_read core read Htp) as [fuel'' Htpread].
      assert (tp = pt) by (eapply readNode_det; eauto). subst tp.
      exists t'. split; [exact Hr'|]. eapply subtree_child; eauto.
Qed.

End Store.

Section Index.
Context {filters : FileFilters}.
Variable Metadata : Type.
Variable db : MemoryFileCache.t Metadata.
Variable excludedFolderPatterns : option (list string).

Local Abbreviation locals := (scan (getAllFiles db) excludedFolderPatterns).
Local Abbreviation pairs := (taggings (getAllFiles db) excludedFolderPatterns).

Lemma In_filesAt (key file : string) :
  In file (filesAt key pairs)
  <-> exists tag, In (file, tag) pairs /\ keyOfTag tag = key.
Proof.
  unfold filesAt. rewrite in_map_iff. split.
  - intros [[f tag] [Hf Hp]]. simpl in Hf. subst f.
    apply filter_In in Hp as [Hp Hkey]. simpl in Hkey.
    apply String.eqb_eq in Hkey. eauto.
  - intros [tag [Hp Hkey]]. exists (file, tag). split; [reflexivity|].
    apply filter_In. split; [exact Hp|]. simpl. now apply String.eqb_eq.
Qed.

Lemma In_filesUnder (key file : string) :
  In file (filesUnder key pairs)
  <-> exists tag, In (file, tag) pairs /\ isUnder key (keyOfTag tag) = true.
Proof.
  unfold filesUnder. rewrite in_map_iff. split.
  - intros [[f tag] [Hf Hp]]. simpl in Hf. subst f.
    apply filter_In in Hp as [Hp Hkey]. eauto.
  - intros [tag [Hp Hkey]]. exists (file, tag). split; [reflexivity|].
    apply filter_In. auto.
Qed.

(** X25.  In a built tree the count of a node is the number of distinct
    files that carry the tag of the node or a tag nested below it: the
    files met in the subtree of the node of a key are exactly the files of
    the records outside the excluded folders with a tag whose key is that
    key or continues it after a separator, and with a sound cache
    [getTotalNoteCount] is the number of these files, each counted
    once. *)
Theorem getTotalNoteCount_counts_nested_tags (cache0 : NoteCountCache) :
  exists res,
    buildTagTreeFromDatabase db excludedFolderPatterns cache0 = (Some res, None)
    /\ forall key node,
         Reachable (tree res) key node ->
         (forall file,
            In file (taggedFiles node)
            <-> exists tag,
                  In (file, tag) pairs
                  /\ (keyOfTag tag = key
                      \/ exists rest, keyOfTag tag = (key ++ "/" ++ rest)%string))
         /\ (forall cache,
               cacheSound cache ->
               fst (getTotalNoteCount node cache)
               = length (nodup string_dec (filesUnder key pairs))).
Proof.
  destruct (built_tree db excludedFolderPatterns cache0) as [T [Hb [HT Hobj]]].
  exists {| tree := T; untagged := Build.untaggedCount locals |}.
  split; [exact Hb|]. cbn [tree].
  destruct (scan_notesInv excludedFolderPatterns (getAllFiles db)) as [Hinv Hnotes].
  pose proof Hinv as [[C L] _].
  assert (HT' : traverse (readEntry (depthBound (Build.allNodes locals))
                                    (Build.allNodes locals))
                         (Build.tree locals) = Some T) by exact HT.
  assert (Hread : forall k t file,
             Reachable T k t ->
             (In file (notesWithTag t) <-> In file (filesAt k pairs))).
  { intros k t file Hr. destruct (Hobj _ _ Hr) as [o [Ho [_ [_ [Hs _]]]]].
    rewrite Hs, (Hnotes _ _ Ho).
    destruct (@addAll_spec (filesAt k pairs) JsSet.empty (NoDup_nil _)) as [_ Hin].
    unfold JsSet.from. rewrite Hin. simpl. tauto. }
  intros key node Hr.
  assert (Hfiles : forall file,
             In file (taggedFiles node) <-> In file (filesUnder key pairs)).
  { intros file. rewrite In_filesUnder. unfold taggedFiles. rewrite in_flat_map. split.
    - intros [n [Hn Hf]].
      destruct (@subtree_keys_under _ _ C T HT' node key Hr n Hn) as [k' [Hr' Hu]].
      apply (Hread _ _ _ Hr') in Hf. apply In_filesAt in Hf as [tag [Hp Hk]].
      exists tag. split; [exact Hp|]. now rewrite Hk.
    - intros [tag [Hp Hu]].
      assert (Hat : In file (filesAt (keyOfTag tag) pairs))
        by (apply In_filesAt; eauto).
      assert (Hk : JsMap.get (keyOfTag tag) (Build.allNodes locals) <> None).
      { intros E. rewrite (@filesAt_absent pairs locals _ Hinv E) in Hat. exact Hat. }
      destruct (@under_in_subtree _ _ C L T HT' key node Hr _ _ (Nat.le_refl _) Hu Hk)
        as [t' [Hr' Hsub]].
      exists t'. split; [exact Hsub|]. now apply (Hread _ _ _ Hr'). }
  split.
  - intros file. rewrite Hfiles, In_filesUnder.
    split; intros [tag [Hp Hu]]; exists tag; (split; [exact Hp|]);
      now apply isUnder_iff.
  - intros cache Hs. rewrite (@BuildExtras.count_sound node cache Hs).
    apply Nat.le_antisymm; apply BuildExtras.nodup_incl_length;
      intros f Hf; now apply Hfiles.
Qed.

End Index.

End NestedCount.

(** ** Instances of the statements above *)

Module ExtraExamples.

Import JsString TagTree TagTreeSpec PatternSpec NotesSpec WildcardSpec ExampleData.

(** A record is written, deleted, and another path is written: the first
    path has no record. *)
Lemma getFile_reflects_last_write_witness :
  forallb (@MirrorSpec.isPlainWrite unit)
    [MemoryFileCache.CallUpdateFile "a.md" (tagged ["#x"]);
     MemoryFileCache.CallDeleteFile unit "a.md";
     MemoryFileCache.CallUpdateFile "b.md" (tagged [])] = true
  /\ MemoryFileCache.getFile "a.md"
       (MemoryFileCache.performAll
          [MemoryFileCache.CallUpdateFile "a.md" (tagged ["#x"]);
           MemoryFileCache.CallDeleteFile unit "a.md";
           MemoryFileCache.CallUpdateFile "b.md" (tagged [])]
          (MemoryFileCache.performAll [] (MemoryFileCache.create unit)))
     = None.
Proof.
  split; [reflexivity|].
  exact (@MirrorExtras.getFile_reflects_last_write unit []
           [MemoryFileCache.CallUpdateFile "a.md" (tagged ["#x"]);
            MemoryFileCache.CallDeleteFile unit "a.md";
            MemoryFileCache.CallUpdateFile "b.md" (tagged [])]
           "a.md" eq_refl).
Defined.

Lemma updateFileContent_patches_fields_witness :
  MemoryFileCache.getFile "a.md" (mirrorOf [("a.md", tagged ["#x"])])
  = Some (tagged ["#x"])
  /\ MemoryFileCache.updateFileContent "a.md" (MirrorSpec.noUpdates unit)
       (mirrorOf [("a.md", tagged ["#x"])])
     = mirrorOf [("a.md", tagged ["#x"])].
Proof.
  split; [reflexivity|].
  exact (proj1 (proj2 (proj2
           (@MirrorExtras.updateFileContent_patches_fields unit "a.md" (tagged ["#x"])
              (mirrorOf [("a.md", tagged ["#x"])]) eq_refl)))).
Defined.

(** One object under two paths: the patch under the first path is read
    under the second. *)
Lemma updateFileContent_patches_shared_object_witness :
  SharedMirror.getFile "a.md"
    {| SharedMirror.objects := fun _ => tagged ["#x"];
       SharedMirror.memoryMap := [("a.md", 0); ("b.md", 0)];
       SharedMirror.isInitialized := true |}
  = Some 0
  /\ SharedMirror.readFile "b.md"
       (SharedMirror.updateFileContent "a.md"
          {| MemoryFileCache.Updates.preview := Some (Some "text");
             MemoryFileCache.Updates.featureImage := None;
             MemoryFileCache.Updates.metadata := None |}
          {| SharedMirror.objects := fun _ => tagged ["#x"];
             SharedMirror.memoryMap := [("a.md", 0); ("b.md", 0)];
             SharedMirror.isInitialized := true |})
     = Some {| FileData.tags := Some ["#x"]; FileData.preview := Some "text";
               FileData.featureImage := None; FileData.metadata := None |}.
Proof.
  split; [reflexivity|].
  exact (proj1
           (@SharedMirrorFacts.updateFileContent_patches_shared_object unit "a.md"
              {| MemoryFileCache.Updates.preview := Some (Some "text");
                 MemoryFileCache.Updates.featureImage := None;
                 MemoryFileCache.Updates.metadata := None |}
              0
              {| SharedMirror.objects := fun _ => tagged ["#x"];
                 SharedMirror.memoryMap := [("a.md", 0); ("b.md", 0)];
                 SharedMirror.isInitialized := true |}
              eq_refl)
           "b.md").
Defined.

Lemma snapshot_commutes_witness :
  JsMap.wf [("a.md", 0)]
  /\ SharedMirror.snapshot
       (SharedMirror.deleteFile "a.md"
          {| SharedMirror.objects := fun _ => tagged ["#x"];
             SharedMirror.memoryMap := [("a.md", 0)];
             SharedMirror.isInitialized := true |})
     = MemoryFileCache.deleteFile "a.md"
         (SharedMirror.snapshot
            {| SharedMirror.objects := fun _ => tagged ["#x"];
               SharedMirror.memoryMap := [("a.md", 0)];
               SharedMirror.isInitialized := true |}).
Proof.
  assert (H : JsMap.wf [("a.md", 0)]).
  { repeat constructor; simpl; intuition discriminate. }
  split; [exact H|].
  exact (proj1 (proj2 (proj2
           (@SharedMirrorFacts.snapshot_commutes unit
              {| SharedMirror.objects := fun _ => tagged ["#x"];
                 SharedMirror.memoryMap := [("a.md", 0)];
                 SharedMirror.isInitialized := true |} H)))
           "a.md").
Defined.

Lemma collectAllTagPaths_adds_subtree_paths_witness :
  NoDup ["other"]
  /\ JsSet.has (path projectNode) (collectAllTagPaths projectNode ["other"]) = true.
Proof.
  assert (H : NoDup ["other"]).
  { repeat constructor; simpl; intuition discriminate. }
  split; [exact H|].
  exact (proj2 (proj2 (proj2
           (@WalkFacts.collectAllTagPaths_adds_subtree_paths projectNode ["other"] H)))).
Defined.

Lemma getTotalNoteCount_between_children_and_sum_witness :
  cacheSound None
  /\ length (nodup string_dec (notesWithTag projectNode))
     <= fst (getTotalNoteCount projectNode None).
Proof.
  split; [exact I|].
  exact (proj1 (proj2
           (@BuildExtras.getTotalNoteCount_between_children_and_sum
              projectNode None None I I))).
Defined.

Lemma plain_pattern_matches_equal_path_witness :
  isAscii "project" = true
  /\ isAscii "#Project" = true
  /\ isDelimited (stripHash "project") = false
  /\ count "*" (stripHash "project") = 0
  /\ matchesTagPattern "#Project" "project" = (Normal true, []).
Proof.
  split; [reflexivity|]. split; [reflexivity|].
  split; [reflexivity|]. split; [reflexivity|].
  exact (@PatternExtras.plain_pattern_matches_equal_path referenceRegExp
           "#Project" "project" eq_refl eq_refl eq_refl eq_refl).
Defined.

Lemma trailing_star_matches_prefix_witness :
  isAscii "project/" = true
  /\ isAscii "Project/Sub" = true
  /\ isAscii "project" = true
  /\ stripHash "#project/*" = ("project/" ++ "*")%string
  /\ count "*" "project/" = 0
  /\ matchesTagPattern "Project/Sub" "#project/*" = (Normal true, [])
  /\ matchesTagPattern "project" "#project/*" = (Normal false, []).
Proof.
  split; [reflexivity|]. split; [reflexivity|]. split; [reflexivity|].
  split; [reflexivity|]. split; [reflexivity|]. split.
  - exact (proj1 (@PatternExtras.trailing_star_matches_prefix referenceRegExp
                    "Project/Sub" "#project/*" "project/"
                    eq_refl eq_refl eq_refl eq_refl)).
  - exact (proj1 (@PatternExtras.trailing_star_matches_prefix referenceRegExp
                    "project" "#project/*" "project/"
                    eq_refl eq_refl eq_refl eq_refl)).
Defined.

Lemma wildcard_matching_ignores_case_witness :
  isDelimited (stripHash "Pro*ct") = false
  /\ isAscii "PROJECT" = true
  /\ isAscii "Pro*ct" = true
  /\ matchesTagPattern "project" "Pro*ct" = matchesTagPattern "PROJECT" "Pro*ct"
  /\ matchesTagPattern "PROJECT" "pro*ct" = matchesTagPattern "PROJECT" "Pro*ct".
Proof.
  split; [reflexivity|]. split; [reflexivity|]. split; [reflexivity|]. split.
  - exact (proj1 (@PatternExtras.wildcard_matching_ignores_case referenceRegExp
                    "PROJECT" "Pro*ct" eq_refl) eq_refl).
  - exact (proj1 (proj2 (@PatternExtras.wildcard_matching_ignores_case referenceRegExp
                           "PROJECT" "Pro*ct" eq_refl)) eq_refl).
Defined.

Lemma excludeFromTagTree_in_two_steps_witness :
  JsMap.wf [("project", projectNode); ("project/sub", subNode)]
  /\ ["project"] <> []
  /\ ["other"] <> []
  /\ exists t1 t2 out1 out2 out3 out4,
       excludeFromTagTree [("project", projectNode); ("project/sub", subNode)]
                          ["project"] = (Normal t1, out1)
       /\ excludeFromTagTree t1 ["other"] = (Normal t2, out2)
       /\ excludeFromTagTree [("project", projectNode); ("project/sub", subNode)]
                             (["project"] ++ ["other"]) = (Normal t2, out3)
       /\ excludeFromTagTree t1 ["project"] = (Normal t1, out4).
Proof.
  assert (H : JsMap.wf [("project", projectNode); ("project/sub", subNode)]).
  { repeat constructor; simpl; intuition discriminate. }
  assert (H1 : ["project"] <> []) by discriminate.
  assert (H2 : ["other"] <> []) by discriminate.
  split; [exact H|]. split; [exact H1|]. split; [exact H2|].
  exact (@PatternExtras.excludeFromTagTree_in_two_steps referenceRegExp
           [("project", projectNode); ("project/sub", subNode)]
           ["project"] ["other"] H H1 H2).
Defined.

Lemma blank_patterns_include_nothing_witness :
  [" , "; ""] <> []
  /\ Forall (fun entry => isBlankEntry entry = true) [" , "; ""]
  /\ parsed [" , "; ""] = []
  /\ filterTagTree [("project", projectNode)] [" , "; ""] = (Normal JsMap.empty, []).
Proof.
  assert (H : [" , "; ""] <> []) by discriminate.
  assert (B : Forall (fun entry => isBlankEntry entry = true) [" , "; ""])
    by (repeat constructor).
  split; [exact H|]. split; [exact B|].
  pose proof (@PatternExtras.blank_patterns_include_nothing referenceRegExp
                [("project", projectNode)] [" , "; ""] H B) as R.
  split; [exact (proj1 R)|exact (proj1 (proj2 R))].
Defined.

Lemma filters_split_built_tree_witness :
  ["project"] <> []
  /\ exists res kept rest out1 out2,
       buildTagTreeFromDatabase (mirrorOf nestedRecords) None None = (Some res, None)
       /\ filterTagTree (TagTree.tree res) ["project"] = (Normal kept, out1)
       /\ excludeFromTagTree (TagTree.tree res) ["project"] = (Normal rest, out2)
       /\ kept
          = filter (fun entry =>
                      existsb (matchesValue (path (snd entry))) (parsed ["project"]))
                   (TagTree.tree res)
       /\ rest
          = filter (fun entry =>
                      negb (existsb (matchesValue (path (snd entry)))
                                    (parsed ["project"])))
                   (TagTree.tree res)
       /\ (forall entry, In entry (TagTree.tree res) <-> In entry kept \/ In entry rest)
       /\ (forall entry, In entry kept -> ~ In entry rest)
       /\ length kept + length rest = length (TagTree.tree res).
Proof.
  assert (H : ["project"] <> []) by discriminate.
  split; [exact H|].
  exact (@PatternExtras.filters_split_built_tree referenceRegExp unusedFilters unit
           (mirrorOf nestedRecords) None None ["project"] H).
Defined.

End ExtraExamples.
